(** * mongo-tools: the JSON importer (src/main.go, src/unnamed/part_000)

    A shallow embedding of the importer's pure parts (collection-name
    extraction, the array / NDJSON record parser) and of its orchestration
    (read, parse, delete-all, insert-many), together with the parts of the Go
    standard library they run on: [utf8.DecodeRune], [unicode.IsSpace],
    [bytes.TrimSpace] / [strings.TrimSpace], [strings.HasSuffix],
    [strings.Split], [filepath.Base] (Unix separator) and [bufio.Scanner]
    with [bufio.ScanLines] over a [bytes.Reader].

    Go's [string] and [[]byte] are both byte sequences: [list byte].
    Go's [int] and [rune] are rendered as [Z]; no value in this program gets
    near the wrap-around of a 64-bit [int]. *)

From Stdlib Require Import List ZArith Lia Bool String Strings.Byte.
Import ListNotations.
Open Scope Z_scope.

(** ** Byte sequences *)

Abbreviation bytes := (list byte).

(** A string literal of the source, as its bytes. *)
Definition bs (s : string) : bytes := list_byte_of_string s.

(** The numeric value of a byte, 0..255. *)
Definition u8 (b : byte) : Z := Z.of_N (Byte.to_N b).

(** Go's [len]. *)
Definition len {A : Type} (l : list A) : Z := Z.of_nat (List.length l).

(** Go's [s[lo:hi]]; the callers below keep [0 <= lo <= hi <= len s]. *)
Definition slice {A : Type} (l : list A) (lo hi : Z) : list A :=
  firstn (Z.to_nat (hi - lo)) (skipn (Z.to_nat lo) l).

Definition bytes_eqb (a b : bytes) : bool :=
  if list_eq_dec Byte.byte_eq_dec a b then true else false.

(** ** unicode/utf8 *)

Module Utf8.

Definition RuneError : Z := 65533.   (* U+FFFD *)
Definition RuneSelf : Z := 128.      (* 0x80 *)
Definition UTFMax : Z := 4.

(** The entries of the table [first]: the low three bits are the length
    of the encoding, the high four bits an index into [acceptRanges]. *)
Definition xx : Z := 241.  (* 0xF1: invalid, size 1 *)
Definition as_ : Z := 240. (* 0xF0: ASCII, size 1 *)
Definition s1 : Z := 2.    (* 0x02 *)
Definition s2 : Z := 19.   (* 0x13 *)
Definition s3 : Z := 3.    (* 0x03 *)
Definition s4 : Z := 35.   (* 0x23 *)
Definition s5 : Z := 52.   (* 0x34 *)
Definition s6 : Z := 4.    (* 0x04 *)
Definition s7 : Z := 68.   (* 0x44 *)

(** [first[p0]], the 256-entry table read by ranges. *)
Definition first (p0 : Z) : Z :=
  if p0 <? 128 then as_          (* 0x00-0x7F *)
  else if p0 <? 194 then xx      (* 0x80-0xC1 *)
  else if p0 <? 224 then s1      (* 0xC2-0xDF *)
  else if p0 =? 224 then s2      (* 0xE0 *)
  else if p0 <? 237 then s3      (* 0xE1-0xEC *)
  else if p0 =? 237 then s4      (* 0xED *)
  else if p0 <? 240 then s3      (* 0xEE-0xEF *)
  else if p0 =? 240 then s5      (* 0xF0 *)
  else if p0 <? 244 then s6      (* 0xF1-0xF3 *)
  else if p0 =? 244 then s7      (* 0xF4 *)
  else xx.                       (* 0xF5-0xFF *)

Definition locb : Z := 128. (* 0b10000000 *)
Definition hicb : Z := 191. (* 0b10111111 *)

(** [acceptRanges[i]] as the pair (lo, hi). *)
Definition acceptRanges (i : Z) : Z * Z :=
  if i =? 0 then (locb, hicb)
  else if i =? 1 then (160, hicb)
  else if i =? 2 then (locb, 159)
  else if i =? 3 then (144, hicb)
  else if i =? 4 then (locb, 143)
  else (0, 0).

Definition maskx : Z := 63. (* 0b00111111 *)
Definition mask2 : Z := 31. (* 0b00011111 *)
Definition mask3 : Z := 15. (* 0b00001111 *)
Definition mask4 : Z := 7.  (* 0b00000111 *)

(** [p[i]] as a number; the callers check the length first. *)
Definition at_ (p : bytes) (i : nat) : Z := u8 (nth i p x00).

(** [utf8.DecodeRune]: the first rune of [p] and its width in bytes. *)
Definition DecodeRune (p : bytes) : Z * Z :=
  let n := len p in
  if n <? 1 then (RuneError, 0)
  else
    let p0 := at_ p 0 in
    let x := first p0 in
    if x >=? as_ then
      (* mask := rune(x) << 31 >> 31: all ones when x is xx, zero when as *)
      ((if Z.testbit x 0 then RuneError else p0), 1)
    else
      let sz := Z.land x 7 in
      let accept := acceptRanges (Z.shiftr x 4) in
      if n <? sz then (RuneError, 1)
      else
        let b1 := at_ p 1 in
        if (b1 <? fst accept) || (snd accept <? b1) then (RuneError, 1)
        else if sz <=? 2 then
          (Z.lor (Z.shiftl (Z.land p0 mask2) 6) (Z.land b1 maskx), 2)
        else
          let b2 := at_ p 2 in
          if (b2 <? locb) || (hicb <? b2) then (RuneError, 1)
          else if sz <=? 3 then
            (Z.lor (Z.lor (Z.shiftl (Z.land p0 mask3) 12)
                          (Z.shiftl (Z.land b1 maskx) 6))
                   (Z.land b2 maskx), 3)
          else
            let b3 := at_ p 3 in
            if (b3 <? locb) || (hicb <? b3) then (RuneError, 1)
            else
              (Z.lor (Z.lor (Z.lor (Z.shiftl (Z.land p0 mask4) 18)
                                   (Z.shiftl (Z.land b1 maskx) 12))
                            (Z.shiftl (Z.land b2 maskx) 6))
                     (Z.land b3 maskx), 4).

(** [utf8.RuneStart]: not a continuation byte. *)
Definition RuneStart (b : byte) : bool :=
  negb (Z.land (u8 b) 192 =? 128).

(** The loop [for start--; start >= lim; start-- { if RuneStart(p[start]) { break } }]
    of [DecodeLastRune]; [fuel] bounds the at most [UTFMax - 1] steps. *)
Fixpoint backToStart (fuel : nat) (p : bytes) (start lim : Z) : Z :=
  match fuel with
  | O => start
  | S fuel' =>
      if start >=? lim then
        if RuneStart (nth (Z.to_nat start) p x00) then start
        else backToStart fuel' p (start - 1) lim
      else start
  end.

(** [utf8.DecodeLastRune]: the last rune of [p] and its width. *)
Definition DecodeLastRune (p : bytes) : Z * Z :=
  let end_ := len p in
  if end_ =? 0 then (RuneError, 0)
  else
    let start := end_ - 1 in
    let r := u8 (nth (Z.to_nat start) p x00) in
    if r <? RuneSelf then (r, 1)
    else
      let lim := Z.max 0 (end_ - UTFMax) in
      let start := backToStart 4 p (start - 1) lim in
      let start := Z.max 0 start in
      let '(r, size) := DecodeRune (slice p start end_) in
      if negb (start + size =? end_) then (RuneError, 1)
      else (r, size).

End Utf8.

(** ** unicode *)

Module Unicode.

(** [unicode.IsSpace]: the Latin-1 cases are spelled out in the source, the
    others are the ranges of the [White_Space] table above Latin-1. *)
Definition IsSpace (r : Z) : bool :=
  if (0 <=? r) && (r <=? 255) then
    (r =? 9) || (r =? 10) || (r =? 11) || (r =? 12) || (r =? 13) || (r =? 32)
    || (r =? 133) || (r =? 160)
  else
    (r =? 5760)                          (* U+1680 *)
    || ((8192 <=? r) && (r <=? 8202))    (* U+2000-U+200A *)
    || ((8232 <=? r) && (r <=? 8233))    (* U+2028-U+2029 *)
    || (r =? 8239)                       (* U+202F *)
    || (r =? 8287)                       (* U+205F *)
    || (r =? 12288).                     (* U+3000 *)

End Unicode.

(** ** bytes: trimming

    The strings package has the same functions over [string]
    ([indexFunc], [lastIndexFunc], [TrimLeftFunc], [TrimRightFunc],
    [TrimFunc]); [Strings.TrimSpace] below uses the ones rendered here. *)

Module GoBytes.

(** [asciiSpace]: ['\t', '\n', '\v', '\f', '\r', ' ']. *)
Definition asciiSpace (c : byte) : bool :=
  let v := u8 c in
  (v =? 9) || (v =? 10) || (v =? 11) || (v =? 12) || (v =? 13) || (v =? 32).

(** [indexFunc(s, f, truth)]: the index of the first rune [r] with
    [f r = truth], or -1. [rest] is [s[start:]]; every round advances by a
    width of at least one, so [length s] rounds are enough. *)
Fixpoint indexFunc_from (fuel : nat) (rest : bytes) (f : Z -> bool)
    (truth : bool) (start : Z) : Z :=
  match fuel, rest with
  | S fuel', c :: _ =>
      let '(r, wid) :=
        if u8 c >=? Utf8.RuneSelf then Utf8.DecodeRune rest else (u8 c, 1) in
      if Bool.eqb (f r) truth then start
      else indexFunc_from fuel' (skipn (Z.to_nat wid) rest) f truth (start + wid)
  | _, _ => -1
  end.

Definition indexFunc (s : bytes) (f : Z -> bool) (truth : bool) : Z :=
  indexFunc_from (List.length s) s f truth 0.

(** [lastIndexFunc(s, f, truth)]: the index of the last rune [r] with
    [f r = truth], or -1; [i] runs down from [len s]. *)
Fixpoint lastIndexFunc_from (fuel : nat) (s : bytes) (f : Z -> bool)
    (truth : bool) (i : Z) : Z :=
  match fuel with
  | O => -1
  | S fuel' =>
      if i >? 0 then
        let c := u8 (nth (Z.to_nat (i - 1)) s x00) in
        let '(r, size) :=
          if c >=? Utf8.RuneSelf then Utf8.DecodeLastRune (slice s 0 i)
          else (c, 1) in
        let i := i - size in
        if Bool.eqb (f r) truth then i
        else lastIndexFunc_from fuel' s f truth i
      else -1
  end.

Definition lastIndexFunc (s : bytes) (f : Z -> bool) (truth : bool) : Z :=
  lastIndexFunc_from (List.length s) s f truth (len s).

Definition TrimLeftFunc (s : bytes) (f : Z -> bool) : bytes :=
  let i := indexFunc s f false in
  if i =? -1 then [] else slice s i (len s).

Definition TrimRightFunc (s : bytes) (f : Z -> bool) : bytes :=
  let i := lastIndexFunc s f false in
  let i :=
    if (i >=? 0) && (u8 (nth (Z.to_nat i) s x00) >=? Utf8.RuneSelf) then
      i + snd (Utf8.DecodeRune (slice s i (len s)))
    else i + 1 in
  slice s 0 i.

Definition TrimFunc (s : bytes) (f : Z -> bool) : bytes :=
  TrimRightFunc (TrimLeftFunc s f) f.

(** How one of the two ASCII loops of [TrimSpace] ends. *)
Inductive fastPath : Type :=
  | NonASCII (i : Z)   (* a byte >= RuneSelf at this index: fall back *)
  | Stopped (i : Z).   (* a non-space ASCII byte, or the end *)

(** [for ; start < len(s); start++]: [s] is what is left to look at. *)
Fixpoint scanStart (s : bytes) (start : Z) : fastPath :=
  match s with
  | [] => Stopped start
  | c :: t =>
      if u8 c >=? Utf8.RuneSelf then NonASCII start
      else if asciiSpace c then scanStart t (start + 1)
      else Stopped start
  end.

(** [for ; stop > start; stop--]: [r] is [s[start:stop]] read backwards. *)
Fixpoint scanStop (r : bytes) (stop : Z) : fastPath :=
  match r with
  | [] => Stopped stop
  | c :: t =>
      if u8 c >=? Utf8.RuneSelf then NonASCII stop
      else if asciiSpace c then scanStop t (stop - 1)
      else Stopped stop
  end.

(** [bytes.TrimSpace]. *)
Definition TrimSpace (s : bytes) : bytes :=
  match scanStart s 0 with
  | NonASCII start => TrimFunc (slice s start (len s)) Unicode.IsSpace
  | Stopped start =>
      match scanStop (rev_append (slice s start (len s)) []) (len s) with
      | NonASCII stop => TrimFunc (slice s start stop) Unicode.IsSpace
      | Stopped stop => slice s start stop
      end
  end.

End GoBytes.

(** ** strings *)

Module Strings.

(** [strings.TrimSpace]: the code of [bytes.TrimSpace], except that the
    fall-back of the second loop trims the end only ("start has been already
    trimmed above, should trim end only"). *)
Definition TrimSpace (s : bytes) : bytes :=
  match GoBytes.scanStart s 0 with
  | GoBytes.NonASCII start =>
      GoBytes.TrimFunc (slice s start (len s)) Unicode.IsSpace
  | GoBytes.Stopped start =>
      match GoBytes.scanStop (rev_append (slice s start (len s)) []) (len s)
      with
      | GoBytes.NonASCII stop =>
          GoBytes.TrimRightFunc (slice s start stop) Unicode.IsSpace
      | GoBytes.Stopped stop => slice s start stop
      end
  end.

(** [strings.HasPrefix]. *)
Fixpoint HasPrefix (s prefix : bytes) : bool :=
  match prefix, s with
  | [], _ => true
  | p :: prefix', c :: s' => Byte.eqb c p && HasPrefix s' prefix'
  | _ :: _, [] => false
  end.

(** [strings.HasSuffix]:
    [len(s) >= len(suffix) && s[len(s)-len(suffix):] == suffix]. *)
Definition HasSuffix (s suffix : bytes) : bool :=
  (len s >=? len suffix)
  && bytes_eqb (slice s (len s - len suffix) (len s)) suffix.

(** [strings.Index]: the index of the first instance of [substr] in [s],
    or -1. *)
Fixpoint Index_from (s substr : bytes) (i : Z) : Z :=
  if HasPrefix s substr then i
  else match s with
       | [] => -1
       | _ :: s' => Index_from s' substr (i + 1)
       end.

Definition Index (s substr : bytes) : Z := Index_from s substr 0.

(** [strings.Count] for a non-empty [substr]: the number of
    non-overlapping instances. *)
Fixpoint Count_fuel (fuel : nat) (s substr : bytes) : Z :=
  match fuel with
  | O => 0
  | S fuel' =>
      let i := Index s substr in
      if i =? -1 then 0
      else 1 + Count_fuel fuel' (slice s (i + len substr) (len s)) substr
  end.

Definition Count (s substr : bytes) : Z :=
  Count_fuel (List.length s) s substr.

(** The loop of [genSplit] with [sepSave = 0]: [n] counts the rounds left
    ([i < n] in the source), and the last piece is what remains. *)
Fixpoint genSplit_loop (n : nat) (s sep : bytes) : list bytes :=
  match n with
  | O => [s]
  | S n' =>
      let m := Index s sep in
      if m <? 0 then [s]
      else slice s 0 m :: genSplit_loop n' (slice s (m + len sep) (len s)) sep
  end.

(** [strings.Split(s, sep)] for a non-empty [sep], which is
    [genSplit(s, sep, 0, -1)]: [n] becomes [Count(s, sep) + 1] and the loop
    runs while [i < n - 1]. (The empty separator goes to [explode], which
    this program never reaches: its one call passes ["."].) *)
Definition Split (s sep : bytes) : list bytes :=
  genSplit_loop (Z.to_nat (Count s sep)) s sep.

End Strings.

(** ** path/filepath (Unix: the separator is ['/'], no volume names) *)

Module Filepath.

Definition IsPathSeparator (c : byte) : bool := Byte.eqb c "/"%byte.

(** [for len(path) > 0 && os.IsPathSeparator(path[len(path)-1])]: strips the
    trailing slashes; [r] is the path read backwards. *)
Fixpoint stripSeparators (r : bytes) : bytes :=
  match r with
  | c :: t => if IsPathSeparator c then stripSeparators t else r
  | [] => []
  end.

(** [for i >= 0 && !os.IsPathSeparator(path[i]) { i-- }], then
    [path[i+1:]]: the bytes after the last separator, collected from the
    reversed path. *)
Fixpoint lastElement (r : bytes) (acc : bytes) : bytes :=
  match r with
  | c :: t => if IsPathSeparator c then acc else lastElement t (c :: acc)
  | [] => acc
  end.

(** [filepath.Base]. *)
Definition Base (path : bytes) : bytes :=
  match path with
  | [] => bs "."
  | _ =>
      let path := stripSeparators (rev_append path []) in
      let path := lastElement path [] in
      match path with
      | [] => bs "/"
      | _ => path
      end
  end.

End Filepath.

(** ** extractCollectionName *)

(** [parts[len(parts)-2]], once [len(parts) >= 2] is known. *)
Definition index_from_end2 (parts : list bytes) : bytes :=
  nth (Z.to_nat (len parts - 2)) parts [].

(** src/main.go, lines 141-151. The empty string is Go's [""]. *)
Module Main.

Definition extractCollectionName (filePath : bytes) : bytes :=
  let name := Filepath.Base filePath in
  if negb (Strings.HasSuffix name (bs ".json")) then []
  else
    let parts := Strings.Split name (bs ".") in
    if len parts <? 2 then []
    else index_from_end2 parts.

End Main.

(** src/unnamed/part_000, lines 110-123: the earlier importer's copy. *)
Module Part000.

Definition extractCollectionName (filePath : bytes) : bytes :=
  let filename := Filepath.Base filePath in
  if negb (Strings.HasSuffix filename (bs ".json")) then []
  else
    let parts := Strings.Split filename (bs ".") in
    if len parts <? 2 then []
    else
      (* Use last part before ".json" as collection name *)
      index_from_end2 parts.

End Part000.

(** ** bytes.Reader *)

Module BytesReader.

(** [bytes.Reader]: the slice read from and the reading index. *)
Record Reader : Type := mkReader { s : bytes; i : Z }.

Definition NewReader (b : bytes) : Reader := mkReader b 0.

(** [Reader.Read(b)], where [room] is [len(b)]: the bytes copied into
    [b], the reader afterwards, and whether the error is [io.EOF]. *)
Definition Read (r : Reader) (room : Z) : bytes * Reader * bool :=
  if i r >=? len (s r) then ([], r, true)
  else
    let chunk := slice (s r) (i r) (Z.min (len (s r)) (i r + room)) in
    (chunk, mkReader (s r) (i r + len chunk), false).

End BytesReader.

(** ** bufio.Scanner with the split function bufio.ScanLines *)

Module Bufio.

Import BytesReader.

Definition MaxScanTokenSize : Z := 64 * 1024.
Definition startBufSize : Z := 4096.
Definition maxConsecutiveEmptyReads : Z := 100.

(** The error values a [Scanner] can hold. *)
Inductive error : Type :=
  | EOF                 (* io.EOF *)
  | ErrTooLong          (* "bufio.Scanner: token too long" *)
  | ErrNegativeAdvance
  | ErrAdvanceTooFar
  | ErrBadReadCount
  | ErrFinalToken
  | ErrNoProgress.      (* io.ErrNoProgress *)

Definition error_eqb (a b : error) : bool :=
  match a, b with
  | EOF, EOF | ErrTooLong, ErrTooLong | ErrNegativeAdvance, ErrNegativeAdvance
  | ErrAdvanceTooFar, ErrAdvanceTooFar | ErrBadReadCount, ErrBadReadCount
  | ErrFinalToken, ErrFinalToken | ErrNoProgress, ErrNoProgress => true
  | _, _ => false
  end.

(** The fields of [Scanner] this program's use of it reads; [split] is
    fixed to [ScanLines] by [NewScanner] and never changed. A [nil] token is
    [None]. *)
Record Scanner : Type := mkScanner {
  r : Reader;
  maxTokenSize : Z;
  token : option bytes;
  buf : bytes;
  start : Z;
  end_ : Z;
  err : option error;
  empties : Z;
  done : bool
}.

Definition NewScanner (rd : Reader) : Scanner :=
  mkScanner rd MaxScanTokenSize None [] 0 0 None 0 false.

Definition is_some {A : Type} (o : option A) : bool :=
  match o with Some _ => true | None => false end.

(** [dropCR]. *)
Definition dropCR (data : bytes) : bytes :=
  if (len data >? 0)
     && Byte.eqb (nth (Z.to_nat (len data - 1)) data x00) x0d
  then slice data 0 (len data - 1)
  else data.

(** [bytes.IndexByte]. *)
Fixpoint IndexByte_from (b : bytes) (c : byte) (i : Z) : Z :=
  match b with
  | [] => -1
  | x :: t => if Byte.eqb x c then i else IndexByte_from t c (i + 1)
  end.

Definition IndexByte (b : bytes) (c : byte) : Z := IndexByte_from b c 0.

(** [bufio.ScanLines]: (advance, token, err). *)
Definition ScanLines (data : bytes) (atEOF : bool)
    : Z * option bytes * option error :=
  if atEOF && (len data =? 0) then (0, None, None)
  else
    let i := IndexByte data x0a in
    if i >=? 0 then
      (* We have a full newline-terminated line. *)
      (i + 1, Some (dropCR (slice data 0 i)), None)
    else if atEOF then
      (* A final, non-terminated line. *)
      (len data, Some (dropCR data), None)
    else
      (* Request more data. *)
      (0, None, None).

(** [Scanner.setErr]. *)
Definition setErr (sc : Scanner) (e : error) : Scanner :=
  match err sc with
  | None | Some EOF =>
      mkScanner (r sc) (maxTokenSize sc) (token sc) (buf sc) (start sc)
                (end_ sc) (Some e) (empties sc) (done sc)
  | Some _ => sc
  end.

(** [Scanner.advance]. *)
Definition advance (sc : Scanner) (n : Z) : Scanner * bool :=
  if n <? 0 then (setErr sc ErrNegativeAdvance, false)
  else if n >? end_ sc - start sc then (setErr sc ErrAdvanceTooFar, false)
  else
    (mkScanner (r sc) (maxTokenSize sc) (token sc) (buf sc) (start sc + n)
               (end_ sc) (err sc) (empties sc) (done sc), true).

(** [Scanner.Err]. *)
Definition Err (sc : Scanner) : option error :=
  match err sc with
  | Some EOF => None
  | e => e
  end.

(** [Scanner.Text]: [string(s.token)]. *)
Definition Text (sc : Scanner) : bytes :=
  match token sc with Some t => t | None => [] end.

(** [copy(dst, src)] when [len src <= len dst]. *)
Definition copy_into (dst src : bytes) : bytes :=
  src ++ skipn (List.length src) dst.

(** The reading loop at the end of a round of [Scan]
    ([for loop := 0; ; { ... }]). *)
Fixpoint readLoop (fuel : nat) (sc : Scanner) (loop : Z) : Scanner :=
  let '(chunk, rd, eof) := Read (r sc) (len (buf sc) - end_ sc) in
  let n := len chunk in
  if (n <? 0) || (len (buf sc) - end_ sc <? n) then setErr sc ErrBadReadCount
  else
    let sc :=
      mkScanner rd (maxTokenSize sc) (token sc)
                (firstn (Z.to_nat (end_ sc)) (buf sc) ++ chunk
                 ++ skipn (Z.to_nat (end_ sc + n)) (buf sc))
                (start sc) (end_ sc + n) (err sc) (empties sc) (done sc) in
    if eof then setErr sc EOF
    else if n >? 0 then
      mkScanner (r sc) (maxTokenSize sc) (token sc) (buf sc) (start sc)
                (end_ sc) (err sc) 0 (done sc)
    else
      let loop := loop + 1 in
      if loop >? maxConsecutiveEmptyReads then setErr sc ErrNoProgress
      else match fuel with
           | O => setErr sc ErrNoProgress
           | S fuel' => readLoop fuel' sc loop
           end.

(** What one round of the loop of [Scan] does. *)
Inductive round : Type :=
  | Return (sc : Scanner) (ok : bool)
  | Panic
  | Continue (sc : Scanner).

(** The first half of a round: see if a token can be had from what the
    buffer holds. *)
Definition tryToken (sc : Scanner) : round :=
  if (end_ sc >? start sc) || is_some (err sc) then
    let '(adv, tok, e) :=
      ScanLines (slice (buf sc) (start sc) (end_ sc)) (is_some (err sc)) in
    match e with
    | Some e =>
        if error_eqb e ErrFinalToken then
          Return (mkScanner (r sc) (maxTokenSize sc) tok (buf sc) (start sc)
                            (end_ sc) (err sc) (empties sc) true)
                 (is_some tok)
        else Return (setErr sc e) false
    | None =>
        let '(sc, ok) := advance sc adv in
        if negb ok then Return sc false
        else
          let sc := mkScanner (r sc) (maxTokenSize sc) tok (buf sc) (start sc)
                              (end_ sc) (err sc) (empties sc) (done sc) in
          if is_some tok then
            if negb (is_some (err sc)) || (adv >? 0) then
              Return (mkScanner (r sc) (maxTokenSize sc) (token sc) (buf sc)
                                (start sc) (end_ sc) (err sc) 0 (done sc)) true
            else
              (* Returning tokens not advancing input at EOF. *)
              if empties sc + 1 >? maxConsecutiveEmptyReads then Panic
              else
                Return (mkScanner (r sc) (maxTokenSize sc) (token sc) (buf sc)
                                  (start sc) (end_ sc) (err sc)
                                  (empties sc + 1) (done sc)) true
          else Continue sc
    end
  else Continue sc.

(** The second half: no token could be made, so stop at an error or make
    room and read more. *)
Definition readMore (sc : Scanner) : round :=
  if is_some (err sc) then
    (* Shut it down. *)
    Return (mkScanner (r sc) (maxTokenSize sc) (token sc) (buf sc) 0 0
                      (err sc) (empties sc) (done sc)) false
  else
    (* First, shift data to beginning of buffer if there's lots of empty
       space or space is needed. *)
    let sc :=
      if (start sc >? 0)
         && ((end_ sc =? len (buf sc)) || (start sc >? len (buf sc) / 2))
      then
        mkScanner (r sc) (maxTokenSize sc) (token sc)
                  (copy_into (buf sc) (slice (buf sc) (start sc) (end_ sc)))
                  0 (end_ sc - start sc) (err sc) (empties sc) (done sc)
      else sc in
    (* Is the buffer full? If so, resize. *)
    if end_ sc =? len (buf sc) then
      if len (buf sc) >=? maxTokenSize sc then
        Return (setErr sc ErrTooLong) false
      else
        let newSize := len (buf sc) * 2 in
        let newSize := if newSize =? 0 then startBufSize else newSize in
        let newSize := Z.min newSize (maxTokenSize sc) in
        let newBuf :=
          copy_into (repeat x00 (Z.to_nat newSize))
                    (slice (buf sc) (start sc) (end_ sc)) in
        let sc :=
          mkScanner (r sc) (maxTokenSize sc) (token sc) newBuf
                    0 (end_ sc - start sc) (err sc) (empties sc) (done sc) in
        Continue (readLoop 101 sc 0)
    else Continue (readLoop 101 sc 0).

(** [Scanner.Scan]: the loop runs until a round returns. [None] stands
    for the panic of the source ("too many empty tokens without
    progressing") and for an exhausted [fuel]. *)
Fixpoint Scan_loop (fuel : nat) (sc : Scanner) : option (Scanner * bool) :=
  match fuel with
  | O => None
  | S fuel' =>
      match tryToken sc with
      | Return sc ok => Some (sc, ok)
      | Panic => None
      | Continue sc =>
          match readMore sc with
          | Return sc ok => Some (sc, ok)
          | Panic => None
          | Continue sc => Scan_loop fuel' sc
          end
      end
  end.

(** Every round that does not return reads at least one byte or meets the
    end of the input, so this many rounds are enough (see
    [ScannerFacts.Scan_spec] below). *)
Definition Scan_fuel (sc : Scanner) : nat :=
  S (S (Z.to_nat (len (s (r sc)) - i (r sc)))).

Definition Scan (sc : Scanner) : option (Scanner * bool) :=
  if done sc then Some (sc, false)
  else Scan_loop (Scan_fuel sc) sc.

End Bufio.

(** ** The importer of src/main.go

    The bson package and the database driver are not code of this
    repository. They are taken as they are called: the two instantiations of
    [bson.UnmarshalExtJSON(data, canonical, val)] the parser uses ([val] a
    [*[]bson.M] and a [*bson.M]), and the two collection operations of
    [*mongo.Database] the importer uses, as functions of a database state;
    whatever makes a driver call fail (the 30 second deadline of the context
    included) is an error value of that call. *)

Section Importer.

Variable M : Type.            (* bson.M, one decoded document *)
Variable DecodeError : Type.  (* the errors of bson.UnmarshalExtJSON *)

(** [bson.UnmarshalExtJSON(data, flag, &arr)] with [arr []bson.M]. *)
Variable UnmarshalExtJSON_array : bytes -> bool -> DecodeError + list M.
(** [bson.UnmarshalExtJSON(data, flag, &m)] with [m bson.M]. *)
Variable UnmarshalExtJSON_doc : bytes -> bool -> DecodeError + M.

(** The three errors [parseExtendedJSON] returns. *)
Inductive parseError : Type :=
  | FailedArray (e : DecodeError)  (* "failed to parse JSON array: %v" *)
  | FailedLine (e : DecodeError)   (* "failed to parse line as Extended JSON: %v" *)
  | ScannerError (e : Bufio.error). (* scanner.Err() *)

(** What a call returns: the records and the error, Go's
    [([]interface{}, error)]. *)
Definition parseResult : Type := (list M * option parseError)%type.

(** The array branch, lines 109-119. *)
Definition parseArray (data : bytes) : parseResult :=
  let docs := [] in
  match UnmarshalExtJSON_array data false with
  | inl e => ([], Some (FailedArray e))
  | inr arr => (fold_left (fun docs m => docs ++ [m]) arr docs, None)
  end.

(** The loop [for scanner.Scan() { ... }] and the two returns after it,
    lines 123-138. [None]: the scanner did not return (see [Bufio.Scan]) or
    [fuel] ran out. *)
Fixpoint scanLoop (fuel : nat) (scanner : Bufio.Scanner) (docs : list M)
    : option parseResult :=
  match fuel with
  | O => None
  | S fuel' =>
      match Bufio.Scan scanner with
      | None => None
      | Some (scanner, true) =>
          let line := Strings.TrimSpace (Bufio.Text scanner) in
          if len line =? 0 then scanLoop fuel' scanner docs
          else
            match UnmarshalExtJSON_doc line false with
            | inl e => Some ([], Some (FailedLine e))
            | inr m => scanLoop fuel' scanner (docs ++ [m])
            end
      | Some (scanner, false) =>
          match Bufio.Err scanner with
          | Some e => Some ([], Some (ScannerError e))
          | None => Some (docs, None)
          end
      end
  end.

(** The NDJSON branch, lines 121-138. Every successful [Scan] takes at
    least one byte of the input, so [len data + 1] rounds are enough. *)
Definition parseNDJSON (data : bytes) : option parseResult :=
  let scanner := Bufio.NewScanner (BytesReader.NewReader data) in
  scanLoop (S (List.length data)) scanner [].

(** [parseExtendedJSON], lines 100-139. *)
Definition parseExtendedJSON (data : bytes) : option parseResult :=
  let data := GoBytes.TrimSpace data in
  if len data =? 0 then Some ([], None)
  else if Byte.eqb (nth 0 data x00) "["%byte then Some (parseArray data)
  else parseNDJSON data.

(** *** processFile and main *)

Variable DB : Type.         (* the contents of the database *)
Variable DBError : Type.    (* the errors of the driver *)
Variable ReadError : Type.  (* the errors of os.ReadFile *)

(** [db.Collection(coll).DeleteMany(ctx, bson.M{})]. *)
Variable DeleteMany : DB -> bytes -> DB * option DBError.
(** [db.Collection(coll).InsertMany(ctx, docs)]. *)
Variable InsertMany : DB -> bytes -> list M -> DB * option DBError.
(** [os.ReadFile]. *)
Variable ReadFile : bytes -> ReadError + bytes.

(** What the importer does that can be seen from outside, in order: its log
    and output lines and its calls of the driver with their results. *)
Inductive event : Type :=
  | LogSkipping (filePath : bytes)
  | PrintImporting (base coll : bytes)
  | LogReadFailed (filePath : bytes) (e : ReadError)
  | LogParseFailed (filePath : bytes) (e : parseError)
  | CallDeleteMany (coll : bytes) (res : option DBError)
  | LogClearFailed (coll : bytes) (e : DBError)
  | CallInsertMany (coll : bytes) (docs : list M) (res : option DBError)
  | LogInsertFailed (coll : bytes) (e : DBError)
  | PrintInserted (n : Z) (coll : bytes)
  | PrintAllCompleted.

Record World : Type := mkWorld { db : DB; trace : list event }.

Definition emit (w : World) (evs : list event) : World :=
  mkWorld (db w) (trace w ++ evs).

(** [processFile], lines 61-97. [None] only when the parser does not
    return. *)
Definition processFile (w : World) (filePath : bytes) : option World :=
  let coll := Main.extractCollectionName filePath in
  if len coll =? 0 then Some (emit w [LogSkipping filePath])
  else
    let w := emit w [PrintImporting (Filepath.Base filePath) coll] in
    match ReadFile filePath with
    | inl e => Some (emit w [LogReadFailed filePath e])
    | inr data =>
        match parseExtendedJSON data with
        | None => None
        | Some (_, Some e) => Some (emit w [LogParseFailed filePath e])
        | Some (docs, None) =>
            match DeleteMany (db w) coll with
            | (db1, Some e) =>
                Some (mkWorld db1 (trace w ++ [CallDeleteMany coll (Some e);
                                               LogClearFailed coll e]))
            | (db1, None) =>
                let w := mkWorld db1 (trace w ++ [CallDeleteMany coll None]) in
                match InsertMany (db w) coll docs with
                | (db2, Some e) =>
                    Some (mkWorld db2
                            (trace w ++ [CallInsertMany coll docs (Some e);
                                         LogInsertFailed coll e]))
                | (db2, None) =>
                    Some (mkWorld db2
                            (trace w ++ [CallInsertMany coll docs None;
                                         PrintInserted (len docs) coll]))
                end
            end
        end
    end.

(** [for _, file := range files { processFile(db, file) }], lines 45-47. *)
Fixpoint processFiles (w : World) (files : list bytes) : option World :=
  match files with
  | [] => Some w
  | file :: files' =>
      match processFile w file with
      | None => None
      | Some w => processFiles w files'
      end
  end.

(** What [os.Stat(jsonPath)] and [filepath.Glob] told [main]. *)
Inductive target : Type :=
  | Directory (files : list bytes)  (* the matches of jsonPath/*.json *)
  | SingleFile.

(** [main] from line 40 on, once the connection is made and the path is
    known to exist. *)
Definition importAll (w : World) (jsonPath : bytes) (t : target)
    : option World :=
  let r :=
    match t with
    | Directory files => processFiles w files
    | SingleFile => processFile w jsonPath
    end in
  match r with
  | None => None
  | Some w => Some (emit w [PrintAllCompleted])
  end.

End Importer.

Arguments FailedArray {DecodeError} e.
Arguments FailedLine {DecodeError} e.
Arguments ScannerError {DecodeError} e.
Arguments parseArray {M DecodeError} UnmarshalExtJSON_array data.
Arguments scanLoop {M DecodeError} UnmarshalExtJSON_doc fuel scanner docs.
Arguments parseNDJSON {M DecodeError} UnmarshalExtJSON_doc data.
Arguments parseExtendedJSON {M DecodeError} UnmarshalExtJSON_array
  UnmarshalExtJSON_doc data.
Arguments LogSkipping {M DecodeError DBError ReadError} filePath.
Arguments PrintImporting {M DecodeError DBError ReadError} base coll.
Arguments LogReadFailed {M DecodeError DBError ReadError} filePath e.
Arguments LogParseFailed {M DecodeError DBError ReadError} filePath e.
Arguments CallDeleteMany {M DecodeError DBError ReadError} coll res.
Arguments LogClearFailed {M DecodeError DBError ReadError} coll e.
Arguments CallInsertMany {M DecodeError DBError ReadError} coll docs res.
Arguments LogInsertFailed {M DecodeError DBError ReadError} coll e.
Arguments PrintInserted {M DecodeError DBError ReadError} n coll.
Arguments PrintAllCompleted {M DecodeError DBError ReadError}.
Arguments mkWorld {M DecodeError DB DBError ReadError} db trace.
Arguments db {M DecodeError DB DBError ReadError} w.
Arguments trace {M DecodeError DB DBError ReadError} w.
Arguments emit {M DecodeError DB DBError ReadError} w evs.
Arguments processFile {M DecodeError} UnmarshalExtJSON_array
  UnmarshalExtJSON_doc {DB DBError ReadError} DeleteMany InsertMany ReadFile
  w filePath.
Arguments processFiles {M DecodeError} UnmarshalExtJSON_array
  UnmarshalExtJSON_doc {DB DBError ReadError} DeleteMany InsertMany ReadFile
  w files.
Arguments importAll {M DecodeError} UnmarshalExtJSON_array
  UnmarshalExtJSON_doc {DB DBError ReadError} DeleteMany InsertMany ReadFile
  w jsonPath t.

(** ** main and loadEnv of src/main.go

    What [main] finds around it is taken as it is called: [godotenv.Load],
    [os.Getenv], [mongo.Connect] and [client.Database], [os.Stat] with
    [IsDir], [filepath.Join] and [filepath.Glob]. [log.Fatal] and
    [log.Fatalf] end the program with status 1 at once: what [main] has
    deferred does not run. *)

Section Program.

Variable M : Type.
Variable DecodeError : Type.
Variable UnmarshalExtJSON_array : bytes -> bool -> DecodeError + list M.
Variable UnmarshalExtJSON_doc : bytes -> bool -> DecodeError + M.
Variable DB : Type.
Variable DBError : Type.
Variable ReadError : Type.
Variable DeleteMany : DB -> bytes -> DB * option DBError.
Variable InsertMany : DB -> bytes -> list M -> DB * option DBError.
Variable ReadFile : bytes -> ReadError + bytes.

Variable LoadError : Type.     (* the errors of godotenv.Load *)
Variable ConnectError : Type.  (* the errors of mongo.Connect *)
Variable StatError : Type.     (* the errors of os.Stat *)
Variable GlobError : Type.     (* the errors of filepath.Glob *)
Variable Client : Type.        (* *mongo.Client *)

(** [godotenv.Load()]. *)
Variable godotenv_Load : option LoadError.
(** [os.Getenv]. *)
Variable Getenv : bytes -> bytes.
(** [mongo.Connect(context.TODO(), options.Client().ApplyURI(uri))]. *)
Variable Connect : bytes -> ConnectError + Client.
(** [client.Database(name)]: the contents of that database. *)
Variable Database : Client -> bytes -> DB.
(** [os.Stat(path)], then [fi.IsDir()]. *)
Variable Stat : bytes -> StatError + bool.
(** [filepath.Join(dir, pattern)]. *)
Variable Join : bytes -> bytes -> bytes.
(** [filepath.Glob]. *)
Variable Glob : bytes -> GlobError + list bytes.

(** The four fatal log lines. *)
Inductive fatal : Type :=
  | ErrorLoadingEnv                        (* "Error loading .env file" *)
  | MongoConnectError (e : ConnectError)   (* "Mongo connect error: %v" *)
  | InvalidJSONPath (e : StatError)        (* "Invalid JSON_PATH: %v" *)
  | ErrorReadingDirectory (e : GlobError). (* "Error reading directory: %v" *)

(** How the program ends: [log.Fatal] (status 1, [client.Disconnect] not
    run when it was deferred), or [main] returns (the deferred
    [client.Disconnect] runs, status 0) in the world the import left. *)
Inductive ending : Type :=
  | Exited (f : fatal)
  | Returned (w : World M DecodeError DB DBError ReadError).

Definition exitStatus (e : ending) : Z :=
  match e with Exited _ => 1 | Returned _ => 0 end.

(** [loadEnv], lines 55-59: [Some] when it ends the program. *)
Definition loadEnv : option fatal :=
  match godotenv_Load with
  | Some _ => Some ErrorLoadingEnv
  | None => None
  end.

(** [main], lines 20-53. [None] only when the parser does not return. *)
Definition main : option ending :=
  match loadEnv with
  | Some f => Some (Exited f)
  | None =>
      let mongoURI := Getenv (bs "MONGO_URI") in
      let dbName := Getenv (bs "MONGO_DB") in
      let jsonPath := Getenv (bs "JSON_PATH") in
      match Connect mongoURI with
      | inl err => Some (Exited (MongoConnectError err))
      | inr client =>
          let w := mkWorld (Database client dbName) [] in
          match Stat jsonPath with
          | inl err => Some (Exited (InvalidJSONPath err))
          | inr isDir =>
              let run :=
                importAll UnmarshalExtJSON_array UnmarshalExtJSON_doc
                          DeleteMany InsertMany ReadFile w jsonPath in
              if isDir then
                match Glob (Join jsonPath (bs "*.json")) with
                | inl err => Some (Exited (ErrorReadingDirectory err))
                | inr files =>
                    match run (Directory files) with
                    | None => None
                    | Some w => Some (Returned w)
                    end
                end
              else
                match run SingleFile with
                | None => None
                | Some w => Some (Returned w)
                end
          end
      end
  end.

End Program.

Arguments ErrorLoadingEnv {ConnectError StatError GlobError}.
Arguments MongoConnectError {ConnectError StatError GlobError} e.
Arguments InvalidJSONPath {ConnectError StatError GlobError} e.
Arguments ErrorReadingDirectory {ConnectError StatError GlobError} e.
Arguments Exited {M DecodeError DB DBError ReadError ConnectError StatError
  GlobError} f.
Arguments Returned {M DecodeError DB DBError ReadError ConnectError StatError
  GlobError} w.
Arguments exitStatus {M DecodeError DB DBError ReadError ConnectError
  StatError GlobError} e.
Arguments loadEnv {LoadError ConnectError StatError GlobError} godotenv_Load.
Arguments main {M DecodeError} UnmarshalExtJSON_array UnmarshalExtJSON_doc
  {DB DBError ReadError} DeleteMany InsertMany ReadFile
  {LoadError ConnectError StatError GlobError Client} godotenv_Load Getenv
  Connect Database Stat Join Glob.

(** ** The importer of src/unnamed/part_000

    The earlier importer decodes a file with [json.Unmarshal] into an
    [interface{}] and looks at the type of what it got. [encoding/json] is
    taken as it is called; what it stores in an [interface{}] is a [nil], a
    [bool], a [float64], a [string], a [[]interface{}] or a
    [map[string]interface{}] (its entries listed here). *)

Module Part000Importer.

Section Importer.

Variable float64 : Type.

#[local] Unset Elimination Schemes.
Inductive value : Type :=
  | Nil
  | Bool (b : bool)
  | Float64 (f : float64)
  | String (s : bytes)
  | Slice (v : list value)            (* []interface{} *)
  | Map (m : list (bytes * value)).   (* map[string]interface{} *)
#[local] Set Elimination Schemes.

Variable JSONError : Type.  (* the errors of json.Unmarshal *)
Variable DB : Type.         (* the contents of the database *)
Variable DBError : Type.    (* the errors of the driver *)
Variable ReadError : Type.  (* the errors of os.ReadFile *)

(** [json.Unmarshal(data, &raw)] with [raw interface{}]. *)
Variable Unmarshal : bytes -> JSONError + value.
(** [db.Collection(coll).DeleteMany(ctx, bson.M{})]. *)
Variable DeleteMany : DB -> bytes -> DB * option DBError.
(** [db.Collection(coll).InsertMany(ctx, docs)]. *)
Variable InsertMany : DB -> bytes -> list value -> DB * option DBError.
(** [os.ReadFile]. *)
Variable ReadFile : bytes -> ReadError + bytes.

(** The log and output lines of this importer and its calls of the driver
    with their results. The line for a JSON parse error does not print the
    error. *)
Inductive event : Type :=
  | LogSkipping (filePath : bytes)
  | PrintImporting (base coll : bytes)
  | LogReadFailed (filePath : bytes) (e : ReadError)
  | LogJSONParseError (filePath : bytes)
  | LogUnknownStructure (filePath : bytes)
  | CallDeleteMany (coll : bytes) (res : option DBError)
  | LogClearFailed (coll : bytes) (e : DBError)
  | CallInsertMany (coll : bytes) (docs : list value) (res : option DBError)
  | LogInsertFailed (coll : bytes) (e : DBError)
  | PrintInserted (n : Z) (coll : bytes)
  | PrintAllCompleted.

Record World : Type := mkWorld { db : DB; trace : list event }.

Definition emit (w : World) (evs : list event) : World :=
  mkWorld (db w) (trace w ++ evs).

(** The type switch of lines 82-91: the documents to insert, or [None] in
    the [default] case. *)
Definition docsOf (raw : value) : option (list value) :=
  let docs := [] in
  match raw with
  | Slice v => Some v
  | Map m => Some (docs ++ [Map m])
  | _ => None
  end.

(** [processFile], lines 61-108. *)
Definition processFile (w : World) (filePath : bytes) : World :=
  let collectionName := Part000.extractCollectionName filePath in
  if len collectionName =? 0 then emit w [LogSkipping filePath]
  else
    let w := emit w [PrintImporting (Filepath.Base filePath) collectionName] in
    match ReadFile filePath with
    | inl e => emit w [LogReadFailed filePath e]
    | inr data =>
        match Unmarshal data with
        | inl _ => emit w [LogJSONParseError filePath]
        | inr raw =>
            match docsOf raw with
            | None => emit w [LogUnknownStructure filePath]
            | Some docs =>
                match DeleteMany (db w) collectionName with
                | (db1, Some e) =>
                    mkWorld db1
                      (trace w ++ [CallDeleteMany collectionName (Some e);
                                   LogClearFailed collectionName e])
                | (db1, None) =>
                    let w :=
                      mkWorld db1
                        (trace w ++ [CallDeleteMany collectionName None]) in
                    match InsertMany (db w) collectionName docs with
                    | (db2, Some e) =>
                        mkWorld db2
                          (trace w
                           ++ [CallInsertMany collectionName docs (Some e);
                               LogInsertFailed collectionName e])
                    | (db2, None) =>
                        mkWorld db2
                          (trace w
                           ++ [CallInsertMany collectionName docs None;
                               PrintInserted (len docs) collectionName])
                    end
                end
            end
        end
    end.

(** [for _, file := range files { processFile(db, file) }], lines 45-47. *)
Fixpoint processFiles (w : World) (files : list bytes) : World :=
  match files with
  | [] => w
  | file :: files' => processFiles (processFile w file) files'
  end.

End Importer.

Arguments Nil {float64}.
Arguments Bool {float64} b.
Arguments Float64 {float64} f.
Arguments String {float64} s.
Arguments Slice {float64} v.
Arguments Map {float64} m.
Arguments docsOf {float64} raw.
Arguments LogSkipping {float64 DBError ReadError} filePath.
Arguments PrintImporting {float64 DBError ReadError} base coll.
Arguments LogReadFailed {float64 DBError ReadError} filePath e.
Arguments LogJSONParseError {float64 DBError ReadError} filePath.
Arguments LogUnknownStructure {float64 DBError ReadError} filePath.
Arguments CallDeleteMany {float64 DBError ReadError} coll res.
Arguments LogClearFailed {float64 DBError ReadError} coll e.
Arguments CallInsertMany {float64 DBError ReadError} coll docs res.
Arguments LogInsertFailed {float64 DBError ReadError} coll e.
Arguments PrintInserted {float64 DBError ReadError} n coll.
Arguments PrintAllCompleted {float64 DBError ReadError}.
Arguments mkWorld {float64 DB DBError ReadError} db trace.
Arguments db {float64 DB DBError ReadError} w.
Arguments trace {float64 DB DBError ReadError} w.
Arguments emit {float64 DB DBError ReadError} w evs.
Arguments processFile {float64 JSONError DB DBError ReadError} Unmarshal
  DeleteMany InsertMany ReadFile w filePath.
Arguments processFiles {float64 JSONError DB DBError ReadError} Unmarshal
  DeleteMany InsertMany ReadFile w files.

(** The events that are calls of the database driver. *)
Definition isDriverCall {float64 DBError ReadError : Type}
    (ev : event float64 DBError ReadError) : bool :=
  match ev with
  | CallDeleteMany _ _ | CallInsertMany _ _ _ => true
  | _ => false
  end.

End Part000Importer.

(** * Vocabulary of the statements *)

(** The pieces of [s] between the occurrences of the byte [c]. *)
Fixpoint fields (c : byte) (s : bytes) : list bytes :=
  match s with
  | [] => [[]]
  | x :: t =>
      if Byte.eqb x c then [] :: fields c t
      else match fields c t with
           | f :: fs => (x :: f) :: fs
           | [] => [[x]]
           end
  end.

(** What a scanner holds and has not yet handed out: the bytes of the
    buffer between [start] and [end], and the bytes its reader has not
    delivered. *)
Definition window (sc : Bufio.Scanner) : bytes :=
  slice (Bufio.buf sc) (Bufio.start sc) (Bufio.end_ sc).

Definition unread (sc : Bufio.Scanner) : bytes :=
  skipn (Z.to_nat (BytesReader.i (Bufio.r sc))) (BytesReader.s (Bufio.r sc)).

Definition pending (sc : Bufio.Scanner) : bytes := window sc ++ unread sc.

(** The first line of [R] (up to, not including, the first ['\n']) and
    what follows that newline, if there is one. *)
Fixpoint cut (R : bytes) : bytes * option bytes :=
  match R with
  | [] => ([], None)
  | x :: t =>
      if Byte.eqb x x0a then ([], Some t)
      else let '(l, rest) := cut t in (x :: l, rest)
  end.

(** The state of a scanner between two calls of [Scan] in this program. *)
Record ScannerInv (sc : Bufio.Scanner) : Prop := mkScannerInv {
  inv_start : 0 <= Bufio.start sc <= Bufio.end_ sc;
  inv_end : Bufio.end_ sc <= len (Bufio.buf sc);
  inv_cap : len (Bufio.buf sc) <= Bufio.maxTokenSize sc;
  inv_max : Bufio.maxTokenSize sc = Bufio.MaxScanTokenSize;
  inv_reader : 0 <= BytesReader.i (Bufio.r sc)
               <= len (BytesReader.s (Bufio.r sc));
  inv_done : Bufio.done sc = false;
  inv_err : Bufio.err sc = None
            \/ (Bufio.err sc = Some Bufio.EOF
                /\ BytesReader.i (Bufio.r sc) = len (BytesReader.s (Bufio.r sc))
                /\ Bufio.end_ sc < len (Bufio.buf sc))
}.

(** What a call of [Scan] must do, read off the input the scanner still
    holds: nothing left, a first line that fits, or a first line that does
    not fit the buffer. *)
Inductive ScanSpec (sc : Bufio.Scanner) : option (Bufio.Scanner * bool) -> Prop :=
  | ScanEnd (sc' : Bufio.Scanner) :
      pending sc = [] ->
      Bufio.Err sc' = None ->
      ScanSpec sc (Some (sc', false))
  | ScanLine (sc' : Bufio.Scanner) (line : bytes) (rest : option bytes) :
      pending sc <> [] ->
      cut (pending sc) = (line, rest) ->
      len line < Bufio.MaxScanTokenSize ->
      Bufio.Text sc' = Bufio.dropCR line ->
      ScannerInv sc' ->
      pending sc' = match rest with Some t => t | None => [] end ->
      ScanSpec sc (Some (sc', true))
  | ScanTooLong (sc' : Bufio.Scanner) (line : bytes) (rest : option bytes) :
      cut (pending sc) = (line, rest) ->
      Bufio.MaxScanTokenSize <= len line ->
      Bufio.Err sc' = Some Bufio.ErrTooLong ->
      ScanSpec sc (Some (sc', false)).

(** The rounds a call of [Scan] may need. *)
Definition rounds (sc : Bufio.Scanner) : Z :=
  match Bufio.err sc with
  | None => len (unread sc) + 2
  | Some _ => 1
  end.

(** The lines of a text as [bufio.ScanLines] cuts it: each ends at a
    ['\n'] or at the end of the text, and the text after the last ['\n']
    is a line only when it is not empty. *)
Fixpoint splitLines (R : bytes) : list bytes :=
  match R with
  | [] => []
  | x :: t =>
      if Byte.eqb x x0a then [] :: splitLines t
      else match splitLines t with
           | [] => [[x]]
           | l :: ls => (x :: l) :: ls
           end
  end.

(** What the loop of the NDJSON branch does with one line of the text: the
    string handed to the decoder, [strings.TrimSpace(scanner.Text())]. *)
Definition lineText (line : bytes) : bytes :=
  Strings.TrimSpace (Bufio.dropCR line).

Section LineByLine.

Variable M : Type.
Variable DecodeError : Type.
Variable UnmarshalExtJSON_doc : bytes -> bool -> DecodeError + M.

(** The NDJSON branch read off the lines of the text, without a scanner:
    a line of [MaxScanTokenSize] bytes or more stops everything, a blank
    line is skipped, any other line is decoded. *)
Fixpoint decodeLines (ls : list bytes) (docs : list M)
    : parseResult M DecodeError :=
  match ls with
  | [] => (docs, None)
  | line :: ls' =>
      if Bufio.MaxScanTokenSize <=? len line then
        ([], Some (ScannerError Bufio.ErrTooLong))
      else if len (lineText line) =? 0 then decodeLines ls' docs
      else
        match UnmarshalExtJSON_doc (lineText line) false with
        | inl e => ([], Some (FailedLine e))
        | inr m => decodeLines ls' (docs ++ [m])
        end
  end.

End LineByLine.

Arguments decodeLines {M DecodeError} UnmarshalExtJSON_doc ls docs.

(** All the runes of a text, as [utf8.DecodeRune] reads them one after the
    other, are white space for [unicode.IsSpace]. *)
Inductive AllSpace : bytes -> Prop :=
  | AllSpace_nil : AllSpace []
  | AllSpace_rune (data : bytes) (r n : Z) :
      data <> [] ->
      Utf8.DecodeRune data = (r, n) ->
      Unicode.IsSpace r = true ->
      AllSpace (skipn (Z.to_nat n) data) ->
      AllSpace data.

(** ** White space, rune by rune *)

Module WhiteSpace.

Import Utf8 Unicode.

(** The decoding of [DecodeRune] read along the structure of the bytes. *)
Definition outside (b : byte) (range : Z * Z) : bool :=
  (u8 b <? fst range) || (snd range <? u8 b).

Definition rune2 (p0 b1 : byte) : Z :=
  Z.lor (Z.shiftl (Z.land (u8 p0) mask2) 6) (Z.land (u8 b1) maskx).
Definition rune3 (p0 b1 b2 : byte) : Z :=
  Z.lor (Z.lor (Z.shiftl (Z.land (u8 p0) mask3) 12)
               (Z.shiftl (Z.land (u8 b1) maskx) 6))
        (Z.land (u8 b2) maskx).
Definition rune4 (p0 b1 b2 b3 : byte) : Z :=
  Z.lor (Z.lor (Z.lor (Z.shiftl (Z.land (u8 p0) mask4) 18)
                      (Z.shiftl (Z.land (u8 b1) maskx) 12))
               (Z.shiftl (Z.land (u8 b2) maskx) 6))
        (Z.land (u8 b3) maskx).

Definition decodeBytes (p : bytes) : Z * Z :=
  match p with
  | [] => (RuneError, 0)
  | p0 :: t0 =>
      let x := first (u8 p0) in
      if x >=? as_ then ((if Z.testbit x 0 then RuneError else u8 p0), 1)
      else
        let sz := Z.land x 7 in
        let accept := acceptRanges (Z.shiftr x 4) in
        match t0 with
        | [] => (RuneError, 1)
        | b1 :: t1 =>
            if sz <=? 2 then
              if outside b1 accept then (RuneError, 1) else (rune2 p0 b1, 2)
            else
              match t1 with
              | [] => (RuneError, 1)
              | b2 :: t2 =>
                  if sz <=? 3 then
                    if outside b1 accept then (RuneError, 1)
                    else if outside b2 (locb, hicb) then (RuneError, 1)
                    else (rune3 p0 b1 b2, 3)
                  else
                    match t2 with
                    | [] => (RuneError, 1)
                    | b3 :: _ =>
                        if outside b1 accept then (RuneError, 1)
                        else if outside b2 (locb, hicb) then (RuneError, 1)
                        else if outside b3 (locb, hicb) then (RuneError, 1)
                        else (rune4 p0 b1 b2 b3, 4)
                    end
              end
        end
  end.

(** One white-space rune, whole: the text decodes to a white-space rune
    that takes all of it. *)
Definition SpaceRune (q : bytes) : Prop :=
  q <> [] /\ snd (DecodeRune q) = len q /\ IsSpace (fst (DecodeRune q)) = true.

(** White-space runes one after the other, counted from the left and from
    the right. *)
Inductive SpaceRunes : bytes -> Prop :=
  | SpaceRunes_nil : SpaceRunes []
  | SpaceRunes_cons (q X : bytes) :
      SpaceRune q -> SpaceRunes X -> SpaceRunes (q ++ X).

Inductive SpaceRunesRev : bytes -> Prop :=
  | SpaceRunesRev_nil : SpaceRunesRev []
  | SpaceRunesRev_snoc (X q : bytes) :
      SpaceRunesRev X -> SpaceRune q -> SpaceRunesRev (X ++ q).

End WhiteSpace.

(** ** Concrete stand-ins, for running the statements on inputs *)

Module Sample.

(** A decoder that takes a text starting with ['{'] as a document (kept as
    its text) and rejects any other. *)
Definition doc (text : bytes) (flag : bool) : unit + bytes :=
  if Strings.HasPrefix text (bs "{") then inr text else inl tt.

(** An array decoder that rejects everything. *)
Definition array (text : bytes) (flag : bool) : unit + list bytes := inl tt.

(** A database in memory: the documents of each collection. *)
Definition DB : Type := list (bytes * list bytes).

Definition DeleteMany (d : DB) (coll : bytes) : DB * option unit :=
  (filter (fun e => negb (bytes_eqb (fst e) coll)) d, None).

(** The driver refuses an empty slice of documents. *)
Definition InsertMany (d : DB) (coll : bytes) (docs : list bytes)
    : DB * option unit :=
  match docs with
  | [] => (d, Some tt)
  | _ => ((coll, docs) :: d, None)
  end.

(** [s] between double quotes. *)
Definition quoted (s : string) : bytes := x22 :: bs s ++ [x22].

(** The two records of the specification's NDJSON example, and the example
    with a blank line in between. *)
Definition recA : bytes := bs "{" ++ quoted "a" ++ bs ":1}".
Definition recB : bytes := bs "{" ++ quoted "b" ++ bs ":2}".
Definition twoLines : bytes := recA ++ [x0a] ++ recB ++ [x0a].
Definition twoLinesBlank : bytes :=
  recA ++ [x0a] ++ bs "  " ++ [x0d; x0a] ++ recB ++ [x0a].

(** Three lines, the second of which is no document. *)
Definition badLines : bytes := recA ++ [x0a] ++ bs "oops" ++ [x0a] ++ recB.

(** A blank line, a record and a last line that is no document, with
    white space after it. *)
Definition badLastLine : bytes :=
  [x0d; x0a] ++ recA ++ [x0a] ++ bs "oops" ++ [" "%byte; x09].

(** A file system with three files. *)
Definition ReadFile (path : bytes) : unit + bytes :=
  if bytes_eqb path (bs "data/events.json") then inr twoLines
  else if bytes_eqb path (bs "data/bad.orders.json") then inr badLines
  else if bytes_eqb path (bs "data/empty.json") then inr (bs "  ")
  else inl tt.

(** A database where [orders] holds one document. *)
Definition db0 : DB := [(bs "orders", [bs "{old}"])].

(** One line of 65538 bytes: an object with 65536 spaces inside. *)
Definition longLine : bytes :=
  bs "{" ++ repeat " "%byte (Z.to_nat 65536) ++ bs "}".

(** One line of 65539 bytes: 65537 spaces, then an empty object. *)
Definition paddedLine : bytes := repeat " "%byte (Z.to_nat 65537) ++ bs "{}".

(** White space only, ASCII and not: space, tab, CR, LF, U+00A0, U+2028,
    U+3000. *)
Definition blanks : bytes :=
  [" "%byte; x09; x0d; x0a; xc2; xa0; xe2; x80; xa8; xe3; x80; x80].

End Sample.

(** A second line decoder: as [Sample.doc] with the flag [false] on a text
    that is not empty, and different from it everywhere else. *)
Definition otherDoc (text : bytes) (flag : bool) : unit + bytes :=
  if flag then inl tt
  else match text with
       | [] => inr []
       | _ => Sample.doc text false
       end.

(** Stand-ins for the importer of src/unnamed/part_000. *)
Module Sample000.

Import Part000Importer.

(** A decoder that knows three texts: an array of two numbers, an empty
    object and a number. *)
Definition Unmarshal (data : bytes) : unit + value Z :=
  if bytes_eqb data (bs "[1,2]") then inr (Slice [Float64 1; Float64 2])
  else if bytes_eqb data (bs "{}") then inr (Map [])
  else if bytes_eqb data (bs "7") then inr (Float64 7)
  else inl tt.

Definition DB : Type := list (bytes * list (value Z)).

Definition DeleteMany (d : DB) (coll : bytes) : DB * option unit :=
  (filter (fun e => negb (bytes_eqb (fst e) coll)) d, None).

Definition InsertMany (d : DB) (coll : bytes) (docs : list (value Z))
    : DB * option unit :=
  match docs with
  | [] => (d, Some tt)
  | _ => ((coll, docs) :: d, None)
  end.

Definition ReadFile (path : bytes) : unit + bytes :=
  if bytes_eqb path (bs "data/pairs.json") then inr (bs "[1,2]")
  else if bytes_eqb path (bs "data/one.json") then inr (bs "{}")
  else if bytes_eqb path (bs "data/seven.json") then inr (bs "7")
  else inl tt.

(** A database where [seven] holds one document. *)
Definition db0 : DB := [(bs "seven", [String (bs "old")])].

End Sample000.

(** A line the NDJSON loop skips. *)
Definition blankLine (line : bytes) : bool := len (lineText line) =? 0.

(** The texts handed to the decoder for the lines [ls], in order. *)
Definition decodedTexts (ls : list bytes) : list bytes :=
  map lineText (filter (fun l => negb (blankLine l)) ls).

(** The events that are calls of the database driver. *)
Definition isDriverCall {M DecodeError DBError ReadError : Type}
    (ev : event M DecodeError DBError ReadError) : bool :=
  match ev with
  | CallDeleteMany _ _ | CallInsertMany _ _ _ => true
  | _ => false
  end.

Section TextByText.

Variable M : Type.
Variable DecodeError : Type.
Variable UnmarshalExtJSON_doc : bytes -> bool -> DecodeError + M.

(** The decoder run over texts one after the other and stopped by its
    first error. *)
Fixpoint decodeTexts (texts : list bytes) (docs : list M)
    : parseResult M DecodeError :=
  match texts with
  | [] => (docs, None)
  | text :: texts' =>
      match UnmarshalExtJSON_doc text false with
      | inl e => ([], Some (FailedLine e))
      | inr m => decodeTexts texts' (docs ++ [m])
      end
  end.

End TextByText.

Arguments decodeTexts {M DecodeError} UnmarshalExtJSON_doc texts docs.

(** A line that fits the scanner's buffer. *)
Definition fits (line : bytes) : Prop := len line < Bufio.MaxScanTokenSize.

(** The first line of [ls] with [k] more bytes fits, and so do the other
    lines. *)
Definition fitFrom (k : Z) (ls : list bytes) : Prop :=
  match ls with
  | [] => True
  | l :: ls' => len l + k < Bufio.MaxScanTokenSize /\ Forall fits ls'
  end.

Section DriverCalls.

Variable Event : Type.
Variable Doc : Type.
Variable DBError : Type.
Variable deleteMany : bytes -> option DBError -> Event.
Variable insertMany : bytes -> list Doc -> option DBError -> Event.
Variable collectionOf : bytes -> bytes.

(** The driver calls one file can give, on the collection [coll]: none; a
    delete-all that fails; or a delete-all that succeeds and then an
    insert. A call is only made on a name that is not empty. *)
Inductive fileCalls (coll : bytes) : list Event -> Prop :=
  | NoCall : fileCalls coll []
  | DeleteOnly (e : DBError) :
      coll <> [] -> fileCalls coll [deleteMany coll (Some e)]
  | DeleteInsert (docs : list Doc) (res : option DBError) :
      coll <> [] ->
      fileCalls coll [deleteMany coll None; insertMany coll docs res].

(** The driver calls of a run over [files]: those of each file, on the
    collection of its name, in the order of the files. *)
Inductive runCalls : list bytes -> list Event -> Prop :=
  | runCalls_nil : runCalls [] []
  | runCalls_file (file : bytes) (files : list bytes)
        (calls rest : list Event) :
      fileCalls (collectionOf file) calls ->
      runCalls files rest ->
      runCalls (file :: files) (calls ++ rest).

End DriverCalls.

Arguments fileCalls {Event Doc DBError} deleteMany insertMany coll _.
Arguments runCalls {Event Doc DBError} deleteMany insertMany collectionOf _ _.

(** * Properties *)

(** ** Lists and slices *)

Lemma len_nil {A : Type} : len (@nil A) = 0.
Proof. reflexivity. Qed.

Lemma len_cons {A : Type} (x : A) (l : list A) : len (x :: l) = len l + 1.
Proof. unfold len. cbn [List.length]. lia. Qed.

Lemma len_app {A : Type} (l1 l2 : list A) : len (l1 ++ l2) = len l1 + len l2.
Proof. unfold len. rewrite length_app. lia. Qed.

Lemma len_nonneg {A : Type} (l : list A) : 0 <= len l.
Proof. unfold len. lia. Qed.

Lemma len_zero_nil {A : Type} (l : list A) : len l = 0 -> l = [].
Proof. destruct l; [reflexivity|]. rewrite len_cons. pose proof (len_nonneg l). lia. Qed.

Lemma slice_all {A : Type} (l : list A) : slice l 0 (len l) = l.
Proof.
  unfold slice, len. cbn [Z.to_nat skipn].
  rewrite Z.sub_0_r, Nat2Z.id. apply firstn_all.
Qed.

Lemma slice_app_left {A : Type} (l1 l2 : list A) :
  slice (l1 ++ l2) 0 (len l1) = l1.
Proof.
  unfold slice, len. cbn [Z.to_nat skipn].
  rewrite Z.sub_0_r, Nat2Z.id, firstn_app, firstn_all, Nat.sub_diag.
  cbn [firstn]. apply app_nil_r.
Qed.

Lemma slice_app_right {A : Type} (l1 l2 : list A) :
  slice (l1 ++ l2) (len l1) (len (l1 ++ l2)) = l2.
Proof.
  unfold slice. rewrite len_app.
  replace (len l1 + len l2 - len l1) with (len l2) by lia.
  unfold len. rewrite !Nat2Z.id, skipn_app, skipn_all, Nat.sub_diag.
  cbn [skipn app]. apply firstn_all.
Qed.

Lemma byte_eqb_refl (c : byte) : Byte.eqb c c = true.
Proof. apply Byte.byte_dec_lb. reflexivity. Qed.

Lemma byte_eqb_neq (a b : byte) : a <> b -> Byte.eqb a b = false.
Proof.
  intros Hn. destruct (Byte.eqb a b) eqn:E; [|reflexivity].
  apply Byte.byte_dec_bl in E. contradiction.
Qed.

Lemma bytes_eqb_true (a b : bytes) : bytes_eqb a b = true <-> a = b.
Proof.
  unfold bytes_eqb. destruct (list_eq_dec Byte.byte_eq_dec a b); split;
    intros; congruence.
Qed.

(** ** strings.HasSuffix and strings.Split *)

Module StringsFacts.

Import Strings.

(** [HasSuffix] is what its name says. *)
Lemma HasSuffix_iff (s suffix : bytes) :
  HasSuffix s suffix = true <-> exists p, s = p ++ suffix.
Proof.
  unfold HasSuffix. rewrite andb_true_iff, bytes_eqb_true. split.
  - intros [Hlen Heq]. apply Z.geb_le in Hlen.
    exists (firstn (List.length s - List.length suffix) s).
    unfold slice in Heq.
    replace (Z.to_nat (len s - len suffix))
      with (List.length s - List.length suffix)%nat in Heq
      by (unfold len in *; lia).
    rewrite firstn_all2 in Heq by (rewrite length_skipn; unfold len in *; lia).
    rewrite <- Heq at 2. symmetry. apply firstn_skipn.
  - intros [p ->]. split.
    + apply Z.geb_le. rewrite len_app. pose proof (len_nonneg p). lia.
    + replace (len (p ++ suffix) - len suffix) with (len p)
        by (rewrite len_app; lia).
      apply slice_app_right.
Qed.

Lemma fields_not_nil (c : byte) (s : bytes) : fields c s <> [].
Proof.
  induction s as [|x t IH]; cbn; [discriminate|].
  destruct (Byte.eqb x c); [discriminate|].
  destruct (fields c t); discriminate.
Qed.

Lemma fields_no_sep (c : byte) (s : bytes) : ~ In c s -> fields c s = [s].
Proof.
  induction s as [|x t IH]; cbn; intros Hn; [reflexivity|].
  rewrite byte_eqb_neq by (intros ->; apply Hn; now left).
  rewrite IH by (intros H; apply Hn; now right). reflexivity.
Qed.

Lemma fields_app (c : byte) (a b : bytes) :
  fields c (a ++ c :: b) = fields c a ++ fields c b.
Proof.
  induction a as [|x t IH]; cbn [app fields].
  - rewrite byte_eqb_refl. reflexivity.
  - destruct (Byte.eqb x c); [rewrite IH; reflexivity|].
    rewrite IH. pose proof (fields_not_nil c t) as Hne.
    destruct (fields c t); [contradiction|reflexivity].
Qed.

Lemma HasPrefix_single (s : bytes) (c : byte) :
  HasPrefix s [c] = match s with x :: _ => Byte.eqb x c | [] => false end.
Proof. destruct s as [|x [|y t]]; cbn; try reflexivity; apply andb_true_r. Qed.

Lemma Index_from_absent (c : byte) (a : bytes) (i : Z) :
  ~ In c a -> Index_from a [c] i = -1.
Proof.
  revert i. induction a as [|x t IH]; intros i Hn; [reflexivity|].
  cbn [Index_from]. rewrite HasPrefix_single.
  rewrite byte_eqb_neq by (intros ->; apply Hn; now left).
  apply IH. intros H; apply Hn; now right.
Qed.

Lemma Index_from_first (c : byte) (a b : bytes) (i : Z) :
  ~ In c a -> Index_from (a ++ c :: b) [c] i = i + len a.
Proof.
  revert i. induction a as [|x t IH]; intros i Hn.
  - cbn [app Index_from]. rewrite HasPrefix_single, byte_eqb_refl.
    rewrite len_nil. lia.
  - cbn [app]. cbn [Index_from]. rewrite HasPrefix_single.
    rewrite byte_eqb_neq by (intros ->; apply Hn; now left).
    rewrite IH by (intros H; apply Hn; now right).
    rewrite len_cons. lia.
Qed.

(** A first field [a] without [c], then [c], then the rest. *)
Lemma fields_cons_inv (c : byte) (s : bytes) {f : bytes} {fs : list bytes} :
  fields c s = f :: fs ->
  ~ In c f /\ (fs = [] /\ s = f \/ exists t, s = f ++ c :: t /\ fields c t = fs).
Proof.
  revert f fs. induction s as [|x t IH]; cbn [fields]; intros f fs H.
  - injection H as <- <-. split; [intros []|]. left. split; reflexivity.
  - destruct (Byte.eqb x c) eqn:E.
    + apply Byte.byte_dec_bl in E. subst x. injection H as <- <-.
      split; [intros []|]. right. exists t. split; reflexivity.
    + apply Byte.eqb_false in E.
      destruct (fields c t) as [|g gs] eqn:Eg.
      * exfalso. eapply fields_not_nil; eassumption.
      * injection H as <- <-. destruct (IH g gs eq_refl) as [Hg Hs].
        split.
        -- intros [->|Hin]; [now apply E|now apply Hg].
        -- destruct Hs as [[-> ->]|[u [-> Hu]]].
           ++ left. split; reflexivity.
           ++ right. exists u. split; [reflexivity|assumption].
Qed.

Lemma Count_fuel_fields (c : byte) (fuel : nat) (s : bytes) :
  (List.length s <= fuel)%nat ->
  Count_fuel fuel s [c] = len (fields c s) - 1.
Proof.
  revert s. induction fuel as [|fuel IH]; intros s Hfuel.
  - destruct s; [reflexivity|cbn in Hfuel; lia].
  - cbn [Count_fuel]. cbv zeta. unfold Index.
    destruct (fields c s) as [|f fs] eqn:Ef.
    + exfalso. eapply fields_not_nil; eassumption.
    + destruct (fields_cons_inv c s Ef) as [Hf [[-> ->]|[t [-> Ht]]]].
      * rewrite Index_from_absent by assumption. reflexivity.
      * rewrite Index_from_first by assumption.
        replace (0 + len f =? -1) with false
          by (symmetry; apply Z.eqb_neq; pose proof (len_nonneg f); lia).
        replace (0 + len f + len [c]) with (len (f ++ [c]))
          by (rewrite len_app; lia).
        replace (f ++ c :: t) with ((f ++ [c]) ++ t)
          by (rewrite <- app_assoc; reflexivity).
        rewrite slice_app_right, IH, Ht.
        -- rewrite len_cons. lia.
        -- rewrite length_app in Hfuel. cbn in Hfuel. lia.
Qed.

Lemma genSplit_loop_fields (c : byte) (n : nat) (s : bytes) :
  (List.length (fields c s) <= S n)%nat ->
  genSplit_loop n s [c] = fields c s.
Proof.
  revert s. induction n as [|n IH]; intros s Hn.
  - cbn [genSplit_loop].
    destruct (fields c s) as [|f fs] eqn:Ef.
    + exfalso. eapply fields_not_nil; eassumption.
    + destruct (fields_cons_inv c s Ef) as [Hf [[-> ->]|[t [-> Ht]]]];
        [reflexivity|].
      subst fs. pose proof (fields_not_nil c t).
      destruct (fields c t); [contradiction|cbn in Hn; lia].
  - cbn [genSplit_loop]. cbv zeta. unfold Index.
    destruct (fields c s) as [|f fs] eqn:Ef.
    + exfalso. eapply fields_not_nil; eassumption.
    + destruct (fields_cons_inv c s Ef) as [Hf [[-> ->]|[t [-> Ht]]]].
      * rewrite Index_from_absent by assumption. reflexivity.
      * rewrite Index_from_first by assumption.
        replace (0 + len f <? 0) with false
          by (symmetry; apply Z.ltb_ge; pose proof (len_nonneg f); lia).
        replace (0 + len f + len [c]) with (len (f ++ [c]))
          by (rewrite len_app; lia).
        replace (0 + len f) with (len f) by lia.
        rewrite slice_app_left.
        replace (f ++ c :: t) with ((f ++ [c]) ++ t)
          by (rewrite <- app_assoc; reflexivity).
        rewrite slice_app_right, IH, Ht; [reflexivity|].
        rewrite Ht. cbn in Hn. lia.
Qed.

(** [strings.Split] on a one-byte separator computes the fields. *)
Lemma Split_fields (c : byte) (s : bytes) : Split s [c] = fields c s.
Proof.
  unfold Split, Count. rewrite Count_fuel_fields by lia.
  apply genSplit_loop_fields. unfold len. lia.
Qed.

End StringsFacts.

(** ** filepath.Base *)

Module FilepathFacts.

Import Filepath.

Lemma lastElement_no_sep (a acc : bytes) :
  ~ In "/"%byte a -> lastElement a acc = rev a ++ acc.
Proof.
  revert acc. induction a as [|x t IH]; intros acc Hn; [reflexivity|].
  cbn [lastElement]. unfold IsPathSeparator.
  rewrite byte_eqb_neq by (intros ->; apply Hn; now left).
  rewrite IH by (intros H; apply Hn; now right).
  cbn [rev]. rewrite <- app_assoc. reflexivity.
Qed.

Lemma lastElement_sep (a b acc : bytes) :
  ~ In "/"%byte a -> lastElement (a ++ "/"%byte :: b) acc = rev a ++ acc.
Proof.
  revert acc. induction a as [|x t IH]; intros acc Hn.
  - reflexivity.
  - cbn [app lastElement]. unfold IsPathSeparator.
    rewrite byte_eqb_neq by (intros ->; apply Hn; now left).
    rewrite IH by (intros H; apply Hn; now right).
    cbn [rev]. rewrite <- app_assoc. reflexivity.
Qed.

Lemma stripSeparators_id (x : byte) (t : bytes) :
  x <> "/"%byte -> stripSeparators (x :: t) = x :: t.
Proof.
  intros Hx. cbn [stripSeparators]. unfold IsPathSeparator.
  rewrite byte_eqb_neq by assumption. reflexivity.
Qed.

(** A non-empty last segment without a separator is the base name, with or
    without a directory in front of it. *)
Lemma Base_segment (dir name : bytes) :
  name <> [] -> ~ In "/"%byte name ->
  Base (dir ++ "/"%byte :: name) = name /\ Base name = name.
Proof.
  intros Hne Hn.
  assert (Hrev : exists x t, rev name = x :: t /\ x <> "/"%byte).
  { destruct (rev name) as [|x t] eqn:E.
    - apply (f_equal (@rev byte)) in E. rewrite rev_involutive in E.
      contradiction.
    - exists x, t. split; [reflexivity|]. intros ->. apply Hn.
      apply in_rev. rewrite E. now left. }
  destruct Hrev as [x [t [E Hx]]].
  assert (Hn' : ~ In "/"%byte (rev name)) by (rewrite <- in_rev; assumption).
  split.
  - unfold Base. destruct (dir ++ "/"%byte :: name) eqn:Ed;
      [destruct dir; discriminate|]. rewrite <- Ed. clear Ed.
    rewrite rev_append_rev, app_nil_r, rev_app_distr. cbn [rev].
    rewrite <- app_assoc. cbn [app]. rewrite E. cbn [app].
    rewrite stripSeparators_id by assumption.
    change (x :: t ++ "/"%byte :: rev dir)
      with ((x :: t) ++ "/"%byte :: rev dir).
    rewrite <- E, lastElement_sep by assumption.
    rewrite rev_involutive, app_nil_r.
    destruct name; [contradiction|reflexivity].
  - unfold Base. destruct name as [|n0 name']; [contradiction|].
    rewrite rev_append_rev, app_nil_r, E.
    rewrite stripSeparators_id by assumption.
    rewrite <- E, lastElement_no_sep by assumption.
    rewrite rev_involutive, app_nil_r. reflexivity.
Qed.

End FilepathFacts.

(** ** extractCollectionName *)

(** With a [.json] suffix there are always at least two parts, so the
    guard [len(parts) < 2] never fires: the name is the last field but one. *)
Lemma extractCollectionName_fields (filePath : bytes) :
  Main.extractCollectionName filePath =
    if Strings.HasSuffix (Filepath.Base filePath) (bs ".json")
    then index_from_end2 (fields "."%byte (Filepath.Base filePath))
    else [].
Proof.
  unfold Main.extractCollectionName.
  destruct (Strings.HasSuffix (Filepath.Base filePath) (bs ".json")) eqn:E;
    [|reflexivity].
  cbn [negb]. change (bs ".") with ["."%byte].
  rewrite StringsFacts.Split_fields.
  apply StringsFacts.HasSuffix_iff in E. destruct E as [p ->].
  change (bs ".json") with ("."%byte :: bs "json").
  rewrite StringsFacts.fields_app, len_app.
  change (len (fields "."%byte (bs "json"))) with 1.
  pose proof (StringsFacts.fields_not_nil "."%byte p) as Hne.
  destruct (fields "."%byte p) as [|f fs]; [contradiction|].
  rewrite len_cons. pose proof (len_nonneg fs).
  replace (len fs + 1 + 1 <? 2) with false
    by (symmetry; apply Z.ltb_ge; lia).
  reflexivity.
Qed.

Lemma index_from_end2_app (l : list bytes) (a b : bytes) :
  index_from_end2 (l ++ [a; b]) = a.
Proof.
  unfold index_from_end2. rewrite len_app.
  change (len [a; b]) with 2.
  replace (Z.to_nat (len l + 2 - 2)) with (List.length l) by (unfold len; lia).
  rewrite app_nth2 by lia. rewrite Nat.sub_diag. reflexivity.
Qed.

(** C2. For a file name (the base name of the path) of the shape
    [*.<name>.json] or [<name>.json], where [<name>] is one dot-free segment,
    [extractCollectionName] returns [<name>]; for a file name that does not
    end in [.json], and for the file name [.json], it returns the empty
    string. *)
Theorem extractCollectionName_by_file_name (filePath : bytes) :
  (forall pre name : bytes,
      ~ In "."%byte name ->
      Filepath.Base filePath = pre ++ bs "." ++ name ++ bs ".json" ->
      Main.extractCollectionName filePath = name)
  /\ (forall name : bytes,
      ~ In "."%byte name ->
      Filepath.Base filePath = name ++ bs ".json" ->
      Main.extractCollectionName filePath = name)
  /\ ((forall p : bytes, Filepath.Base filePath <> p ++ bs ".json") ->
      Main.extractCollectionName filePath = [])
  /\ (Filepath.Base filePath = bs ".json" ->
      Main.extractCollectionName filePath = []).
Proof.
  assert (Hname : forall name : bytes,
             ~ In "."%byte name ->
             Filepath.Base filePath = name ++ bs ".json" ->
             Main.extractCollectionName filePath = name).
  { intros name Hn Hb. rewrite extractCollectionName_fields, Hb.
    replace (Strings.HasSuffix (name ++ bs ".json") (bs ".json")) with true
      by (symmetry; apply StringsFacts.HasSuffix_iff; now exists name).
    change (bs ".json") with ("."%byte :: bs "json").
    rewrite StringsFacts.fields_app, StringsFacts.fields_no_sep by assumption.
    apply (index_from_end2_app []). }
  repeat split.
  - intros pre name Hn Hb. rewrite extractCollectionName_fields, Hb.
    replace (Strings.HasSuffix (pre ++ bs "." ++ name ++ bs ".json")
               (bs ".json")) with true
      by (symmetry; apply StringsFacts.HasSuffix_iff;
          exists (pre ++ bs "." ++ name); now rewrite <- !app_assoc).
    change (bs ".json") with ("."%byte :: bs "json").
    change (bs "." ++ name ++ "."%byte :: bs "json")
      with ("."%byte :: (name ++ "."%byte :: bs "json")).
    rewrite !StringsFacts.fields_app.
    rewrite (StringsFacts.fields_no_sep "."%byte name) by assumption.
    apply index_from_end2_app.
  - exact Hname.
  - intros Hns. rewrite extractCollectionName_fields.
    destruct (Strings.HasSuffix (Filepath.Base filePath) (bs ".json")) eqn:E;
      [|reflexivity].
    apply StringsFacts.HasSuffix_iff in E. destruct E as [p Hp].
    exfalso. exact (Hns p Hp).
  - intros Hb. apply (Hname []); [intros []|exact Hb].
Qed.

(** The paths of the specification's examples, through [Filepath.Base]. *)
Lemma extractCollectionName_examples :
  Main.extractCollectionName (bs "data/orders.v2.json") = bs "v2"
  /\ Main.extractCollectionName (bs "users.json") = bs "users"
  /\ Main.extractCollectionName (bs "data/README.JSON") = []
  /\ Main.extractCollectionName (bs "data/.json") = [].
Proof.
  pose proof (extractCollectionName_by_file_name (bs "data/orders.v2.json"))
    as [H1 _].
  pose proof (extractCollectionName_by_file_name (bs "users.json"))
    as [_ [H2 _]].
  pose proof (extractCollectionName_by_file_name (bs "data/README.JSON"))
    as [_ [_ [H3 _]]].
  pose proof (extractCollectionName_by_file_name (bs "data/.json"))
    as [_ [_ [_ H4]]].
  split; [|split; [|split]].
  - apply (H1 (bs "orders") (bs "v2")); [|reflexivity].
    cbn. intros [H|[H|[]]]; discriminate H.
  - apply (H2 (bs "users")); [|reflexivity].
    cbn. intros [H|[H|[H|[H|[H|[]]]]]]; discriminate H.
  - apply H3. intros p Hp.
    apply (f_equal (@rev byte)) in Hp. rewrite rev_app_distr in Hp.
    vm_compute in Hp. discriminate Hp.
  - apply H4. reflexivity.
Defined.

(** C9. The two copies of [extractCollectionName], in src/main.go and in
    src/unnamed/part_000, return the same string on every path. *)
Theorem extractCollectionName_copies_agree (filePath : bytes) :
  Main.extractCollectionName filePath = Part000.extractCollectionName filePath.
Proof.
  unfold Main.extractCollectionName, Part000.extractCollectionName.
  destruct (Strings.HasSuffix (Filepath.Base filePath) (bs ".json"));
    reflexivity.
Qed.

(** ** bufio.Scanner: what one call of Scan does *)

Module ScannerFacts.

Import BytesReader Bufio.

#[local] Arguments ScanLines : simpl never.
#[local] Arguments dropCR : simpl never.
#[local] Arguments slice : simpl never.

Lemma len_slice {A : Type} (l : list A) (lo hi : Z) :
  0 <= lo <= hi -> hi <= len l -> len (slice l lo hi) = hi - lo.
Proof.
  intros H1 H2. unfold slice, len in *.
  rewrite length_firstn, length_skipn. lia.
Qed.

Lemma slice_drop {A : Type} (l a b : list A) (lo hi : Z) :
  0 <= lo -> slice l lo hi = a ++ b -> slice l (lo + len a) hi = b.
Proof.
  intros Hlo H. unfold slice in *.
  replace (Z.to_nat (lo + len a)) with (List.length a + Z.to_nat lo)%nat
    by (unfold len; lia).
  rewrite <- skipn_skipn.
  replace (Z.to_nat (hi - (lo + len a)))
    with (Z.to_nat (hi - lo) - List.length a)%nat by (unfold len; lia).
  rewrite <- skipn_firstn_comm, H, skipn_app, skipn_all, Nat.sub_diag.
  reflexivity.
Qed.

Lemma slice_empty {A : Type} (l : list A) (lo : Z) : slice l lo lo = [].
Proof. unfold slice. rewrite Z.sub_diag. reflexivity. Qed.

(** Writing [chunk] at [hi] extends the slice that ends there. *)
Lemma slice_write {A : Type} (l chunk : list A) (lo hi : Z) :
  0 <= lo <= hi -> hi + len chunk <= len l ->
  slice (firstn (Z.to_nat hi) l ++ chunk ++ skipn (Z.to_nat (hi + len chunk)) l)
        lo (hi + len chunk)
  = slice l lo hi ++ chunk.
Proof.
  intros H1 H2. unfold slice.
  pose proof (len_nonneg chunk) as Hc.
  assert (Hhi : (Z.to_nat hi <= List.length l)%nat) by (unfold len in *; lia).
  rewrite skipn_app, length_firstn, Nat.min_l by assumption.
  replace (Z.to_nat lo - Z.to_nat hi)%nat with 0%nat by lia.
  cbn [skipn]. rewrite firstn_app, length_skipn, length_firstn, Nat.min_l
    by assumption.
  replace (Z.to_nat (hi + len chunk - lo) - (Z.to_nat hi - Z.to_nat lo))%nat
    with (List.length chunk) by (unfold len in *; lia).
  rewrite firstn_app, firstn_all, Nat.sub_diag. cbn [firstn].
  rewrite app_nil_r. f_equal.
  rewrite skipn_firstn_comm.
  rewrite firstn_firstn. f_equal. lia.
Qed.

Lemma len_write {A : Type} (l chunk : list A) (hi : Z) :
  0 <= hi -> hi + len chunk <= len l ->
  len (firstn (Z.to_nat hi) l ++ chunk ++ skipn (Z.to_nat (hi + len chunk)) l)
  = len l.
Proof.
  intros H1 H2. unfold len in *.
  rewrite !length_app, length_firstn, length_skipn. lia.
Qed.

Lemma copy_into_window {A : Type} (dst src : list A) :
  slice (src ++ skipn (List.length src) dst) 0 (len src) = src.
Proof. apply slice_app_left. Qed.

Lemma len_copy_into (dst src : bytes) :
  len src <= len dst -> len (copy_into dst src) = len dst.
Proof.
  intros H. unfold copy_into, len in *. rewrite length_app, length_skipn. lia.
Qed.

Lemma IndexByte_from_absent (c : byte) (b : bytes) (i : Z) :
  ~ In c b -> IndexByte_from b c i = -1.
Proof.
  revert i. induction b as [|x t IH]; intros i Hn; [reflexivity|].
  cbn [IndexByte_from].
  rewrite byte_eqb_neq by (intros ->; apply Hn; now left).
  apply IH. intros H; apply Hn; now right.
Qed.

Lemma IndexByte_from_first (c : byte) (a b : bytes) (i : Z) :
  ~ In c a -> IndexByte_from (a ++ c :: b) c i = i + len a.
Proof.
  revert i. induction a as [|x t IH]; intros i Hn.
  - cbn. rewrite byte_eqb_refl. lia.
  - cbn [app IndexByte_from].
    rewrite byte_eqb_neq by (intros ->; apply Hn; now left).
    rewrite IH by (intros H; apply Hn; now right).
    rewrite len_cons. lia.
Qed.

Lemma cut_some (R l rest : bytes) :
  cut R = (l, Some rest) -> R = l ++ x0a :: rest /\ ~ In x0a l.
Proof.
  revert l. induction R as [|x t IH]; intros l H; cbn [cut] in H.
  - discriminate.
  - destruct (Byte.eqb x x0a) eqn:E.
    + apply Byte.byte_dec_bl in E. subst x. injection H as <- <-.
      split; [reflexivity|intros []].
    + apply Byte.eqb_false in E.
      destruct (cut t) as [l' r'] eqn:Ec. injection H as <- ->.
      destruct (IH l' eq_refl) as [-> Hn].
      split; [reflexivity|]. intros [H|H]; [now apply E|now apply Hn].
Qed.

Lemma cut_none (R l : bytes) :
  cut R = (l, None) -> R = l /\ ~ In x0a l.
Proof.
  revert l. induction R as [|x t IH]; intros l H; cbn [cut] in H.
  - injection H as <-. split; [reflexivity|intros []].
  - destruct (Byte.eqb x x0a) eqn:E; [discriminate|].
    apply Byte.eqb_false in E.
    destruct (cut t) as [l' r'] eqn:Ec. injection H as <- ->.
    destruct (IH l' eq_refl) as [-> Hn].
    split; [reflexivity|]. intros [H|H]; [now apply E|now apply Hn].
Qed.

Lemma cut_app_newline (l rest : bytes) :
  ~ In x0a l -> cut (l ++ x0a :: rest) = (l, Some rest).
Proof.
  induction l as [|x t IH]; intros Hn.
  - reflexivity.
  - cbn [app cut].
    rewrite byte_eqb_neq by (intros ->; apply Hn; now left).
    rewrite IH by (intros H; apply Hn; now right). reflexivity.
Qed.

Lemma cut_no_newline (l : bytes) : ~ In x0a l -> cut l = (l, None).
Proof.
  induction l as [|x t IH]; intros Hn; [reflexivity|].
  cbn [cut]. rewrite byte_eqb_neq by (intros ->; apply Hn; now left).
  rewrite IH by (intros H; apply Hn; now right). reflexivity.
Qed.

Lemma ScanLines_newline (line W : bytes) (atEOF : bool) :
  ~ In x0a line ->
  ScanLines (line ++ x0a :: W) atEOF = (len line + 1, Some (dropCR line), None).
Proof.
  intros Hn. unfold ScanLines.
  replace (len (line ++ x0a :: W) =? 0) with false
    by (symmetry; apply Z.eqb_neq; rewrite len_app, len_cons;
        pose proof (len_nonneg line); pose proof (len_nonneg W); lia).
  rewrite andb_false_r. unfold IndexByte.
  rewrite IndexByte_from_first by assumption.
  replace (0 + len line >=? 0) with true
    by (symmetry; apply Z.geb_le; pose proof (len_nonneg line); lia).
  replace (0 + len line) with (len line) by lia.
  rewrite slice_app_left. reflexivity.
Qed.

Lemma ScanLines_final (W : bytes) :
  W <> [] -> ~ In x0a W ->
  ScanLines W true = (len W, Some (dropCR W), None).
Proof.
  intros Hne Hn. unfold ScanLines.
  replace (len W =? 0) with false
    by (symmetry; apply Z.eqb_neq; intros H; apply len_zero_nil in H;
        contradiction).
  cbn [andb]. unfold IndexByte. rewrite IndexByte_from_absent by assumption.
  reflexivity.
Qed.

Lemma ScanLines_more (W : bytes) :
  ~ In x0a W -> ScanLines W false = (0, None, None).
Proof.
  intros Hn. unfold ScanLines. cbn [andb]. unfold IndexByte.
  rewrite IndexByte_from_absent by assumption. reflexivity.
Qed.

Lemma len_window (sc : Scanner) :
  ScannerInv sc -> len (window sc) = end_ sc - start sc.
Proof.
  intros [Hs He _ _ _ _ _]. unfold window. apply len_slice; lia.
Qed.

(** Decides the comparisons of a goal, one case split each. *)
Ltac zbool :=
  repeat match goal with
    | |- context [?a >? ?b] => rewrite (Z.gtb_ltb a b)
    | |- context [?a >=? ?b] => rewrite (Z.geb_leb a b)
    | |- context [?a <? ?b] => destruct (Z.ltb_spec a b); try lia
    | |- context [?a <=? ?b] => destruct (Z.leb_spec a b); try lia
    | |- context [?a =? ?b] => destruct (Z.eqb_spec a b); try lia
    end.

(** A round that finds a whole line in the buffer hands it out. *)
Lemma tryToken_line (sc : Scanner) (line W : bytes) :
  ScannerInv sc -> window sc = line ++ x0a :: W -> ~ In x0a line ->
  exists sc', tryToken sc = Return sc' true
    /\ token sc' = Some (dropCR line)
    /\ window sc' = W /\ unread sc' = unread sc /\ ScannerInv sc'.
Proof.
  intros Hinv Hw Hn. pose proof (len_window sc Hinv) as Hlen.
  rewrite Hw, len_app, len_cons in Hlen.
  pose proof (len_nonneg line) as Hl. pose proof (len_nonneg W) as HW.
  destruct Hinv as [Hs He Hc Hm Hr Hd Herr].
  destruct sc as [rd mx tok bf st en er em dn].
  unfold window, unread in *. cbn in *.
  unfold tryToken. cbn. rewrite Hw, ScanLines_newline by assumption.
  unfold advance. cbn.
  replace (en >? st) with true by (symmetry; apply Z.gtb_lt; lia).
  cbn [orb].
  replace (len line + 1 <? 0) with false by (symmetry; apply Z.ltb_ge; lia).
  replace (len line + 1 >? en - st) with false
    by (symmetry; rewrite Z.gtb_ltb; apply Z.ltb_ge; lia).
  cbn.
  replace (len line + 1 >? 0) with true by (symmetry; apply Z.gtb_lt; lia).
  rewrite orb_true_r.
  eexists. split; [reflexivity|]. cbn.
  split; [reflexivity|]. split.
  - replace (st + (len line + 1)) with (st + len (line ++ [x0a]))
      by (rewrite len_app; reflexivity).
    apply slice_drop; [lia|]. rewrite Hw, <- app_assoc. reflexivity.
  - split; [reflexivity|]. constructor; cbn; try assumption; lia.
Qed.

(** At the end of the input, what is left in the buffer is the last line. *)
Lemma tryToken_final (sc : Scanner) :
  ScannerInv sc -> err sc = Some EOF ->
  window sc <> [] -> ~ In x0a (window sc) ->
  exists sc', tryToken sc = Return sc' true
    /\ token sc' = Some (dropCR (window sc))
    /\ window sc' = [] /\ unread sc' = unread sc /\ ScannerInv sc'
    /\ err sc' = Some EOF.
Proof.
  intros Hinv Heof Hne Hn. pose proof (len_window sc Hinv) as Hlen.
  assert (Hpos : 0 < len (window sc)).
  { destruct (window sc); [contradiction|]. rewrite len_cons.
    pose proof (len_nonneg l). lia. }
  destruct Hinv as [Hs He Hc Hm Hr Hd Herr].
  destruct sc as [rd mx tok bf st en er em dn].
  unfold window, unread in *. cbn in *. subst er.
  unfold tryToken. cbn. rewrite orb_true_r.
  rewrite ScanLines_final by assumption.
  unfold advance. cbn. rewrite Hlen.
  replace (en - st <? 0) with false by (symmetry; apply Z.ltb_ge; lia).
  replace (en - st >? en - st) with false
    by (symmetry; rewrite Z.gtb_ltb; apply Z.ltb_ge; lia).
  cbn.
  replace (en - st >? 0) with true by (symmetry; apply Z.gtb_lt; lia).
  eexists. split; [reflexivity|]. cbn.
  split; [reflexivity|]. split.
  - replace (st + (en - st)) with en by lia. apply slice_empty.
  - split; [reflexivity|]. split; [|reflexivity].
    constructor; cbn; try assumption; try lia.
Qed.

(** A round that finds no newline in the buffer, before the end of the
    input is known or with an empty buffer, goes on to read. *)
Lemma tryToken_more (sc : Scanner) :
  ScannerInv sc -> ~ In x0a (window sc) ->
  err sc = None \/ window sc = [] ->
  exists sc', tryToken sc = Continue sc'
    /\ window sc' = window sc /\ unread sc' = unread sc /\ ScannerInv sc'
    /\ err sc' = err sc /\ buf sc' = buf sc /\ start sc' = start sc
    /\ end_ sc' = end_ sc.
Proof.
  intros Hinv Hn Hcase. pose proof (len_window sc Hinv) as Hlen.
  destruct Hinv as [Hs He Hc Hm Hr Hd Herr].
  destruct sc as [rd mx tok bf st en er em dn].
  unfold window, unread in *. cbn in *.
  unfold tryToken. cbn.
  destruct Herr as [->|[-> [Hi Hend]]].
  - cbn. rewrite orb_false_r.
    destruct (en >? st) eqn:E.
    + rewrite ScanLines_more by assumption.
      unfold advance. cbn.
      replace (0 >? en - st) with false
        by (symmetry; rewrite Z.gtb_ltb; apply Z.ltb_ge; lia).
      cbn. eexists. split; [reflexivity|]. cbn.
      replace (st + 0) with st by lia.
      repeat split; try reflexivity; cbn; try assumption; try lia.
      now left.
    + eexists. split; [reflexivity|]. cbn.
      repeat split; try reflexivity; cbn; try assumption; try lia.
      now left.
  - destruct Hcase as [H|H]; [discriminate|].
    rewrite orb_true_r. cbn. rewrite H. unfold ScanLines. cbn.
    unfold advance. cbn. rewrite H, len_nil in Hlen.
    replace (0 >? en - st) with false
      by (symmetry; rewrite Z.gtb_ltb; apply Z.ltb_ge; lia).
    cbn. eexists. split; [reflexivity|]. cbn.
    replace (st + 0) with st by lia.
    repeat split; try reflexivity; cbn; try assumption; try lia.
    right. repeat split; assumption.
Qed.

(** [Read] into a non-empty room: the end of the input, or a non-empty
    chunk taken from the front of what was unread. *)
Lemma Read_spec (rd : Reader) (room : Z) :
  0 < room -> 0 <= i rd <= len (s rd) ->
  (i rd = len (s rd) /\ Read rd room = ([], rd, true))
  \/ (exists chunk rd',
        Read rd room = (chunk, rd', false)
        /\ chunk <> [] /\ len chunk <= room
        /\ s rd' = s rd /\ i rd' = i rd + len chunk
        /\ i rd' <= len (s rd')
        /\ skipn (Z.to_nat (i rd)) (s rd)
           = chunk ++ skipn (Z.to_nat (i rd')) (s rd')).
Proof.
  intros Hroom Hi. unfold Read.
  destruct (Z.ltb_spec (i rd) (len (s rd))) as [Hlt|Hge].
  - right.
    replace (i rd >=? len (s rd)) with false
      by (symmetry; rewrite Z.geb_leb; apply Z.leb_gt; lia).
    set (hi := Z.min (len (s rd)) (i rd + room)).
    assert (Hhi : i rd < hi <= len (s rd)) by (unfold hi; lia).
    assert (Hlen : len (slice (s rd) (i rd) hi) = hi - i rd)
      by (apply len_slice; lia).
    eexists. eexists. split; [reflexivity|]. cbn [s i].
    split; [|split; [|split; [|split; [|split]]]].
    + intros H. rewrite H, len_nil in Hlen. lia.
    + rewrite Hlen. unfold hi. lia.
    + reflexivity.
    + reflexivity.
    + rewrite Hlen. lia.
    + rewrite Hlen. unfold slice.
      replace (Z.to_nat (i rd + (hi - i rd)))
        with (Z.to_nat (hi - i rd) + Z.to_nat (i rd))%nat by lia.
      rewrite <- skipn_skipn. symmetry. apply firstn_skipn.
  - left. split; [lia|].
    replace (i rd >=? len (s rd)) with true
      by (symmetry; rewrite Z.geb_leb; apply Z.leb_le; lia).
    reflexivity.
Qed.

(** What the reading loop does when there is room in the buffer. *)
Lemma readLoop_spec (fuel : nat) (sc : Scanner) :
  ScannerInv sc -> err sc = None -> end_ sc < len (buf sc) ->
  exists sc', readLoop fuel sc 0 = sc' /\ ScannerInv sc'
    /\ ((unread sc = [] /\ err sc' = Some EOF
         /\ window sc' = window sc /\ unread sc' = [])
        \/ (exists chunk, chunk <> []
              /\ unread sc = chunk ++ unread sc'
              /\ window sc' = window sc ++ chunk /\ err sc' = None)).
Proof.
  intros Hinv Herr Hroom.
  destruct Hinv as [Hs He Hc Hm Hr Hd _].
  destruct sc as [rd mx tok bf st en er em dn].
  unfold window, unread in *. cbn in *. subst er.
  assert (Hread := Read_spec rd (len bf - en) ltac:(lia) Hr).
  destruct Hread as [[Hi HR]|[chunk [rd' [HR [Hne [Hlen [Hs' [Hi' [Hle Hun]]]]]]]]].
  - exists (readLoop fuel (mkScanner rd mx tok bf st en None em dn) 0).
    split; [reflexivity|].
    assert (Hall : skipn (Z.to_nat (i rd)) (s rd) = []).
    { apply skipn_all2. unfold len in Hi. lia. }
    destruct fuel; cbn [readLoop r buf end_]; rewrite HR; cbn.
    all: replace (len bf - en <? 0) with false
           by (symmetry; apply Z.ltb_ge; lia).
    all: cbn; replace (en + 0) with en by lia.
    all: rewrite firstn_skipn.
    all: split; [constructor; cbn; try assumption; try lia;
                 right; repeat split; try reflexivity; try assumption; lia|].
    all: left; repeat split; assumption.
  - pose proof (len_nonneg chunk) as Hc0.
    assert (Hpos : 0 < len chunk).
    { destruct chunk; [contradiction|]. rewrite len_cons.
      pose proof (len_nonneg chunk). lia. }
    exists (readLoop fuel (mkScanner rd mx tok bf st en None em dn) 0).
    split; [reflexivity|].
    destruct fuel; cbn [readLoop r buf end_]; rewrite HR; cbn.
    all: replace (len chunk <? 0) with false
           by (symmetry; apply Z.ltb_ge; lia).
    all: replace (len bf - en <? len chunk) with false
           by (symmetry; apply Z.ltb_ge; lia).
    all: cbn; replace (len chunk >? 0) with true
           by (symmetry; apply Z.gtb_lt; lia).
    all: cbn.
    all: split; [constructor; cbn; rewrite ?len_write by lia;
                 try assumption; try lia; now left|].
    all: right; exists chunk; split; [assumption|]; split; [assumption|].
    all: split; [|reflexivity]; apply slice_write; lia.
Qed.

(** At the end of the input with nothing left, [Scan] stops without an
    error. *)
Lemma readMore_eof (sc : Scanner) :
  err sc = Some EOF ->
  exists sc', readMore sc = Return sc' false /\ Err sc' = None.
Proof.
  intros Herr. unfold readMore. rewrite Herr. cbn.
  eexists. split; [reflexivity|]. reflexivity.
Qed.

(** A buffer of the maximum size that is full without a newline: the
    token is too long. *)
Lemma readMore_full (sc : Scanner) :
  ScannerInv sc -> err sc = None ->
  len (window sc) = MaxScanTokenSize ->
  exists sc', readMore sc = Return sc' false /\ Err sc' = Some ErrTooLong.
Proof.
  intros Hinv Herr Hfull. pose proof (len_window sc Hinv) as Hlen.
  destruct Hinv as [Hs He Hc Hm Hr Hd _].
  destruct sc as [rd mx tok bf st en er em dn].
  unfold window in *. cbn in *. subst er. unfold MaxScanTokenSize in *.
  assert (st = 0) by lia. assert (en = len bf) by lia. subst st.
  unfold readMore.
  cbn [err is_some start end_ buf r maxTokenSize token empties done andb].
  cbv iota.
  replace (0 >? 0) with false by reflexivity. cbn [andb].
  cbn [err is_some start end_ buf r maxTokenSize token empties done].
  replace (en =? len bf) with true by (symmetry; apply Z.eqb_eq; lia).
  replace (len bf >=? mx) with true
    by (symmetry; rewrite Z.geb_leb; apply Z.leb_le; lia).
  eexists. split; [reflexivity|]. reflexivity.
Qed.

(** Otherwise the round makes room (shifting, then growing the buffer)
    and reads. *)
Lemma readMore_read (sc : Scanner) :
  ScannerInv sc -> err sc = None ->
  len (window sc) < MaxScanTokenSize ->
  exists sc', readMore sc = Continue sc' /\ ScannerInv sc'
    /\ ((unread sc = [] /\ err sc' = Some EOF
         /\ window sc' = window sc /\ unread sc' = [])
        \/ (exists chunk, chunk <> []
              /\ unread sc = chunk ++ unread sc'
              /\ window sc' = window sc ++ chunk /\ err sc' = None)).
Proof.
  intros Hinv Herr Hfull. pose proof (len_window sc Hinv) as Hlen.
  assert (Hroom : exists sc2,
             readMore sc = Continue (readLoop 101 sc2 0)
             /\ ScannerInv sc2 /\ err sc2 = None
             /\ end_ sc2 < len (buf sc2)
             /\ window sc2 = window sc /\ unread sc2 = unread sc).
  { destruct Hinv as [Hs He Hc Hm Hr Hd _].
    destruct sc as [rd mx tok bf st en er em dn].
    unfold window, unread in *.
    cbn [err is_some start end_ buf r maxTokenSize token empties done] in *.
    subst er. unfold MaxScanTokenSize in *.
    unfold readMore. cbn [err is_some start end_ buf r maxTokenSize token
                          empties done].
    cbv iota.
    set (W := slice bf st en) in *.
    assert (HWlen : len W <= len bf) by lia.
    destruct ((st >? 0) && ((en =? len bf) || (st >? len bf / 2))) eqn:Eshift.
    - (* shifted: the window now starts the buffer *)
      apply andb_true_iff in Eshift. destruct Eshift as [Est _].
      apply Z.gtb_lt in Est.
      cbn [err is_some start end_ buf r maxTokenSize token empties done].
      rewrite len_copy_into by assumption.
      replace (en - st =? len bf) with false
        by (symmetry; apply Z.eqb_neq; lia).
      eexists. split; [reflexivity|]. cbn.
      rewrite len_copy_into by assumption.
      split; [constructor; cbn; try assumption; try lia;
              try (rewrite len_copy_into by assumption; lia); now left|].
      split; [reflexivity|]. split; [lia|]. split; [|reflexivity].
      rewrite <- Hlen. unfold copy_into. apply slice_app_left.
    - cbn [err is_some start end_ buf r maxTokenSize token empties done].
      destruct (Z.eqb_spec en (len bf)) as [Een|Een].
      + (* full and at the start: grow *)
        assert (st = 0).
        { apply andb_false_iff in Eshift. destruct Eshift as [E|E].
          - rewrite Z.gtb_ltb in E. apply Z.ltb_ge in E. lia.
          - discriminate E. }
        subst st.
        replace (len bf >=? mx) with false
          by (symmetry; rewrite Z.geb_leb; apply Z.leb_gt; lia).
        set (newSize := Z.min (if len bf * 2 =? 0 then startBufSize
                               else len bf * 2) mx).
        assert (HnewSize : len bf < newSize <= 65536).
        { unfold newSize, startBufSize.
          destruct (Z.eqb_spec (len bf * 2) 0); lia. }
        assert (Hrep : len (repeat x00 (Z.to_nat newSize)) = newSize)
          by (unfold len; rewrite repeat_length; lia).
        assert (Hcopy : len (copy_into (repeat x00 (Z.to_nat newSize)) W)
                        = newSize)
          by (rewrite len_copy_into; rewrite Hrep; lia).
        eexists. split; [reflexivity|]. cbn.
        change (slice bf 0 en) with W. rewrite Hcopy.
        split; [constructor; cbn; change (slice bf 0 en) with W;
                rewrite ?Hcopy; try assumption; try lia; now left|].
        split; [reflexivity|]. split; [lia|]. split; [|reflexivity].
        replace (en - 0) with (len W) by lia.
        unfold copy_into. apply slice_app_left.
      + eexists. split; [reflexivity|]. cbn.
        split; [constructor; cbn; try assumption; try lia; now left|].
        split; [reflexivity|]. split; [lia|]. split; reflexivity. }
  destruct Hroom as [sc2 [HrM [Hinv2 [Herr2 [Hroom2 [HW2 HU2]]]]]].
  destruct (readLoop_spec 101 sc2 Hinv2 Herr2 Hroom2) as [sc' [HL [Hinv' Hcases]]].
  exists sc'. split; [rewrite HrM, HL; reflexivity|].
  split; [assumption|]. rewrite <- HW2, <- HU2. exact Hcases.
Qed.

Lemma cut_app (W U : bytes) :
  ~ In x0a W -> cut (W ++ U) = (W ++ fst (cut U), snd (cut U)).
Proof.
  induction W as [|x t IH]; intros Hn.
  - cbn [app]. destruct (cut U). reflexivity.
  - cbn [app cut].
    rewrite byte_eqb_neq by (intros ->; apply Hn; now left).
    rewrite IH by (intros H; apply Hn; now right). reflexivity.
Qed.

Lemma unread_nil_at_end (sc : Scanner) :
  i (r sc) = len (s (r sc)) -> unread sc = [].
Proof.
  intros H. unfold unread. apply skipn_all2. unfold len in H. lia.
Qed.

Lemma ScanSpec_pending (sc1 sc2 : Scanner) (o : option (Scanner * bool)) :
  pending sc1 = pending sc2 -> ScanSpec sc1 o -> ScanSpec sc2 o.
Proof.
  intros Hp H. destruct H.
  - apply ScanEnd; [rewrite <- Hp|]; assumption.
  - eapply ScanLine; try eassumption; rewrite <- Hp; assumption.
  - eapply ScanTooLong; try eassumption. rewrite <- Hp. eassumption.
Qed.

(** The loop of [Scan] returns, and returns what [ScanSpec] says. *)
Lemma Scan_loop_spec (fuel : nat) :
  forall sc : Scanner,
    ScannerInv sc -> rounds sc <= Z.of_nat fuel ->
    ScanSpec sc (Scan_loop fuel sc).
Proof.
  induction fuel as [|fuel IH]; intros sc Hinv Hfuel.
  - exfalso. unfold rounds in Hfuel. pose proof (len_nonneg (unread sc)).
    destruct (err sc); lia.
  - cbn [Scan_loop].
    pose proof (len_window sc Hinv) as HlenW.
    destruct (cut (window sc)) as [l [rest|]] eqn:Ecut.
    + (* a whole line is in the buffer *)
      apply cut_some in Ecut. destruct Ecut as [HW Hn].
      destruct (tryToken_line sc l rest Hinv HW Hn)
        as [sc' [Htry [Htok [HW' [HU' Hinv']]]]].
      rewrite Htry.
      apply ScanLine with (line := l) (rest := Some (rest ++ unread sc)).
      * unfold pending. rewrite HW. destruct l; discriminate.
      * unfold pending. rewrite HW, <- app_assoc. cbn [app].
        apply cut_app_newline. assumption.
      * rewrite HW, len_app, len_cons in HlenW.
        destruct Hinv as [Hs He Hc Hm _ _ _].
        pose proof (len_nonneg rest). unfold MaxScanTokenSize in *. lia.
      * unfold Text. rewrite Htok. reflexivity.
      * assumption.
      * unfold pending. rewrite HW', HU'. reflexivity.
    + apply cut_none in Ecut. destruct Ecut as [<- Hn].
      destruct (err sc) as [e|] eqn:Eerr.
      * (* the end of the input has been seen *)
        assert (He : e = EOF /\ unread sc = []
                     /\ len (window sc) < MaxScanTokenSize).
        { destruct Hinv as [Hs He Hc Hm _ _ Herr].
          destruct Herr as [H|[H [Hi Hend]]]; [congruence|].
          split; [congruence|]. split; [apply unread_nil_at_end; assumption|].
          unfold MaxScanTokenSize in *. lia. }
        destruct He as [-> [HU Hsmall]].
        destruct (window sc) as [|w0 W] eqn:EW.
        -- destruct (tryToken_more sc Hinv) as [sc1 [Htry [HW1 [HU1 [Hinv1 [Herr1 _]]]]]].
           { rewrite EW. intros []. }
           { right. assumption. }
           rewrite Htry.
           destruct (readMore_eof sc1) as [sc' [Hrm HErr]];
             [congruence|].
           rewrite Hrm. apply ScanEnd; [|assumption].
           unfold pending. rewrite EW, HU. reflexivity.
        -- destruct (tryToken_final sc Hinv Eerr)
             as [sc' [Htry [Htok [HW' [HU' [Hinv' _]]]]]].
           { rewrite EW. discriminate. }
           { rewrite EW. assumption. }
           rewrite Htry.
           apply ScanLine with (line := w0 :: W) (rest := None).
           ++ unfold pending. rewrite EW. discriminate.
           ++ unfold pending. rewrite EW, HU, app_nil_r.
              apply cut_no_newline. assumption.
           ++ assumption.
           ++ unfold Text. rewrite Htok, EW. reflexivity.
           ++ assumption.
           ++ unfold pending. rewrite HW', HU', HU. reflexivity.
      * (* more may come *)
        destruct (tryToken_more sc Hinv Hn)
          as [sc1 [Htry [HW1 [HU1 [Hinv1 [Herr1 _]]]]]]; [now left|].
        rewrite Htry. rewrite Eerr in Herr1.
        assert (Hp1 : pending sc1 = pending sc)
          by (unfold pending; rewrite HW1, HU1; reflexivity).
        assert (HcapW : len (window sc1) <= MaxScanTokenSize).
        { rewrite HW1, HlenW. destruct Hinv as [Hs He Hc Hm _ _ _].
          unfold MaxScanTokenSize in *. lia. }
        destruct (Z.eq_dec (len (window sc1)) MaxScanTokenSize) as [Hfull|Hnot].
        -- destruct (readMore_full sc1 Hinv1 Herr1 Hfull) as [sc' [Hrm HErr]].
           rewrite Hrm.
           eapply ScanTooLong with (line := window sc ++ fst (cut (unread sc))).
           ++ unfold pending. apply cut_app. assumption.
           ++ rewrite len_app, <- HW1, Hfull.
              pose proof (len_nonneg (fst (cut (unread sc)))). lia.
           ++ assumption.
        -- destruct (readMore_read sc1 Hinv1 Herr1) as [sc2 [Hrm [Hinv2 Hcases]]];
             [lia|].
           rewrite Hrm.
           apply ScanSpec_pending with (sc1 := sc2).
           ++ rewrite <- Hp1. unfold pending.
              destruct Hcases as [[HU [_ [HW2 HU2]]]|[chunk [_ [HU [HW2 _]]]]].
              ** rewrite HW2, HU2, HU. reflexivity.
              ** rewrite HW2, HU, <- app_assoc. reflexivity.
           ++ apply IH; [assumption|].
              unfold rounds in *. rewrite Eerr in Hfuel. rewrite <- HU1 in Hfuel.
              destruct Hcases as [[HU [HE2 _]]|[chunk [Hne [HU [_ HE2]]]]].
              ** rewrite HE2. pose proof (len_nonneg (unread sc1)). lia.
              ** rewrite HE2. rewrite HU, len_app in Hfuel.
                 assert (0 < len chunk).
                 { destruct chunk; [contradiction|]. rewrite len_cons.
                   pose proof (len_nonneg chunk). lia. }
                 lia.
Qed.

(** [Scan] on a scanner of this program: it returns, and as [ScanSpec]
    says. *)
Lemma Scan_spec (sc : Scanner) : ScannerInv sc -> ScanSpec sc (Scan sc).
Proof.
  intros Hinv. unfold Scan. rewrite (inv_done sc Hinv).
  apply Scan_loop_spec; [assumption|].
  unfold rounds, Scan_fuel.
  assert (len (unread sc) = len (s (r sc)) - i (r sc)).
  { destruct Hinv as [_ _ _ _ Hr _ _]. unfold unread, len in *.
    rewrite length_skipn. lia. }
  pose proof (len_nonneg (unread sc)). destruct (err sc); lia.
Qed.

Lemma NewScanner_inv (data : bytes) :
  ScannerInv (NewScanner (NewReader data))
  /\ pending (NewScanner (NewReader data)) = data.
Proof.
  split; [|reflexivity].
  constructor; cbn; try lia; try reflexivity.
  - pose proof (len_nonneg data). lia.
  - now left.
Qed.

End ScannerFacts.

(** ** The NDJSON branch, line by line *)

Module ParserFacts.

Import BytesReader Bufio ScannerFacts.

Lemma splitLines_cut_some (R l rest : bytes) :
  cut R = (l, Some rest) -> splitLines R = l :: splitLines rest.
Proof.
  intros H. apply cut_some in H. destruct H as [-> Hn].
  induction l as [|x t IH]; cbn [app splitLines].
  - rewrite byte_eqb_refl. reflexivity.
  - rewrite byte_eqb_neq by (intros ->; apply Hn; now left).
    rewrite IH by (intros H; apply Hn; now right). reflexivity.
Qed.

Lemma splitLines_cut_none (R l : bytes) :
  R <> [] -> cut R = (l, None) -> splitLines R = [l].
Proof.
  intros Hne H. apply cut_none in H. destruct H as [<- Hn].
  induction R as [|x t IH]; [contradiction|].
  cbn [splitLines].
  rewrite byte_eqb_neq by (intros ->; apply Hn; now left).
  destruct t as [|y t']; [reflexivity|].
  rewrite IH; [reflexivity|discriminate|].
  intros H; apply Hn; now right.
Qed.

Lemma splitLines_single (l : bytes) :
  l <> [] -> ~ In x0a l -> splitLines l = [l].
Proof.
  intros Hne Hn. apply splitLines_cut_none; [assumption|].
  apply cut_no_newline. assumption.
Qed.

Section Refinement.

Variable M : Type.
Variable DecodeError : Type.
Variable UnmarshalExtJSON_array : bytes -> bool -> DecodeError + list M.
Variable UnmarshalExtJSON_doc : bytes -> bool -> DecodeError + M.

(** The loop over the scanner returns, and computes what [decodeLines]
    computes on the lines of the input the scanner holds. *)
Lemma scanLoop_decodeLines (fuel : nat) :
  forall (sc : Scanner) (docs : list M),
    ScannerInv sc -> (List.length (pending sc) < fuel)%nat ->
    scanLoop UnmarshalExtJSON_doc fuel sc docs
    = Some (decodeLines UnmarshalExtJSON_doc (splitLines (pending sc)) docs).
Proof.
  induction fuel as [|fuel IH]; intros sc docs Hinv Hfuel; [lia|].
  cbn [scanLoop]. pose proof (Scan_spec sc Hinv) as Hspec.
  destruct (Scan sc) as [[sc' ok]|] eqn:EScan; inversion Hspec; subst.
  - (* nothing left *)
    match goal with H : pending sc = [] |- _ => rewrite H end.
    match goal with H : Err sc' = None |- _ => rewrite H end.
    reflexivity.
  - (* one more line *)
    match goal with H : cut (pending sc) = _ |- _ => rename H into Hcut end.
    match goal with H : pending sc' = _ |- _ => rename H into Hp' end.
    match goal with H : Text sc' = _ |- _ => rename H into Htext end.
    match goal with H : len line < _ |- _ => rename H into Hsmall end.
    match goal with H : pending sc <> [] |- _ => rename H into Hne end.
    assert (Hsplit : splitLines (pending sc) = line :: splitLines (pending sc')
                     /\ (List.length (pending sc') < List.length (pending sc))%nat).
    { destruct rest as [t|].
      - rewrite Hp'. split; [apply splitLines_cut_some; assumption|].
        apply cut_some in Hcut. destruct Hcut as [-> _].
        rewrite length_app. cbn [List.length]. lia.
      - rewrite Hp'. split; [apply splitLines_cut_none; assumption|].
        destruct (pending sc); [contradiction|cbn; lia]. }
    destruct Hsplit as [Hsplit Hless]. rewrite Hsplit. cbn [decodeLines].
    replace (MaxScanTokenSize <=? len line) with false
      by (symmetry; apply Z.leb_gt; assumption).
    unfold lineText. rewrite Htext.
    destruct (len (Strings.TrimSpace (dropCR line)) =? 0).
    + apply IH; [assumption|lia].
    + destruct (UnmarshalExtJSON_doc (Strings.TrimSpace (dropCR line)) false);
        [reflexivity|]. apply IH; [assumption|lia].
  - (* a line that does not fit *)
    match goal with H : cut (pending sc) = _ |- _ => rename H into Hcut end.
    match goal with H : _ <= len line |- _ => rename H into Hbig end.
    match goal with H : Err sc' = _ |- _ => rewrite H end.
    assert (Hsplit : exists ls, splitLines (pending sc) = line :: ls).
    { destruct rest as [t|].
      - eexists. apply splitLines_cut_some. eassumption.
      - eexists. apply splitLines_cut_none; [|eassumption].
        apply cut_none in Hcut. destruct Hcut as [-> _].
        intros ->. unfold MaxScanTokenSize in Hbig. cbn in Hbig. lia. }
    destruct Hsplit as [ls ->]. cbn [decodeLines].
    replace (MaxScanTokenSize <=? len line) with true
      by (symmetry; apply Z.leb_le; assumption).
    reflexivity.
Qed.

(** The NDJSON branch always returns, with the result of [decodeLines]. *)
Lemma parseNDJSON_decodeLines (data : bytes) :
  parseNDJSON UnmarshalExtJSON_doc data
  = Some (decodeLines UnmarshalExtJSON_doc (splitLines data) []).
Proof.
  unfold parseNDJSON. destruct (NewScanner_inv data) as [Hinv Hp].
  rewrite scanLoop_decodeLines by (try assumption; rewrite Hp; lia).
  rewrite Hp. reflexivity.
Qed.

(** [parseExtendedJSON] by cases on the trimmed content. *)
Lemma parseExtendedJSON_cases (data : bytes) :
  parseExtendedJSON UnmarshalExtJSON_array UnmarshalExtJSON_doc data
  = Some match GoBytes.TrimSpace data with
         | [] => ([], None)
         | c :: t =>
             if Byte.eqb c "["%byte
             then parseArray UnmarshalExtJSON_array (c :: t)
             else decodeLines UnmarshalExtJSON_doc (splitLines (c :: t)) []
         end.
Proof.
  unfold parseExtendedJSON.
  destruct (GoBytes.TrimSpace data) as [|c t] eqn:E; [reflexivity|].
  replace (len (c :: t) =? 0) with false
    by (symmetry; apply Z.eqb_neq; rewrite len_cons;
        pose proof (len_nonneg t); lia).
  cbn [nth]. destruct (Byte.eqb c "["%byte); [reflexivity|].
  apply parseNDJSON_decodeLines.
Qed.

End Refinement.

End ParserFacts.

(** ** Trimming a text that is all white space *)

Module TrimFacts.

Import Utf8 Unicode GoBytes.

Lemma u8_range (c : byte) : 0 <= u8 c <= 255.
Proof. unfold u8. pose proof (Byte.to_N_bounded c). lia. Qed.

(** An ASCII byte is a rune of its own. *)
Lemma DecodeRune_ascii (c : byte) (t : bytes) :
  u8 c < RuneSelf -> DecodeRune (c :: t) = (u8 c, 1).
Proof.
  intros Hc. unfold DecodeRune, RuneSelf in *.
  replace (len (c :: t) <? 1) with false
    by (symmetry; apply Z.ltb_ge; rewrite len_cons;
        pose proof (len_nonneg t); lia).
  unfold at_. cbn [nth]. unfold first.
  replace (u8 c <? 128) with true by (symmetry; apply Z.ltb_lt; lia).
  reflexivity.
Qed.

(** On ASCII, [unicode.IsSpace] is the table [asciiSpace]. *)
Lemma IsSpace_ascii (c : byte) :
  u8 c < RuneSelf -> IsSpace (u8 c) = asciiSpace c.
Proof.
  intros Hc. pose proof (u8_range c). unfold IsSpace, asciiSpace, RuneSelf in *.
  replace (0 <=? u8 c) with true by (symmetry; apply Z.leb_le; lia).
  replace (u8 c <=? 255) with true by (symmetry; apply Z.leb_le; lia).
  cbn [andb].
  replace (u8 c =? 133) with false by (symmetry; apply Z.eqb_neq; lia).
  replace (u8 c =? 160) with false by (symmetry; apply Z.eqb_neq; lia).
  rewrite !orb_false_r. reflexivity.
Qed.

Lemma asciiSpace_ascii (c : byte) : asciiSpace c = true -> u8 c < RuneSelf.
Proof.
  unfold asciiSpace, RuneSelf. intros H.
  repeat (apply orb_true_iff in H; destruct H as [H|H]);
    apply Z.eqb_eq in H; lia.
Qed.

(** What the rune loop of [indexFunc] reads at the head of [rest] is what
    [DecodeRune] reads there. *)
Lemma rune_at_head (c : byte) (t : bytes) :
  (if u8 c >=? RuneSelf then DecodeRune (c :: t) else (u8 c, 1))
  = DecodeRune (c :: t).
Proof.
  destruct (Z.geb_spec (u8 c) RuneSelf) as [H|H]; [reflexivity|].
  symmetry. apply DecodeRune_ascii. assumption.
Qed.

Lemma indexFunc_from_AllSpace (fuel : nat) :
  forall (rest : bytes) (start : Z),
    AllSpace rest -> indexFunc_from fuel rest IsSpace false start = -1.
Proof.
  induction fuel as [|fuel IH]; intros rest start Hall; [reflexivity|].
  destruct rest as [|c t]; [reflexivity|].
  cbn [indexFunc_from]. rewrite rune_at_head.
  inversion Hall as [|data r n Hne Hdec Hsp Hrest]; subst.
  rewrite Hdec, Hsp. cbn [Bool.eqb]. apply IH. assumption.
Qed.

Lemma TrimFunc_AllSpace (s : bytes) :
  AllSpace s -> TrimFunc s IsSpace = [].
Proof.
  intros Hall. unfold TrimFunc, TrimLeftFunc, indexFunc.
  rewrite indexFunc_from_AllSpace by assumption. reflexivity.
Qed.

(** The first loop of [TrimSpace] skips a run [A] of ASCII white space and
    stops at the end, at an ASCII byte that is not white space, or at a
    byte that is not ASCII. *)
Lemma scanStart_split (t : bytes) :
  forall k : Z,
  exists A t' : bytes,
    t = A ++ t'
    /\ Forall (fun c => asciiSpace c = true) A
    /\ ((t' = [] /\ scanStart t k = Stopped (k + len A))
        \/ (exists c t'', t' = c :: t'' /\ u8 c < RuneSelf
              /\ asciiSpace c = false
              /\ scanStart t k = Stopped (k + len A))
        \/ (exists c t'', t' = c :: t'' /\ RuneSelf <= u8 c
              /\ scanStart t k = NonASCII (k + len A))).
Proof.
  induction t as [|c t IH]; intros k.
  - exists [], []. split; [reflexivity|]. split; [constructor|].
    left. split; [reflexivity|]. cbn. f_equal. lia.
  - cbn [scanStart].
    destruct (Z.geb_spec (u8 c) RuneSelf) as [Hge|Hlt].
    + exists [], (c :: t). split; [reflexivity|]. split; [constructor|].
      right. right. exists c, t. split; [reflexivity|]. split; [assumption|].
      f_equal. cbn. lia.
    + destruct (asciiSpace c) eqn:Esp.
      * destruct (IH (k + 1)) as [A [t' [Ht [HA Hcases]]]].
        exists (c :: A), t'. split; [rewrite Ht; reflexivity|].
        split; [constructor; assumption|].
        rewrite len_cons.
        replace (k + (len A + 1)) with (k + 1 + len A) by lia.
        exact Hcases.
      * exists [], (c :: t). split; [reflexivity|]. split; [constructor|].
        right. left. exists c, t.
        split; [reflexivity|]. split; [assumption|]. split; [assumption|].
        f_equal. cbn. lia.
Qed.

Lemma AllSpace_skip_ascii (A t : bytes) :
  Forall (fun c => asciiSpace c = true) A -> AllSpace (A ++ t) -> AllSpace t.
Proof.
  induction 1 as [|c A Hc HA IH]; intros Hall; [assumption|].
  apply IH. cbn [app] in Hall.
  inversion Hall as [|data r n Hne Hdec Hsp Hrest]; subst.
  rewrite DecodeRune_ascii in Hdec by (apply asciiSpace_ascii; assumption).
  injection Hdec as <- <-. exact Hrest.
Qed.

(** [bytes.TrimSpace] leaves nothing of a text that is all white space. *)
Lemma TrimSpace_AllSpace (s : bytes) : AllSpace s -> TrimSpace s = [].
Proof.
  intros Hall. unfold TrimSpace.
  destruct (scanStart_split s 0) as [A [t' [Hs [HA Hcases]]]].
  assert (Hall' : AllSpace t')
    by (apply AllSpace_skip_ascii with (A := A); [|rewrite <- Hs]; assumption).
  assert (Hslice : slice s (0 + len A) (len s) = t').
  { rewrite Hs. replace (0 + len A) with (len A) by lia.
    apply slice_app_right. }
  destruct Hcases as [[Ht' ->]|[[c [t'' [Ht' [Hc [Hsp ->]]]]]|[c [t'' [Ht' [Hc ->]]]]]].
  - rewrite Hslice, Ht'. cbn [rev_append scanStop]. subst t'.
    rewrite Hs, app_nil_r. replace (0 + len A) with (len A) by lia.
    unfold slice. rewrite Z.sub_diag. reflexivity.
  - exfalso. subst t'.
    inversion Hall' as [|data r n Hne Hdec Hsp' Hrest]; subst.
    rewrite DecodeRune_ascii in Hdec by assumption.
    injection Hdec as <- <-. rewrite IsSpace_ascii in Hsp' by assumption.
    congruence.
  - rewrite Hslice. apply TrimFunc_AllSpace. assumption.
Qed.

(** ASCII white space is white space. *)
Lemma AllSpace_ascii (s : bytes) :
  Forall (fun c => asciiSpace c = true) s -> AllSpace s.
Proof.
  induction 1 as [|c s Hc Hs IH]; [constructor|].
  pose proof (asciiSpace_ascii c Hc) as Hlt.
  apply AllSpace_rune with (r := u8 c) (n := 1).
  - discriminate.
  - apply DecodeRune_ascii. assumption.
  - rewrite IsSpace_ascii by assumption. assumption.
  - exact IH.
Qed.

(** A text that starts and ends with ASCII bytes that are not white space
    is left as it is. *)
Lemma TrimSpace_ascii_ends (c d : byte) (mid : bytes) :
  u8 c < RuneSelf -> asciiSpace c = false ->
  u8 d < RuneSelf -> asciiSpace d = false ->
  TrimSpace (c :: mid ++ [d]) = c :: mid ++ [d].
Proof.
  intros Hc Hcs Hd Hds. unfold TrimSpace. cbn [scanStart].
  replace (u8 c >=? RuneSelf) with false
    by (symmetry; rewrite Z.geb_leb; apply Z.leb_gt; assumption).
  rewrite Hcs, slice_all, rev_append_rev, app_nil_r.
  change (c :: mid ++ [d]) with ((c :: mid) ++ [d]).
  rewrite rev_app_distr. cbn [rev app scanStop].
  replace (u8 d >=? RuneSelf) with false
    by (symmetry; rewrite Z.geb_leb; apply Z.leb_gt; assumption).
  rewrite Hds. apply slice_all.
Qed.

End TrimFacts.

(** ** Trimming any text: bytes.TrimSpace, strings.TrimSpace and the lines *)

Module WhiteSpaceFacts.

Import Utf8 Unicode GoBytes TrimFacts WhiteSpace.

(** The values the table [first] takes. *)
Lemma first_values (v : Z) :
  first v = as_ \/ first v = xx \/ first v = s1 \/ first v = s2
  \/ first v = s3 \/ first v = s4 \/ first v = s5 \/ first v = s6
  \/ first v = s7.
Proof.
  unfold first.
  repeat match goal with
         | |- context [if ?b then _ else _] => destruct b
         end; tauto.
Qed.

Ltac eval_first c :=
  let g := eval vm_compute in (c >=? as_) in
  replace (c >=? as_) with g by reflexivity;
  let sz := eval vm_compute in (Z.land c 7) in
  replace (Z.land c 7) with sz by reflexivity;
  let ac := eval vm_compute in (acceptRanges (Z.shiftr c 4)) in
  replace (acceptRanges (Z.shiftr c 4)) with ac by reflexivity;
  let tb := eval vm_compute in (Z.testbit c 0) in
  replace (Z.testbit c 0) with tb by reflexivity.

Ltac eval_sizes :=
  try change (2 <=? 2) with true; try change (3 <=? 2) with false;
  try change (3 <=? 3) with true; try change (4 <=? 2) with false;
  try change (4 <=? 3) with false; cbv iota.

Ltac len_tests :=
  repeat match goal with
    | |- context [len (_ :: _)] => rewrite len_cons
    | |- context [len (@nil _)] => rewrite len_nil
    end;
  repeat match goal with
    | |- context [?a <? ?b] =>
        match a with (_ + 1) => idtac | _ => fail 1 end;
        let H := fresh in
        destruct (Z.ltb_spec a b) as [H|H];
        [try (exfalso; lia)|try (exfalso; lia)]
    end.

Lemma DecodeRune_decodeBytes (p : bytes) : DecodeRune p = decodeBytes p.
Proof.
  destruct p as [|p0 t0]; [reflexivity|].
  unfold DecodeRune, decodeBytes, outside, rune2, rune3, rune4.
  replace (len (p0 :: t0) <? 1) with false
    by (symmetry; apply Z.ltb_ge; rewrite len_cons;
        pose proof (len_nonneg t0); lia).
  unfold at_. cbn [nth]. cbv zeta.
  destruct (first_values (u8 p0)) as [H|[H|[H|[H|[H|[H|[H|[H|H]]]]]]]];
    rewrite H;
    match goal with |- context [?c >=? as_] => eval_first c end;
    cbv iota; cbn [fst snd]; try reflexivity; eval_sizes.
  all: destruct t0 as [|b1 t1]; [len_tests; reflexivity|].
  all: cbn [nth].
  all: try (pose proof (len_nonneg t1); len_tests; reflexivity).
  all: destruct t1 as [|b2 t2];
       [len_tests;
        repeat match goal with |- context [if ?b then _ else _] => destruct b end;
        reflexivity|].
  all: cbn [nth].
  all: try (pose proof (len_nonneg t2); len_tests;
            repeat match goal with |- context [if ?b then _ else _] => destruct b end;
            reflexivity).
  all: destruct t2 as [|b3 t3];
       [len_tests;
        repeat match goal with |- context [if ?b then _ else _] => destruct b end;
        reflexivity|].
  all: cbn [nth].
  all: pose proof (len_nonneg t3); len_tests;
            repeat match goal with |- context [if ?b then _ else _] => destruct b end;
            reflexivity.
Qed.

Lemma RuneStart_spec (c : byte) :
  RuneStart c = negb ((128 <=? u8 c) && (u8 c <=? 191)).
Proof. destruct c; reflexivity. Qed.

Lemma outside_RuneStart (c : byte) (lo hi : Z) :
  RuneStart c = true -> 128 <= lo -> hi <= 191 -> outside c (lo, hi) = true.
Proof.
  rewrite RuneStart_spec. unfold outside. cbn [fst snd]. intros H Hlo Hhi.
  apply negb_true_iff, andb_false_iff in H. apply orb_true_iff.
  destruct H as [H|H]; [left|right]; apply Z.leb_gt in H; apply Z.ltb_lt; lia.
Qed.

(** Case analysis on the table entry of the first byte, with the size and
    the accepted range computed. *)
Ltac first_cases p0 :=
  let H := fresh "Hfirst" in
  destruct (first_values (u8 p0)) as [H|[H|[H|[H|[H|[H|[H|[H|H]]]]]]]];
  rewrite ?H in *;
  match goal with |- context [?c >=? as_] => eval_first c end;
  cbv iota; cbn [fst snd]; eval_sizes.

Ltac split_ifs :=
  repeat match goal with
    | |- context [if ?b then _ else _] => destruct b eqn:?
    end.

Lemma decodeBytes_width (p : bytes) :
  p <> [] -> 1 <= snd (decodeBytes p) <= len p.
Proof.
  intros Hne. destruct p as [|p0 t0]; [contradiction|]. clear Hne.
  unfold decodeBytes. cbv zeta.
  first_cases p0.
  all: try (split_ifs; cbn [snd]; rewrite len_cons;
            pose proof (len_nonneg t0); lia).
  all: destruct t0 as [|b1 t1];
    [cbn [snd]; rewrite len_cons, len_nil; lia|].
  all: try (split_ifs; cbn [snd]; rewrite !len_cons;
            pose proof (len_nonneg t1); lia).
  all: destruct t1 as [|b2 t2];
    [cbn [snd]; rewrite !len_cons, len_nil; lia|].
  all: try (split_ifs; cbn [snd]; rewrite !len_cons;
            pose proof (len_nonneg t2); lia).
  all: destruct t2 as [|b3 t3];
    [cbn [snd]; rewrite !len_cons, len_nil; lia|].
  all: split_ifs; cbn [snd]; rewrite !len_cons;
    pose proof (len_nonneg t3); lia.
Qed.

(** Bytes after the text do not change what is decoded at its head, when
    they start with a byte that starts a rune. *)
Lemma decodeBytes_app_start (p q : bytes) :
  p <> [] ->
  (q = [] \/ exists c q', q = c :: q' /\ RuneStart c = true) ->
  decodeBytes (p ++ q) = decodeBytes p.
Proof.
  intros Hne [->|[c [q' [-> Hc]]]]; [rewrite app_nil_r; reflexivity|].
  destruct p as [|p0 t0]; [contradiction|]. clear Hne.
  pose proof (outside_RuneStart c 128 191 Hc ltac:(lia) ltac:(lia)) as O0.
  pose proof (outside_RuneStart c 160 191 Hc ltac:(lia) ltac:(lia)) as O1.
  pose proof (outside_RuneStart c 128 159 Hc ltac:(lia) ltac:(lia)) as O2.
  pose proof (outside_RuneStart c 144 191 Hc ltac:(lia) ltac:(lia)) as O3.
  pose proof (outside_RuneStart c 128 143 Hc ltac:(lia) ltac:(lia)) as O4.
  cbn [app]. unfold decodeBytes. cbv zeta.
  first_cases p0; try reflexivity.
  all: destruct t0 as [|b1 t1]; cbn [app];
    [try (rewrite ?O0, ?O1, ?O2, ?O3, ?O4; reflexivity);
     try (destruct q'; reflexivity);
     try (destruct q' as [|? [|? ?]]; rewrite ?O0, ?O1, ?O2, ?O3, ?O4; reflexivity)|].
  all: try reflexivity.
  all: destruct t1 as [|b2 t2]; cbn [app];
    [try (change locb with 128; change hicb with 191;
          rewrite ?O0, ?O1, ?O2, ?O3, ?O4; split_ifs; reflexivity);
     try (destruct q'; change locb with 128; change hicb with 191;
          rewrite ?O0, ?O1, ?O2, ?O3, ?O4; split_ifs; reflexivity)|].
  all: try reflexivity.
  all: destruct t2 as [|b3 t3]; cbn [app];
    [change locb with 128; change hicb with 191;
     rewrite ?O0, ?O1, ?O2, ?O3, ?O4; split_ifs; reflexivity|].
  all: reflexivity.
Qed.

Lemma first_as (v : Z) : first v = as_ -> v < 128.
Proof.
  unfold first. intros H.
  destruct (Z.ltb_spec v 128); [assumption|].
  repeat match type of H with
         | (if ?b then _ else _) = _ => destruct b
         end; discriminate H.
Qed.

Lemma first_lead (v : Z) :
  first v <> as_ -> first v <> xx -> 194 <= v /\ v <= 244.
Proof.
  unfold first. intros H1 H2.
  repeat match goal with
         | H : context [if ?a <? ?b then _ else _] |- _ =>
             destruct (Z.ltb_spec a b)
         | H : context [if ?a =? ?b then _ else _] |- _ =>
             destruct (Z.eqb_spec a b)
         end; try contradiction; try lia.
Qed.

Lemma inside_continuation (b : byte) (lo hi : Z) :
  outside b (lo, hi) = false -> 128 <= lo -> hi <= 191 -> RuneStart b = false.
Proof.
  rewrite RuneStart_spec. unfold outside. cbn [fst snd]. intros H Hlo Hhi.
  apply orb_false_iff in H. destruct H as [H1 H2].
  apply Z.ltb_ge in H1, H2. apply negb_false_iff, andb_true_iff.
  split; apply Z.leb_le; lia.
Qed.

Lemma lead_RuneStart (a : byte) : 194 <= u8 a -> RuneStart a = true.
Proof.
  intros H. rewrite RuneStart_spec. apply negb_true_iff, andb_false_iff.
  right. apply Z.leb_gt. lia.
Qed.

Lemma IsSpace_RuneError : IsSpace RuneError = false.
Proof. reflexivity. Qed.

Ltac to_nat_consts :=
  repeat match goal with
    | |- context [Z.to_nat ?k] =>
        let v := eval vm_compute in (Z.to_nat k) in
        change (Z.to_nat k) with v
    end.

(** A decoding that is not the error rune reads only the bytes it counts. *)
Lemma decodeBytes_valid_prefix (p : bytes) (r n : Z) :
  decodeBytes p = (r, n) -> r <> RuneError ->
  forall y, decodeBytes (firstn (Z.to_nat n) p ++ y) = (r, n).
Proof.
  intros H Hr y. destruct p as [|p0 t0];
    [cbn in H; injection H as <- <-; contradiction|].
  revert H. unfold decodeBytes at 1. cbv zeta.
  first_cases p0.
  1: { intros H. injection H as <- <-. to_nat_consts; cbn [firstn app].
       unfold decodeBytes. rewrite Hfirst. reflexivity. }
  1: { intros H. injection H as <- <-. contradiction. }
  all: destruct t0 as [|b1 t1];
    [intros H; injection H as <- <-; contradiction|].
  all: try (destruct (outside b1 _) eqn:O1;
            [intros H; injection H as <- <-; contradiction|];
            intros H; injection H as <- <-;
            to_nat_consts; cbn [firstn app];
            unfold decodeBytes; rewrite Hfirst;
            match goal with |- context [?c >=? as_] => eval_first c end;
            cbv iota; cbn [fst snd]; eval_sizes; rewrite O1; reflexivity).
  all: destruct t1 as [|b2 t2];
    [intros H; injection H as <- <-; contradiction|].
  all: try (destruct (outside b1 _) eqn:O1;
            [intros H; injection H as <- <-; contradiction|];
            destruct (outside b2 _) eqn:O2;
            [intros H; injection H as <- <-; contradiction|];
            intros H; injection H as <- <-;
            to_nat_consts; cbn [firstn app];
            unfold decodeBytes; rewrite Hfirst;
            match goal with |- context [?c >=? as_] => eval_first c end;
            cbv iota; cbn [fst snd]; eval_sizes; rewrite O1, O2; reflexivity).
  all: destruct t2 as [|b3 t3];
    [intros H; injection H as <- <-; contradiction|].
  all: destruct (outside b1 _) eqn:O1;
            [intros H; injection H as <- <-; contradiction|];
            destruct (outside b2 _) eqn:O2;
            [intros H; injection H as <- <-; contradiction|];
            destruct (outside b3 _) eqn:O3;
            [intros H; injection H as <- <-; contradiction|];
            intros H; injection H as <- <-;
            to_nat_consts; cbn [firstn app];
            unfold decodeBytes; rewrite Hfirst;
            match goal with |- context [?c >=? as_] => eval_first c end;
            cbv iota; cbn [fst snd]; eval_sizes; rewrite O1, O2, O3; reflexivity.
Qed.

Lemma len_tail_nil {A : Type} (t : list A) (k : Z) :
  len t + k = k -> t = [].
Proof. intros H. apply len_zero_nil. lia. Qed.

Lemma SpaceRune_shape (q : bytes) :
  SpaceRune q ->
  (exists c, q = [c] /\ u8 c < 128 /\ asciiSpace c = true)
  \/ (exists a t, q = a :: t /\ t <> [] /\ 128 <= u8 a /\ RuneStart a = true
        /\ Forall (fun b => RuneStart b = false) t /\ len q <= 4).
Proof.
  intros [Hne [Hw Hs]]. rewrite DecodeRune_decodeBytes in Hw, Hs.
  destruct q as [|a t]; [contradiction|]. clear Hne.
  revert Hw Hs. unfold decodeBytes. cbv zeta.
  first_cases a.
  1: { cbn [fst snd]. intros Hw Hs. left. exists a.
       rewrite len_cons in Hw.
       assert (t = []) by (apply len_zero_nil; lia). subst t.
       pose proof (first_as _ Hfirst) as Hlt.
       split; [reflexivity|]. split; [assumption|].
       rewrite <- IsSpace_ascii by assumption. assumption. }
  1: { cbn [fst snd]. intros _ Hs. discriminate Hs. }
  all: assert (Hlead : 194 <= u8 a <= 244)
    by (apply first_lead; rewrite Hfirst; discriminate).
  all: pose proof (lead_RuneStart a ltac:(lia)) as Hstart.
  all: destruct t as [|b1 t1]; [cbn [fst snd]; intros _ Hs; discriminate Hs|].
  all: try (destruct (outside b1 _) eqn:O1;
            [cbn [fst snd]; intros _ Hs; discriminate Hs|];
            cbn [fst snd]; intros Hw _; right; exists a, (b1 :: t1);
            rewrite !len_cons in Hw;
            assert (t1 = []) by (apply len_zero_nil; lia); subst t1;
            split; [reflexivity|]; split; [discriminate|];
            split; [lia|]; split; [assumption|];
            split; [repeat constructor;
                    eapply inside_continuation; [eassumption|lia|lia]
                   |rewrite !len_cons, len_nil; lia]).
  all: destruct t1 as [|b2 t2]; [cbn [fst snd]; intros _ Hs; discriminate Hs|].
  all: try (destruct (outside b1 _) eqn:O1;
            [cbn [fst snd]; intros _ Hs; discriminate Hs|];
            destruct (outside b2 _) eqn:O2;
            [cbn [fst snd]; intros _ Hs; discriminate Hs|];
            cbn [fst snd]; intros Hw _; right; exists a, (b1 :: b2 :: t2);
            rewrite !len_cons in Hw;
            assert (t2 = []) by (apply len_zero_nil; lia); subst t2;
            split; [reflexivity|]; split; [discriminate|];
            split; [lia|]; split; [assumption|];
            split; [repeat constructor;
                    (eapply inside_continuation;
                     [eassumption|cbv [locb hicb]; lia|cbv [locb hicb]; lia])
                   |rewrite !len_cons, len_nil; lia]).
  all: destruct t2 as [|b3 t3]; [cbn [fst snd]; intros _ Hs; discriminate Hs|].
  all: destruct (outside b1 _) eqn:O1;
            [cbn [fst snd]; intros _ Hs; discriminate Hs|];
            destruct (outside b2 _) eqn:O2;
            [cbn [fst snd]; intros _ Hs; discriminate Hs|];
            destruct (outside b3 _) eqn:O3;
            [cbn [fst snd]; intros _ Hs; discriminate Hs|];
            cbn [fst snd]; intros Hw _; right; exists a, (b1 :: b2 :: b3 :: t3);
            rewrite !len_cons in Hw;
            assert (t3 = []) by (apply len_zero_nil; lia); subst t3;
            split; [reflexivity|]; split; [discriminate|];
            split; [lia|]; split; [assumption|];
            split; [repeat constructor;
                    (eapply inside_continuation;
                     [eassumption|cbv [locb hicb]; lia|cbv [locb hicb]; lia])
                   |rewrite !len_cons, len_nil; lia].
Qed.

(** What follows a white-space rune does not change how it decodes. *)
Lemma SpaceRune_decode_app (q y : bytes) :
  SpaceRune q -> DecodeRune (q ++ y) = DecodeRune q.
Proof.
  intros [Hne [Hw Hs]].
  destruct (DecodeRune q) as [r n] eqn:E. cbn [fst snd] in *.
  rewrite DecodeRune_decodeBytes in *.
  pose proof (decodeBytes_valid_prefix q r n E) as H.
  subst n. unfold len in H. rewrite Nat2Z.id, firstn_all in H.
  apply H. intros ->. discriminate Hs.
Qed.

(** The white-space rune at the head of a text, cut off. *)
Lemma SpaceRune_of_decode (rest : bytes) (r n : Z) :
  rest <> [] -> DecodeRune rest = (r, n) -> IsSpace r = true ->
  SpaceRune (firstn (Z.to_nat n) rest)
  /\ rest = firstn (Z.to_nat n) rest ++ skipn (Z.to_nat n) rest.
Proof.
  intros Hne E Hs. split; [|symmetry; apply firstn_skipn].
  rewrite DecodeRune_decodeBytes in E.
  pose proof (decodeBytes_width rest Hne) as Hw. rewrite E in Hw. cbn [snd] in Hw.
  pose proof (decodeBytes_valid_prefix rest r n E) as H.
  specialize (H ltac:(intros ->; discriminate Hs) []).
  rewrite app_nil_r in H.
  assert (Hlen : len (firstn (Z.to_nat n) rest) = n)
    by (unfold len in *; rewrite length_firstn; lia).
  split; [|split].
  - intros Hnil. rewrite Hnil, len_nil in Hlen. lia.
  - rewrite DecodeRune_decodeBytes, H. cbn [snd]. symmetry. assumption.
  - rewrite DecodeRune_decodeBytes, H. assumption.
Qed.

(** ** DecodeLastRune *)

Lemma nth_app_len (pre l : bytes) (k : Z) (d : byte) :
  0 <= k -> nth (Z.to_nat (len pre + k)) (pre ++ l) d = nth (Z.to_nat k) l d.
Proof.
  intros Hk. rewrite app_nth2 by (unfold len; lia).
  f_equal. unfold len. lia.
Qed.

Lemma slice_last (z : bytes) :
  z <> [] -> slice z (len z - 1) (len z) = [nth (Z.to_nat (len z - 1)) z x00].
Proof.
  intros Hne. destruct (exists_last Hne) as [pre [c ->]].
  rewrite len_app. change (len [c]) with 1.
  replace (len pre + 1 - 1) with (len pre) by lia.
  replace (len pre + 1) with (len (pre ++ [c])) by (rewrite len_app; reflexivity).
  rewrite slice_app_right.
  replace (len pre) with (len pre + 0) by lia.
  rewrite nth_app_len by lia. reflexivity.
Qed.

Lemma backToStart_le (fuel : nat) (p : bytes) (start lim : Z) :
  backToStart fuel p start lim <= start.
Proof.
  revert start. induction fuel as [|fuel IH]; intros start; cbn [backToStart];
    [lia|].
  destruct (start >=? lim); [|lia].
  destruct (RuneStart _); [lia|]. specialize (IH (start - 1)). lia.
Qed.

Lemma DecodeRune_single_width (b : byte) : snd (DecodeRune [b]) = 1.
Proof.
  rewrite DecodeRune_decodeBytes.
  pose proof (decodeBytes_width [b] ltac:(discriminate)) as H.
  change (len [b]) with 1 in H. lia.
Qed.

(** What [DecodeLastRune] returns for a text that is not empty: a width
    within the text, which is the width [DecodeRune] finds at that place;
    and when the rune is white space, the bytes it covers are that rune. *)
Lemma DecodeLastRune_spec (z : bytes) :
  z <> [] ->
  exists r size,
    DecodeLastRune z = (r, size)
    /\ 1 <= size <= len z
    /\ snd (DecodeRune (slice z (len z - size) (len z))) = size
    /\ (IsSpace r = true -> SpaceRune (slice z (len z - size) (len z))).
Proof.
  intros Hne.
  assert (Hlen : 0 < len z).
  { destruct z; [contradiction|]. rewrite len_cons. pose proof (len_nonneg z). lia. }
  unfold DecodeLastRune. cbv zeta.
  replace (len z =? 0) with false by (symmetry; apply Z.eqb_neq; lia).
  set (c := nth (Z.to_nat (len z - 1)) z x00).
  destruct (Z.ltb_spec (u8 c) RuneSelf) as [Hascii|Hnon].
  - exists (u8 c), 1. split; [reflexivity|]. split; [lia|].
    rewrite slice_last by assumption. fold c.
    rewrite DecodeRune_ascii by assumption. split; [reflexivity|].
    intros Hs. split; [discriminate|].
    rewrite DecodeRune_ascii by assumption. split; [reflexivity|assumption].
  - set (start := Z.max 0 (backToStart 4 z (len z - 1 - 1) (Z.max 0 (len z - UTFMax)))).
    assert (Hstart : 0 <= start <= len z - 1).
    { unfold start.
      pose proof (backToStart_le 4 z (len z - 1 - 1) (Z.max 0 (len z - UTFMax))).
      lia. }
    assert (Hsl : len (slice z start (len z)) = len z - start)
      by (unfold slice, len in *; rewrite length_firstn, length_skipn; lia).
    assert (Hsne : slice z start (len z) <> [])
      by (intros H; rewrite H, len_nil in Hsl; lia).
    destruct (DecodeRune (slice z start (len z))) as [r' size'] eqn:E.
    pose proof (decodeBytes_width _ Hsne) as Hw.
    rewrite <- DecodeRune_decodeBytes, E in Hw. cbn [snd] in Hw.
    destruct (Z.eqb_spec (start + size') (len z)) as [Heq|Hneq]; cbn [negb].
    + exists r', size'. split; [reflexivity|]. split; [lia|].
      replace (len z - size') with start by lia. rewrite E.
      split; [reflexivity|]. intros Hs.
      split; [assumption|]. rewrite E. cbn [fst snd].
      split; [lia|assumption].
    + exists RuneError, 1. split; [reflexivity|]. split; [lia|].
      rewrite slice_last by assumption.
      split; [apply DecodeRune_single_width|].
      intros Hs. discriminate Hs.
Qed.

(** A white-space rune at the end of a text is what [DecodeLastRune]
    finds there, whatever comes before it. *)
Lemma DecodeLastRune_rune (pre q : bytes) :
  SpaceRune q -> DecodeLastRune (pre ++ q) = (fst (DecodeRune q), len q).
Proof.
  intros Hq. pose proof (len_nonneg pre) as Hpre.
  destruct (SpaceRune_shape q Hq) as [[c [-> [Hc Hs]]]|[a [t [-> [Hne [Ha [Hst [Ht Hl]]]]]]]].
  - unfold DecodeLastRune. cbv zeta. rewrite len_app. change (len [c]) with 1.
    replace (len pre + 1 =? 0) with false by (symmetry; apply Z.eqb_neq; lia).
    replace (len pre + 1 - 1) with (len pre + 0) by lia.
    rewrite nth_app_len by lia. to_nat_consts; cbn [nth].
    replace (u8 c <? RuneSelf) with true by (symmetry; apply Z.ltb_lt; assumption).
    rewrite DecodeRune_ascii by assumption. reflexivity.
  - destruct Hq as [_ [Hw Hsp]].
    assert (Hcont : forall b, In b t -> 128 <= u8 b /\ RuneStart b = false).
    { intros b Hb. rewrite Forall_forall in Ht. specialize (Ht b Hb).
      split; [|assumption]. rewrite RuneStart_spec in Ht.
      apply negb_false_iff, andb_true_iff in Ht. destruct Ht as [Ht _].
      apply Z.leb_le in Ht. assumption. }
    unfold DecodeLastRune. cbv zeta.
    set (q := a :: t) in *.
    assert (Hslice : slice (pre ++ q) (len pre) (len (pre ++ q)) = q)
      by apply slice_app_right.
    destruct (DecodeRune q) as [r n] eqn:E. cbn [fst snd] in *.
    assert (Hback : Z.max 0 (backToStart 4 (pre ++ q) (len (pre ++ q) - 1 - 1)
                               (Z.max 0 (len (pre ++ q) - UTFMax)))
                    = len pre
                    /\ RuneSelf <= u8 (nth (Z.to_nat (len (pre ++ q) - 1)) (pre ++ q) x00)).
    { unfold q, UTFMax, RuneSelf in *. clear Hslice E.
      destruct t as [|b1 [|b2 [|b3 [|b4 t']]]]; [contradiction| | | |].
      - rewrite len_app. change (len [a; b1]) with 2.
        replace (len pre + 2 - 1 - 1) with (len pre + 0) by lia.
        replace (len pre + 2 - 1) with (len pre + 1) by lia.
        cbn [backToStart]. rewrite !nth_app_len by lia.
        to_nat_consts; cbn [nth].
        replace (len pre + 0 >=? Z.max 0 (len pre + 2 - 4)) with true
          by (symmetry; rewrite Z.geb_leb; apply Z.leb_le; lia).
        rewrite Hst. split; [lia|].
        apply (Hcont b1). now left.
      - rewrite len_app. change (len [a; b1; b2]) with 3.
        replace (len pre + 3 - 1 - 1) with (len pre + 1) by lia.
        replace (len pre + 3 - 1) with (len pre + 2) by lia.
        cbn [backToStart]. rewrite !nth_app_len by lia.
        replace (len pre + 1 - 1) with (len pre + 0) by lia.
        rewrite !nth_app_len by lia.
        to_nat_consts; cbn [nth].
        replace (len pre + 1 >=? Z.max 0 (len pre + 3 - 4)) with true
          by (symmetry; rewrite Z.geb_leb; apply Z.leb_le; lia).
        replace (len pre + 0 >=? Z.max 0 (len pre + 3 - 4)) with true
          by (symmetry; rewrite Z.geb_leb; apply Z.leb_le; lia).
        rewrite (proj2 (Hcont b1 ltac:(now left))), Hst. split; [lia|].
        apply (Hcont b2). right. now left.
      - rewrite len_app. change (len [a; b1; b2; b3]) with 4.
        replace (len pre + 4 - 1 - 1) with (len pre + 2) by lia.
        replace (len pre + 4 - 1) with (len pre + 3) by lia.
        cbn [backToStart]. rewrite !nth_app_len by lia.
        replace (len pre + 2 - 1) with (len pre + 1) by lia.
        rewrite !nth_app_len by lia.
        replace (len pre + 1 - 1) with (len pre + 0) by lia.
        rewrite !nth_app_len by lia.
        to_nat_consts; cbn [nth].
        replace (len pre + 2 >=? Z.max 0 (len pre + 4 - 4)) with true
          by (symmetry; rewrite Z.geb_leb; apply Z.leb_le; lia).
        replace (len pre + 1 >=? Z.max 0 (len pre + 4 - 4)) with true
          by (symmetry; rewrite Z.geb_leb; apply Z.leb_le; lia).
        replace (len pre + 0 >=? Z.max 0 (len pre + 4 - 4)) with true
          by (symmetry; rewrite Z.geb_leb; apply Z.leb_le; lia).
        rewrite (proj2 (Hcont b2 ltac:(right; now left))),
                (proj2 (Hcont b1 ltac:(now left))), Hst. split; [lia|].
        apply (Hcont b3). right. right. now left.
      - exfalso. rewrite !len_cons in Hl. pose proof (len_nonneg t'). lia. }
    destruct Hback as [Hback Hlast].
    assert (Hpos : 0 < len q).
    { unfold q. rewrite len_cons. pose proof (len_nonneg t). lia. }
    replace (len (pre ++ q) =? 0) with false
      by (symmetry; apply Z.eqb_neq; rewrite len_app; lia).
    replace (u8 (nth (Z.to_nat (len (pre ++ q) - 1)) (pre ++ q) x00) <? RuneSelf)
      with false by (symmetry; apply Z.ltb_ge; assumption).
    rewrite Hback, Hslice, E.
    replace (len pre + n =? len (pre ++ q)) with true
      by (symmetry; apply Z.eqb_eq; rewrite len_app; lia).
    cbn [negb]. rewrite Hw. reflexivity.
Qed.

(** ** Runs of white space *)

Lemma SpaceRune_len_pos (q : bytes) : SpaceRune q -> 0 < len q.
Proof.
  intros [Hne _]. destruct q; [contradiction|]. rewrite len_cons.
  pose proof (len_nonneg q). lia.
Qed.

Lemma SpaceRune_ascii (c : byte) : asciiSpace c = true -> SpaceRune [c].
Proof.
  intros Hc. pose proof (asciiSpace_ascii c Hc) as Hlt.
  split; [discriminate|]. rewrite DecodeRune_ascii by assumption.
  split; [reflexivity|]. cbn [fst]. rewrite IsSpace_ascii; assumption.
Qed.

Lemma SpaceRune_head_start (q : bytes) :
  SpaceRune q -> exists c q', q = c :: q' /\ RuneStart c = true.
Proof.
  intros Hq.
  destruct (SpaceRune_shape q Hq) as [[c [-> [Hc Hs]]]|[a [t [-> [_ [_ [Hst _]]]]]]].
  - exists c, []. split; [reflexivity|]. rewrite RuneStart_spec.
    apply negb_true_iff, andb_false_iff. left. apply Z.leb_gt. assumption.
  - exists a, t. split; [reflexivity|assumption].
Qed.

Lemma SpaceRunes_rune (q : bytes) : SpaceRune q -> SpaceRunes q.
Proof.
  intros Hq. rewrite <- (app_nil_r q). constructor; [assumption|constructor].
Qed.

Lemma SpaceRunes_app (P Q : bytes) : SpaceRunes P -> SpaceRunes Q -> SpaceRunes (P ++ Q).
Proof.
  induction 1 as [|q X Hq HX IH]; intros HQ; [assumption|].
  rewrite <- app_assoc. constructor; [assumption|]. apply IH. assumption.
Qed.

Lemma SpaceRunesRev_rune (q : bytes) : SpaceRune q -> SpaceRunesRev q.
Proof.
  intros Hq. change q with ([] ++ q). constructor; [constructor|assumption].
Qed.

Lemma SpaceRunesRev_app (P Q : bytes) : SpaceRunesRev P -> SpaceRunesRev Q -> SpaceRunesRev (P ++ Q).
Proof.
  intros HP. induction 1 as [|X q HX IH Hq]; [rewrite app_nil_r; assumption|].
  rewrite app_assoc. constructor; assumption.
Qed.

Lemma SpaceRunes_ascii (A : bytes) :
  Forall (fun c => asciiSpace c = true) A -> SpaceRunes A.
Proof.
  induction 1 as [|c A Hc HA IH]; [constructor|].
  change (c :: A) with ([c] ++ A). constructor; [|assumption].
  apply SpaceRune_ascii. assumption.
Qed.

Lemma SpaceRunesRev_ascii (A : bytes) :
  Forall (fun c => asciiSpace c = true) A -> SpaceRunesRev A.
Proof.
  induction 1 as [|c A Hc HA IH]; [constructor|].
  change (c :: A) with ([c] ++ A). apply SpaceRunesRev_app; [|assumption].
  apply SpaceRunesRev_rune, SpaceRune_ascii. assumption.
Qed.

(** A run counted from the right starts, when it is not empty, with a byte
    that starts a rune. *)
Lemma SpaceRunesRev_head_start (S : bytes) :
  SpaceRunesRev S -> S = [] \/ exists c S', S = c :: S' /\ RuneStart c = true.
Proof.
  induction 1 as [|X q HX IH Hq]; [now left|]. right.
  destruct IH as [->|[c [X' [-> Hc]]]].
  - cbn [app]. apply SpaceRune_head_start. assumption.
  - exists c, (X' ++ q). split; [reflexivity|assumption].
Qed.

(** ** The forward loop: indexFunc and TrimLeftFunc *)

(** Every text is a run of white space followed by nothing or by a rune
    that is not white space. *)
Lemma ws_prefix_split (y : bytes) :
  exists P y', y = P ++ y' /\ SpaceRunes P
    /\ (y' = [] \/ IsSpace (fst (DecodeRune y')) = false).
Proof.
  remember (List.length y) as k eqn:Hk. revert y Hk.
  induction k as [k IH] using lt_wf_ind. intros y Hk.
  destruct y as [|c t] eqn:Ey.
  { exists [], []. split; [reflexivity|]. split; [constructor|now left]. }
  rewrite <- Ey in *.
  destruct (DecodeRune y) as [r n] eqn:E.
  destruct (IsSpace r) eqn:Hs.
  - assert (Hne : y <> []) by (rewrite Ey; discriminate).
    destruct (SpaceRune_of_decode y r n Hne E Hs) as [Hq Hsplit].
    pose proof (SpaceRune_len_pos _ Hq) as Hpos.
    destruct (IH (List.length (skipn (Z.to_nat n) y))) with (y := skipn (Z.to_nat n) y)
      as [P [y' [Hy [HP Hy']]]].
    + rewrite Hsplit in Hk at 1. rewrite length_app in Hk.
      unfold len in Hpos. lia.
    + reflexivity.
    + exists (firstn (Z.to_nat n) y ++ P), y'.
      split; [rewrite <- app_assoc, <- Hy; assumption|].
      split; [constructor; assumption|assumption].
  - exists [], y. split; [reflexivity|]. split; [constructor|].
    right. rewrite E. assumption.
Qed.

(** The loop of [indexFunc] over a run of white space. *)
Lemma indexFunc_from_SpaceRunes (P : bytes) :
  SpaceRunes P ->
  forall (fuel : nat) (y' : bytes) (start : Z),
    (List.length (P ++ y') <= fuel)%nat ->
    (y' = [] \/ IsSpace (fst (DecodeRune y')) = false) ->
    indexFunc_from fuel (P ++ y') IsSpace false start
    = match y' with [] => -1 | _ => start + len P end.
Proof.
  induction 1 as [|q X Hq HX IH]; intros fuel y' start Hfuel Hy'.
  - cbn [app] in *. destruct y' as [|c t].
    + destruct fuel; reflexivity.
    + destruct fuel as [|fuel]; [cbn in Hfuel; lia|].
      cbn [indexFunc_from]. rewrite rune_at_head.
      destruct Hy' as [H|H]; [discriminate|].
      destruct (DecodeRune (c :: t)) as [r n]. cbn [fst] in H. rewrite H.
      cbn [Bool.eqb]. rewrite len_nil. lia.
  - pose proof (SpaceRune_len_pos _ Hq) as Hpos.
    destruct (SpaceRune_head_start q Hq) as [c [q' [Eq _]]].
    rewrite <- app_assoc in *.
    destruct fuel as [|fuel].
    { rewrite length_app in Hfuel. unfold len in Hpos. lia. }
    assert (Hcons : q ++ X ++ y' = c :: (q' ++ X ++ y')) by (rewrite Eq; reflexivity).
    rewrite Hcons. cbn [indexFunc_from]. rewrite rune_at_head, <- Hcons.
    rewrite SpaceRune_decode_app by assumption.
    destruct Hq as [_ [Hw Hs]].
    destruct (DecodeRune q) as [r n]. cbn [fst snd] in *. rewrite Hs.
    cbn [Bool.eqb]. subst n.
    replace (skipn (Z.to_nat (len q)) (q ++ X ++ y')) with (X ++ y')
      by (unfold len; rewrite Nat2Z.id, skipn_app, skipn_all, Nat.sub_diag;
          reflexivity).
    rewrite IH; [|rewrite length_app in Hfuel; unfold len in Hpos; lia
                 |assumption].
    destruct y'; [reflexivity|]. rewrite len_app. lia.
Qed.

(** [TrimLeftFunc] takes the run of white space at the head away. *)
Lemma TrimLeftFunc_split (P y' : bytes) :
  SpaceRunes P -> (y' = [] \/ IsSpace (fst (DecodeRune y')) = false) ->
  TrimLeftFunc (P ++ y') IsSpace = y'.
Proof.
  intros HP Hy'. unfold TrimLeftFunc, indexFunc.
  rewrite indexFunc_from_SpaceRunes by (try assumption; lia).
  destruct y' as [|c t]; [reflexivity|].
  pose proof (len_nonneg P).
  replace (0 + len P =? -1) with false by (symmetry; apply Z.eqb_neq; lia).
  replace (0 + len P) with (len P) by lia. apply slice_app_right.
Qed.

(** ** The backward loop: lastIndexFunc and TrimRightFunc *)

Lemma slice_split {A : Type} (z : list A) (k : Z) :
  0 <= k <= len z -> z = slice z 0 k ++ slice z k (len z).
Proof.
  intros Hk. unfold slice. cbn [Z.to_nat skipn].
  rewrite Z.sub_0_r.
  rewrite (firstn_all2 (n := Z.to_nat (len z - k)))
    by (rewrite length_skipn; unfold len in *; lia).
  symmetry. apply firstn_skipn.
Qed.

Lemma len_slice0 {A : Type} (z : list A) (k : Z) :
  0 <= k <= len z -> len (slice z 0 k) = k.
Proof.
  intros Hk. unfold slice, len in *. cbn [Z.to_nat skipn].
  rewrite length_firstn. lia.
Qed.

Lemma slice_app_from {A : Type} (z S : list A) (j : Z) :
  0 <= j <= len z ->
  slice (z ++ S) j (len (z ++ S)) = slice z j (len z) ++ S.
Proof.
  intros Hj. unfold slice. rewrite len_app.
  rewrite skipn_app.
  replace (Z.to_nat j - List.length z)%nat with 0%nat by (unfold len in *; lia).
  cbn [skipn].
  rewrite firstn_all2
    by (rewrite length_app, length_skipn; unfold len in *; lia).
  rewrite (firstn_all2 (n := Z.to_nat (len z - j)))
    by (rewrite length_skipn; unfold len in *; lia).
  reflexivity.
Qed.

Lemma slice_app_prefix {A : Type} (z S : list A) (k : Z) :
  0 <= k <= len z -> slice (z ++ S) 0 k = slice z 0 k.
Proof.
  intros Hk. unfold slice. cbn [Z.to_nat skipn]. rewrite Z.sub_0_r.
  rewrite firstn_app.
  replace (Z.to_nat k - List.length z)%nat with 0%nat by (unfold len in *; lia).
  cbn [firstn]. apply app_nil_r.
Qed.

Lemma skipn_head {A : Type} (n : nat) (d : A) :
  forall z : list A,
    (n < List.length z)%nat -> exists w', skipn n z = nth n z d :: w'.
Proof.
  induction n as [|n IH]; intros z Hn; destruct z as [|c t];
    try (cbn in Hn; lia).
  - exists t. reflexivity.
  - cbn [skipn nth]. apply IH. cbn in Hn. lia.
Qed.

Lemma slice_head_nth (z : bytes) (j : Z) :
  0 <= j < len z ->
  exists w', slice z j (len z) = nth (Z.to_nat j) z x00 :: w'.
Proof.
  intros Hj. unfold slice.
  rewrite firstn_all2 by (rewrite length_skipn; unfold len in *; lia).
  apply skipn_head. unfold len in *. lia.
Qed.

(** What the rune loop of [lastIndexFunc] reads at the end of [s[0:i]] is
    what [DecodeLastRune] reads there. *)
Lemma rune_at_end (s : bytes) (i : Z) :
  0 < i <= len s ->
  (if u8 (nth (Z.to_nat (i - 1)) s x00) >=? RuneSelf
   then DecodeLastRune (slice s 0 i)
   else (u8 (nth (Z.to_nat (i - 1)) s x00), 1))
  = DecodeLastRune (slice s 0 i).
Proof.
  intros Hi.
  destruct (Z.geb_spec (u8 (nth (Z.to_nat (i - 1)) s x00)) RuneSelf) as [H|H];
    [reflexivity|].
  unfold DecodeLastRune. cbv zeta. rewrite len_slice0 by lia.
  replace (i =? 0) with false by (symmetry; apply Z.eqb_neq; lia).
  assert (Hnth : nth (Z.to_nat (i - 1)) (slice s 0 i) x00
                 = nth (Z.to_nat (i - 1)) s x00).
  { unfold slice. cbn [Z.to_nat skipn]. rewrite Z.sub_0_r, nth_firstn.
    replace (Nat.ltb (Z.to_nat (i - 1)) (Z.to_nat i)) with true
      by (symmetry; apply Nat.ltb_lt; lia).
    reflexivity. }
  rewrite Hnth.
  replace (u8 (nth (Z.to_nat (i - 1)) s x00) <? RuneSelf) with true
    by (symmetry; apply Z.ltb_lt; assumption).
  reflexivity.
Qed.

(** Every text is nothing or a text whose last rune is not white space,
    followed by a run of white space. *)
Lemma ws_suffix_split (z : bytes) :
  exists z' S, z = z' ++ S /\ SpaceRunesRev S
    /\ (z' = [] \/ IsSpace (fst (DecodeLastRune z')) = false).
Proof.
  remember (List.length z) as k eqn:Hk. revert z Hk.
  induction k as [k IH] using lt_wf_ind. intros z Hk.
  destruct z as [|c t] eqn:Ez.
  { exists [], []. split; [reflexivity|]. split; [constructor|now left]. }
  rewrite <- Ez in *.
  assert (Hne : z <> []) by (rewrite Ez; discriminate).
  destruct (DecodeLastRune_spec z Hne) as [r [size [E [Hsize [Hw Hchunk]]]]].
  destruct (IsSpace r) eqn:Hs.
  - specialize (Hchunk eq_refl).
    pose proof (slice_split z (len z - size) ltac:(lia)) as Hsplit.
    destruct (IH (List.length (slice z 0 (len z - size))))
      with (z := slice z 0 (len z - size)) as [z' [S [Hz [HS Hz']]]].
    + pose proof (len_slice0 z (len z - size) ltac:(lia)) as Hl.
      unfold len in *. lia.
    + reflexivity.
    + exists z', (S ++ slice z (len z - size) (len z)).
      split; [rewrite app_assoc, <- Hz; assumption|].
      split; [constructor; assumption|assumption].
  - exists z, []. split; [symmetry; apply app_nil_r|].
    split; [constructor|]. right. rewrite E. assumption.
Qed.

(** The loop of [lastIndexFunc] over a run of white space at the end of
    [s[0:i]]. *)
Lemma lastIndexFunc_from_SpaceRunesRev (S : bytes) :
  SpaceRunesRev S ->
  forall (fuel : nat) (s z' : bytes) (i : Z),
    slice s 0 i = z' ++ S -> 0 <= i <= len s -> i <= Z.of_nat fuel ->
    (z' = [] \/ IsSpace (fst (DecodeLastRune z')) = false) ->
    lastIndexFunc_from fuel s IsSpace false i
    = match z' with
      | [] => -1
      | _ => len z' - snd (DecodeLastRune z')
      end.
Proof.
  induction 1 as [|X q HX IH Hq]; intros fuel s z' i Hsl Hi Hfuel Hz'.
  - rewrite app_nil_r in Hsl.
    pose proof (len_slice0 s i Hi) as Hl. rewrite Hsl in Hl.
    destruct z' as [|c t].
    + rewrite len_nil in Hl. subst i. destruct fuel; reflexivity.
    + assert (0 < i) by (rewrite len_cons in Hl; pose proof (len_nonneg t); lia).
      destruct fuel as [|fuel]; [lia|].
      cbn [lastIndexFunc_from]. cbv zeta.
      replace (i >? 0) with true by (symmetry; apply Z.gtb_lt; lia).
      rewrite (rune_at_end s i) by lia. rewrite Hsl.
      destruct Hz' as [Hz'|Hz']; [discriminate|].
      destruct (DecodeLastRune (c :: t)) as [r size]. cbn [fst snd] in *.
      rewrite Hz'. cbn [Bool.eqb]. lia.
  - pose proof (SpaceRune_len_pos _ Hq) as Hpos.
    pose proof (len_slice0 s i Hi) as Hl. rewrite Hsl, !len_app in Hl.
    pose proof (len_nonneg z'). pose proof (len_nonneg X).
    destruct fuel as [|fuel]; [lia|].
    cbn [lastIndexFunc_from]. cbv zeta.
    replace (i >? 0) with true by (symmetry; apply Z.gtb_lt; lia).
    rewrite (rune_at_end s i) by lia. rewrite Hsl, !app_assoc.
    rewrite DecodeLastRune_rune by assumption.
    destruct Hq as [_ [_ Hs]]. rewrite Hs. cbn [Bool.eqb].
    apply IH; try assumption; try lia.
    assert (Hpre : slice s 0 (i - len q) = slice (slice s 0 i) 0 (i - len q)).
    { rewrite (slice_split s i) at 1 by lia.
      rewrite slice_app_prefix; [reflexivity|].
      rewrite len_slice0 by lia. lia. }
    rewrite Hpre, Hsl, app_assoc.
    replace (i - len q) with (len (z' ++ X)) by (rewrite len_app; lia).
    apply slice_app_left.
Qed.

(** [TrimRightFunc] takes the run of white space at the end away. *)
Lemma TrimRightFunc_split (z' S : bytes) :
  SpaceRunesRev S -> (z' = [] \/ IsSpace (fst (DecodeLastRune z')) = false) ->
  TrimRightFunc (z' ++ S) IsSpace = z'.
Proof.
  intros HS Hz'. unfold TrimRightFunc, lastIndexFunc. cbv zeta.
  rewrite (lastIndexFunc_from_SpaceRunesRev S HS _ (z' ++ S) z' (len (z' ++ S)));
    [|apply slice_all|pose proof (len_nonneg (z' ++ S)); lia|unfold len; lia
     |assumption].
  destruct z' as [|c t] eqn:Ez; [reflexivity|]. rewrite <- Ez in *.
  assert (Hne : z' <> []) by (rewrite Ez; discriminate).
  destruct (DecodeLastRune_spec z' Hne) as [r [size [E [Hsize [Hw _]]]]].
  rewrite E. cbn [snd].
  set (j := len z' - size) in *.
  replace (j >=? 0) with true by (symmetry; rewrite Z.geb_leb; apply Z.leb_le; lia).
  cbn [andb].
  rewrite slice_app_from by lia.
  destruct (slice_head_nth z' j ltac:(lia)) as [w' Hhead].
  assert (Hnth : nth (Z.to_nat j) (z' ++ S) x00 = nth (Z.to_nat j) z' x00)
    by (apply app_nth1; unfold len in *; lia).
  rewrite Hnth.
  assert (Hwid : snd (DecodeRune (slice z' j (len z') ++ S)) = size).
  { rewrite !DecodeRune_decodeBytes in *.
    rewrite decodeBytes_app_start; [assumption| |].
    - rewrite Hhead. discriminate.
    - apply SpaceRunesRev_head_start. assumption. }
  assert (Hres : slice (z' ++ S) 0 (j + size) = z').
  { replace (j + size) with (len z') by (unfold j; lia). apply slice_app_left. }
  destruct (Z.geb_spec (u8 (nth (Z.to_nat j) z' x00)) RuneSelf) as [Hge|Hlt].
  - rewrite Hwid. exact Hres.
  - rewrite Hhead in Hw. rewrite DecodeRune_ascii in Hw by assumption.
    cbn [snd] in Hw. rewrite Hw. exact Hres.
Qed.

(** ** TrimFunc, and the two TrimSpace *)

Lemma SpaceRunesRev_to_SpaceRunes (S : bytes) : SpaceRunesRev S -> SpaceRunes S.
Proof.
  induction 1 as [|X q HX IH Hq]; [constructor|].
  apply SpaceRunes_app; [assumption|apply SpaceRunes_rune; assumption].
Qed.

Lemma SpaceRunes_to_SpaceRunesRev (P : bytes) : SpaceRunes P -> SpaceRunesRev P.
Proof.
  induction 1 as [|q X Hq HX IH]; [constructor|].
  apply SpaceRunesRev_app; [apply SpaceRunesRev_rune; assumption|assumption].
Qed.

(** Every text is a run of white space, then what [TrimFunc] keeps of it,
    then a run of white space. *)
Lemma TrimFunc_split (data : bytes) :
  exists P S,
    data = P ++ TrimFunc data IsSpace ++ S /\ SpaceRunes P /\ SpaceRunesRev S.
Proof.
  destruct (ws_prefix_split data) as [P [y' [Hd [HP Hy']]]].
  destruct (ws_suffix_split y') as [z' [S [Hy [HS Hz']]]].
  exists P, S.
  assert (E : TrimFunc data IsSpace = z').
  { unfold TrimFunc. rewrite Hd, TrimLeftFunc_split by assumption.
    rewrite Hy. apply TrimRightFunc_split; assumption. }
  rewrite E, <- Hy. repeat split; assumption.
Qed.

(** White space in front changes nothing to what [TrimFunc] keeps. *)
Lemma TrimFunc_left (P y : bytes) :
  SpaceRunes P -> TrimFunc (P ++ y) IsSpace = TrimFunc y IsSpace.
Proof.
  intros HP. destruct (ws_prefix_split y) as [P' [y' [Hy [HP' Hy']]]].
  unfold TrimFunc. rewrite Hy at 1 2.
  rewrite (TrimLeftFunc_split P' y') by assumption.
  rewrite app_assoc, TrimLeftFunc_split; [reflexivity| |assumption].
  apply SpaceRunes_app; assumption.
Qed.

(** Nor does white space at the end. *)
Lemma TrimFunc_right (y S : bytes) :
  SpaceRunesRev S -> TrimFunc (y ++ S) IsSpace = TrimFunc y IsSpace.
Proof.
  intros HS. destruct (ws_prefix_split y) as [P' [y' [Hy [HP' Hy']]]].
  unfold TrimFunc. rewrite Hy at 1 2.
  rewrite (TrimLeftFunc_split P' y') by assumption.
  rewrite <- app_assoc.
  destruct y' as [|c t] eqn:Ey'.
  - cbn [app]. rewrite <- (app_nil_r (P' ++ S)), TrimLeftFunc_split;
      [reflexivity| |now left].
    apply SpaceRunes_app; [assumption|apply SpaceRunesRev_to_SpaceRunes; assumption].
  - rewrite <- Ey' in *.
    assert (Hne : y' <> []) by (rewrite Ey'; discriminate).
    rewrite TrimLeftFunc_split; [|assumption|].
    + destruct (ws_suffix_split y') as [z' [S' [Hz [HS' Hz']]]].
      rewrite Hz at 1 2. rewrite <- app_assoc.
      rewrite !TrimRightFunc_split; try assumption; [reflexivity|].
      apply SpaceRunesRev_app; assumption.
    + right. destruct Hy' as [H|H]; [contradiction|].
      rewrite DecodeRune_decodeBytes in *.
      rewrite decodeBytes_app_start; [assumption|assumption|].
      apply SpaceRunesRev_head_start. assumption.
Qed.

(** The second loop of [TrimSpace], on the text read backwards. *)
Lemma scanStop_split (r : bytes) :
  forall stop : Z,
  exists Bq r' : bytes,
    r = Bq ++ r'
    /\ Forall (fun c => asciiSpace c = true) Bq
    /\ ((r' = [] /\ scanStop r stop = Stopped (stop - len Bq))
        \/ (exists d r'', r' = d :: r'' /\ u8 d < RuneSelf
              /\ asciiSpace d = false
              /\ scanStop r stop = Stopped (stop - len Bq))
        \/ (exists d r'', r' = d :: r'' /\ RuneSelf <= u8 d
              /\ scanStop r stop = NonASCII (stop - len Bq))).
Proof.
  induction r as [|c t IH]; intros k.
  - exists [], []. split; [reflexivity|]. split; [constructor|].
    left. split; [reflexivity|]. cbn. f_equal. lia.
  - cbn [scanStop].
    destruct (Z.geb_spec (u8 c) RuneSelf) as [Hge|Hlt].
    + exists [], (c :: t). split; [reflexivity|]. split; [constructor|].
      right. right. exists c, t. split; [reflexivity|]. split; [assumption|].
      f_equal. cbn. lia.
    + destruct (asciiSpace c) eqn:Esp.
      * destruct (IH (k - 1)) as [A [t' [Ht [HA Hcases]]]].
        exists (c :: A), t'. split; [rewrite Ht; reflexivity|].
        split; [constructor; assumption|].
        rewrite len_cons.
        replace (k - (len A + 1)) with (k - 1 - len A) by lia.
        exact Hcases.
      * exists [], (c :: t). split; [reflexivity|]. split; [constructor|].
        right. left. exists c, t.
        split; [reflexivity|]. split; [assumption|]. split; [assumption|].
        f_equal. cbn. lia.
Qed.

Lemma DecodeLastRune_ascii (pre : bytes) (d : byte) :
  u8 d < RuneSelf -> DecodeLastRune (pre ++ [d]) = (u8 d, 1).
Proof.
  intros Hd. unfold DecodeLastRune. cbv zeta.
  rewrite len_app. change (len [d]) with 1. pose proof (len_nonneg pre).
  replace (len pre + 1 =? 0) with false by (symmetry; apply Z.eqb_neq; lia).
  replace (len pre + 1 - 1) with (len pre + 0) by lia.
  rewrite nth_app_len by lia. to_nat_consts. cbn [nth].
  replace (u8 d <? RuneSelf) with true by (symmetry; apply Z.ltb_lt; assumption).
  reflexivity.
Qed.

Lemma Forall_rev_ascii (B : bytes) :
  Forall (fun c => asciiSpace c = true) B ->
  Forall (fun c => asciiSpace c = true) (rev B).
Proof.
  intros H. apply Forall_forall. intros c Hc. apply in_rev in Hc.
  rewrite Forall_forall in H. apply H. assumption.
Qed.

(** What the two fast loops of [TrimSpace] leave to do, in one statement
    for [bytes.TrimSpace] and [strings.TrimSpace]: [fallback] is what the
    second loop falls back to. *)
Lemma fast_path (fallback : bytes -> bytes) (s : bytes) :
  (forall x c t, x = c :: t -> u8 c < RuneSelf -> asciiSpace c = false ->
                 fallback x = TrimFunc x IsSpace) ->
  match scanStart s 0 with
  | NonASCII start => TrimFunc (slice s start (len s)) IsSpace
  | Stopped start =>
      match scanStop (rev_append (slice s start (len s)) []) (len s) with
      | NonASCII stop => fallback (slice s start stop)
      | Stopped stop => slice s start stop
      end
  end = TrimFunc s IsSpace.
Proof.
  intros Hfb.
  destruct (scanStart_split s 0) as [A [s' [Hs [HA Hcases]]]].
  assert (Hslice : slice s (0 + len A) (len s) = s').
  { rewrite Hs. replace (0 + len A) with (len A) by lia.
    apply slice_app_right. }
  assert (HTF : TrimFunc s IsSpace = TrimFunc s' IsSpace)
    by (rewrite Hs; apply TrimFunc_left, SpaceRunes_ascii; assumption).
  destruct Hcases as [[Hs' ->]|[[c [t'' [Hs' [Hc [Hsp ->]]]]]|[c [t'' [Hs' [Hc ->]]]]]].
  - rewrite Hslice, Hs'. cbn [rev_append scanStop].
    rewrite HTF, Hs'. unfold slice.
    replace (Z.to_nat (len s - (0 + len A))) with 0%nat
      by (rewrite Hs, Hs', app_nil_r; lia).
    reflexivity.
  - rewrite Hslice, rev_append_rev, app_nil_r.
    destruct (scanStop_split (rev s') (len s)) as [Bq [r' [Hr [HB Hcases]]]].
    assert (Hs'' : s' = rev r' ++ rev Bq)
      by (rewrite <- rev_app_distr, <- Hr, rev_involutive; reflexivity).
    assert (Hstop : slice s (0 + len A) (len s - len Bq) = rev r').
    { rewrite Hs, Hs'', !len_app.
      replace (len (rev Bq)) with (len Bq) by (unfold len; rewrite length_rev; reflexivity).
      replace (0 + len A) with (len A) by lia.
      replace (len A + (len (rev r') + len Bq) - len Bq)
        with (len A + len (rev r')) by lia.
      unfold slice.
      replace (Z.to_nat (len A + len (rev r') - len A))
        with (List.length (rev r')) by (unfold len; lia).
      unfold len. rewrite Nat2Z.id, skipn_app, skipn_all, Nat.sub_diag.
      cbn [skipn app]. rewrite firstn_app, firstn_all, Nat.sub_diag.
      cbn [firstn]. apply app_nil_r. }
    assert (HTF' : TrimFunc s' IsSpace = TrimFunc (rev r') IsSpace).
    { rewrite Hs''. apply TrimFunc_right, SpaceRunesRev_ascii, Forall_rev_ascii.
      assumption. }
    assert (Hhead : forall d r'', r' = d :: r'' ->
              exists t3, rev r' = c :: t3).
    { intros d r'' Er. rewrite Hs' in Hs''.
      destruct (rev r') as [|x t3] eqn:E.
      - apply (f_equal (@rev byte)) in E. rewrite rev_involutive in E.
        rewrite Er in E. cbn in E. destruct (rev r''); discriminate.
      - exists t3. cbn [app] in Hs''. injection Hs'' as <- _. reflexivity. }
    assert (HTL : forall t3, rev r' = c :: t3 ->
              TrimLeftFunc (rev r') IsSpace = rev r').
    { intros t3 E. rewrite <- (app_nil_l (rev r')) at 1.
      apply TrimLeftFunc_split; [constructor|]. right. rewrite E.
      rewrite DecodeRune_ascii by assumption. cbn [fst].
      rewrite IsSpace_ascii by assumption. assumption. }
    destruct Hcases as [[Hr' ->]|[[d [r'' [Hr' [Hd [Hdsp ->]]]]]|[d [r'' [Hr' [Hd ->]]]]]].
    + exfalso. subst r'. cbn [rev app] in Hs''. rewrite Hs' in Hs''.
      assert (Hin : In c (rev Bq)) by (rewrite <- Hs''; now left).
      apply in_rev in Hin. rewrite Forall_forall in HB.
      specialize (HB c Hin). congruence.
    + rewrite Hstop, HTF, HTF'.
      destruct (Hhead d r'' Hr') as [t3 E3]. unfold TrimFunc.
      rewrite (HTL t3 E3).
      rewrite <- (app_nil_r (rev r')) at 2.
      symmetry. apply TrimRightFunc_split; [constructor|]. right.
      rewrite Hr'. cbn [rev]. rewrite DecodeLastRune_ascii by assumption.
      cbn [fst]. rewrite IsSpace_ascii by assumption. assumption.
    + rewrite Hstop, HTF, HTF'.
      destruct (Hhead d r'' Hr') as [t3 E3].
      apply (Hfb _ c t3 E3); assumption.
  - rewrite Hslice. symmetry. assumption.
Qed.

Lemma bytes_TrimSpace_TrimFunc (s : bytes) :
  GoBytes.TrimSpace s = TrimFunc s IsSpace.
Proof.
  unfold GoBytes.TrimSpace. apply (fast_path (fun x => TrimFunc x IsSpace)).
  reflexivity.
Qed.

Lemma strings_TrimSpace_TrimFunc (s : bytes) :
  Strings.TrimSpace s = TrimFunc s IsSpace.
Proof.
  unfold Strings.TrimSpace.
  apply (fast_path (fun x => TrimRightFunc x IsSpace)).
  intros x c t Ex Hc Hsp. unfold TrimFunc.
  rewrite <- (app_nil_l x) at 2. rewrite TrimLeftFunc_split;
    [reflexivity|constructor|].
  right. rewrite Ex. rewrite DecodeRune_ascii by assumption. cbn [fst].
  rewrite IsSpace_ascii by assumption. assumption.
Qed.

(** ** Lines of a text and lines of the trimmed text *)

Import Bufio ScannerFacts ParserFacts.

Lemma dropCR_TrimFunc (l : bytes) :
  TrimFunc (dropCR l) IsSpace = TrimFunc l IsSpace.
Proof.
  induction l as [|c pre _] using rev_ind; [reflexivity|].
  unfold dropCR. rewrite len_app. change (len [c]) with 1.
  pose proof (len_nonneg pre).
  replace (len pre + 1 >? 0) with true by (symmetry; apply Z.gtb_lt; lia).
  replace (len pre + 1 - 1) with (len pre + 0) by lia.
  rewrite nth_app_len by lia. to_nat_consts. cbn [nth andb].
  destruct (Byte.eqb c x0d) eqn:E.
  - apply Byte.byte_dec_bl in E. subst c.
    replace (len pre + 0) with (len pre) by lia.
    rewrite slice_app_left. symmetry. apply TrimFunc_right.
    apply SpaceRunesRev_ascii. repeat constructor.
  - reflexivity.
Qed.

(** The string handed to the decoder for a line is the line without the
    white space around it. *)
Lemma lineText_TrimFunc (l : bytes) : lineText l = TrimFunc l IsSpace.
Proof.
  unfold lineText. rewrite strings_TrimSpace_TrimFunc. apply dropCR_TrimFunc.
Qed.

Lemma SpaceRune_newline (q : bytes) : SpaceRune q -> q = [x0a] \/ ~ In x0a q.
Proof.
  intros H. destruct (SpaceRune_shape q H) as [[c [-> _]]|[a [t [-> [_ [Ha [_ [Ht _]]]]]]]].
  - destruct (Byte.eqb c x0a) eqn:E.
    + apply Byte.byte_dec_bl in E. subst c. now left.
    + apply Byte.eqb_false in E. right. intros [H1|[]]. congruence.
  - right. intros [H1|H1].
    + subst a. cbn in Ha. lia.
    + rewrite Forall_forall in Ht. specialize (Ht _ H1). discriminate.
Qed.

Lemma SpaceRune_TrimFunc (q : bytes) : SpaceRune q -> TrimFunc q IsSpace = [].
Proof.
  intros H. rewrite <- (app_nil_r q), TrimFunc_left by (apply SpaceRunes_rune; assumption).
  reflexivity.
Qed.

Lemma splitLines_nonempty (R : bytes) : R <> [] -> splitLines R <> [].
Proof.
  destruct R as [|x t]; [contradiction|]. intros _. cbn [splitLines].
  destruct (Byte.eqb x x0a); [discriminate|].
  destruct (splitLines t); discriminate.
Qed.

Lemma decodedTexts_cons (l : bytes) (ls : list bytes) :
  decodedTexts (l :: ls)
  = if blankLine l then decodedTexts ls else lineText l :: decodedTexts ls.
Proof.
  unfold decodedTexts. cbn [filter]. destruct (blankLine l); reflexivity.
Qed.

Lemma decodedTexts_head (l l' : bytes) (ls : list bytes) :
  lineText l = lineText l' ->
  decodedTexts (l :: ls) = decodedTexts (l' :: ls).
Proof.
  intros E. rewrite !decodedTexts_cons. unfold blankLine. rewrite E.
  reflexivity.
Qed.

Lemma lineText_rune_left (q l : bytes) :
  SpaceRune q -> lineText (q ++ l) = lineText l.
Proof.
  intros Hq. rewrite !lineText_TrimFunc.
  apply TrimFunc_left, SpaceRunes_rune. assumption.
Qed.

Lemma lineText_rune_right (q l : bytes) :
  SpaceRune q -> lineText (l ++ q) = lineText l.
Proof.
  intros Hq. rewrite !lineText_TrimFunc.
  apply TrimFunc_right, SpaceRunesRev_rune. assumption.
Qed.

Lemma blankLine_rune (q : bytes) : SpaceRune q -> blankLine q = true.
Proof.
  intros Hq. unfold blankLine.
  rewrite lineText_TrimFunc, SpaceRune_TrimFunc by assumption. reflexivity.
Qed.

(** A white-space character in front of a text changes nothing to what the
    decoder is handed for its lines. *)
Lemma decodedTexts_rune_left (q R : bytes) :
  SpaceRune q ->
  decodedTexts (splitLines (q ++ R)) = decodedTexts (splitLines R).
Proof.
  intros Hq.
  destruct (SpaceRune_newline q Hq) as [->|Hn].
  - cbn [app splitLines]. rewrite byte_eqb_refl. reflexivity.
  - pose proof (cut_app q R Hn) as Hc.
    destruct (cut R) as [l0 rest] eqn:Ec. cbn [fst snd] in Hc.
    destruct rest as [r|].
    + rewrite (splitLines_cut_some _ _ _ Hc), (splitLines_cut_some _ _ _ Ec).
      apply decodedTexts_head, lineText_rune_left. assumption.
    + assert (Hne : q ++ R <> []).
      { destruct Hq as [Hq _]. destruct q; [contradiction|discriminate]. }
      rewrite (splitLines_cut_none _ _ Hne Hc).
      destruct R as [|x t].
      * cbn in Ec. injection Ec as <-. rewrite app_nil_r.
        rewrite decodedTexts_cons, blankLine_rune by assumption.
        reflexivity.
      * rewrite (splitLines_cut_none (x :: t) l0) by (discriminate || assumption).
        apply decodedTexts_head, lineText_rune_left. assumption.
Qed.

(** Nor does one at its end. *)
Lemma decodedTexts_rune_right (q : bytes) :
  SpaceRune q ->
  forall R : bytes,
    decodedTexts (splitLines (R ++ q)) = decodedTexts (splitLines R).
Proof.
  intros Hq R. remember (List.length R) as k eqn:Hk. revert R Hk.
  induction k as [k IH] using lt_wf_ind. intros R Hk.
  destruct (cut R) as [l0 rest] eqn:Ec. destruct rest as [r|].
  - pose proof (splitLines_cut_some _ _ _ Ec) as ER.
    apply cut_some in Ec. destruct Ec as [HR Hn].
    assert (Ec' : cut (R ++ q) = (l0, Some (r ++ q))).
    { rewrite HR, <- app_assoc. cbn [app]. apply cut_app_newline. assumption. }
    rewrite (splitLines_cut_some _ _ _ Ec'), ER, !decodedTexts_cons.
    rewrite (IH (List.length r)) by
      (reflexivity || (subst k; rewrite HR, length_app; cbn [List.length]; lia)).
    reflexivity.
  - apply cut_none in Ec. destruct Ec as [HR Hn]. subst l0.
    destruct (SpaceRune_newline q Hq) as [->|Hnq].
    + assert (Ec' : cut (R ++ [x0a]) = (R, Some []))
        by (apply cut_app_newline; assumption).
      rewrite (splitLines_cut_some _ _ _ Ec'). cbn [splitLines].
      destruct R as [|x t]; [reflexivity|].
      rewrite splitLines_single by (discriminate || assumption).
      reflexivity.
    + assert (Hnn : ~ In x0a (R ++ q)).
      { intros H. apply in_app_or in H. tauto. }
      assert (Hne : R ++ q <> []).
      { destruct Hq as [Hq _]. destruct R; [assumption|discriminate]. }
      rewrite (splitLines_single _ Hne Hnn).
      destruct R as [|x t].
      * cbn [app splitLines].
        rewrite decodedTexts_cons, blankLine_rune by assumption.
        reflexivity.
      * rewrite splitLines_single by (discriminate || assumption).
        apply decodedTexts_head, lineText_rune_right. assumption.
Qed.

Lemma decodedTexts_strip_left (P : bytes) :
  SpaceRunes P ->
  forall R : bytes,
    decodedTexts (splitLines (P ++ R)) = decodedTexts (splitLines R).
Proof.
  induction 1 as [|q X Hq HX IH]; intros R; [reflexivity|].
  rewrite <- app_assoc, decodedTexts_rune_left by assumption. apply IH.
Qed.

Lemma decodedTexts_strip_right (S : bytes) :
  SpaceRunesRev S ->
  forall R : bytes,
    decodedTexts (splitLines (R ++ S)) = decodedTexts (splitLines R).
Proof.
  induction 1 as [|X q HX IH Hq]; intros R.
  - rewrite app_nil_r. reflexivity.
  - rewrite app_assoc, decodedTexts_rune_right by assumption. apply IH.
Qed.

(** A text is white space, what [bytes.TrimSpace] keeps of it, and white
    space again. *)
Lemma TrimSpace_split (data : bytes) :
  exists P S,
    data = P ++ GoBytes.TrimSpace data ++ S
    /\ SpaceRunes P /\ SpaceRunesRev S.
Proof.
  rewrite bytes_TrimSpace_TrimFunc. apply TrimFunc_split.
Qed.

(** What [bytes.TrimSpace] keeps does not start with white space. *)
Lemma TrimSpace_head (data : bytes) (c : byte) (t : bytes) :
  GoBytes.TrimSpace data = c :: t ->
  IsSpace (fst (DecodeRune (c :: t))) = false.
Proof.
  rewrite bytes_TrimSpace_TrimFunc. unfold TrimFunc.
  destruct (ws_prefix_split data) as [P [y' [Hd [HP Hy']]]].
  destruct (ws_suffix_split y') as [z' [S [Hy [HS Hz']]]].
  rewrite Hd, TrimLeftFunc_split by assumption.
  rewrite Hy at 1. rewrite TrimRightFunc_split by assumption.
  intros ->. destruct Hy' as [Hy'|Hy']; [rewrite Hy in Hy'; discriminate|].
  rewrite Hy, DecodeRune_decodeBytes in Hy'.
  rewrite decodeBytes_app_start in Hy';
    [|discriminate|apply SpaceRunesRev_head_start; assumption].
  rewrite DecodeRune_decodeBytes. assumption.
Qed.

(** The lines of a text and the lines of the trimmed text hand the same
    strings to the decoder, in the same order: trimming the text first
    only removes blank lines and white space that trimming each line
    removes too. *)
Lemma decodedTexts_TrimSpace (data : bytes) :
  decodedTexts (splitLines (GoBytes.TrimSpace data))
  = decodedTexts (splitLines data).
Proof.
  destruct (TrimSpace_split data) as [P [S [Hd [HP HS]]]].
  rewrite Hd at 2.
  rewrite decodedTexts_strip_left, decodedTexts_strip_right by assumption.
  reflexivity.
Qed.

(** Hence every line of a text that is not blank has a line of the trimmed
    text for which the decoder is handed the same string. *)
Lemma splitLines_TrimSpace (data l : bytes) :
  In l (splitLines data) ->
  blankLine l = false ->
  exists l', In l' (splitLines (GoBytes.TrimSpace data))
             /\ blankLine l' = false
             /\ lineText l' = lineText l.
Proof.
  intros Hin Hb.
  assert (H : In (lineText l) (decodedTexts (splitLines data))).
  { unfold decodedTexts. apply in_map, filter_In.
    split; [assumption|]. rewrite Hb. reflexivity. }
  rewrite <- decodedTexts_TrimSpace in H. unfold decodedTexts in H.
  apply in_map_iff in H. destruct H as [l' [E H]].
  apply filter_In in H. destruct H as [H Hb'].
  exists l'. split; [assumption|]. split; [|assumption].
  destruct (blankLine l'); [discriminate|reflexivity].
Qed.

End WhiteSpaceFacts.

(** ** parseExtendedJSON *)

Section ParserClaims.

Variable M : Type.
Variable DecodeError : Type.
Variable UnmarshalExtJSON_array : bytes -> bool -> DecodeError + list M.
Variable UnmarshalExtJSON_doc : bytes -> bool -> DecodeError + M.

#[local] Abbreviation parse :=
  (parseExtendedJSON UnmarshalExtJSON_array UnmarshalExtJSON_doc).

(** The parser always returns: the [None] of the model (a scanner that
    does not return, fuel that runs out) never shows. *)
Lemma parseExtendedJSON_returns (data : bytes) :
  exists r, parse data = Some r.
Proof.
  rewrite ParserFacts.parseExtendedJSON_cases.
  eexists. reflexivity.
Qed.

Lemma fold_left_snoc (l acc : list M) :
  fold_left (fun docs m => docs ++ [m]) l acc = acc ++ l.
Proof.
  revert acc. induction l as [|x l IH]; intros acc; cbn [fold_left].
  - symmetry. apply app_nil_r.
  - rewrite IH, <- app_assoc. reflexivity.
Qed.

Lemma parseArray_result (data : bytes) :
  parseArray UnmarshalExtJSON_array data
  = match UnmarshalExtJSON_array data false with
    | inl e => ([], Some (FailedArray e))
    | inr arr => (arr, None)
    end.
Proof.
  unfold parseArray. destruct (UnmarshalExtJSON_array data false);
    [reflexivity|]. rewrite fold_left_snoc. reflexivity.
Qed.

(** A line that is too long, or that is not blank and is refused by the
    decoder, makes [decodeLines] return an error and no record. *)
Lemma decodeLines_fails (ls : list bytes) :
  forall docs : list M,
    (exists l, In l ls
       /\ (Bufio.MaxScanTokenSize <= len l
           \/ (blankLine l = false
               /\ exists e, UnmarshalExtJSON_doc (lineText l) false = inl e))) ->
    exists err, decodeLines UnmarshalExtJSON_doc ls docs = ([], Some err).
Proof.
  induction ls as [|line ls IH]; intros docs [l [Hin Hbad]]; [destruct Hin|].
  cbn [decodeLines].
  destruct (Z.leb_spec Bufio.MaxScanTokenSize (len line)) as [Hbig|Hsmall];
    [eexists; reflexivity|].
  destruct Hin as [->|Hin].
  - destruct Hbad as [Hbig|[Hnb [e He]]]; [lia|].
    unfold blankLine in Hnb. rewrite Hnb, He. eexists; reflexivity.
  - destruct (len (lineText line) =? 0);
      [apply IH; exists l; split; assumption|].
    destruct (UnmarshalExtJSON_doc (lineText line) false);
      [eexists; reflexivity|].
    apply IH. exists l. split; assumption.
Qed.

(** When [decodeLines] succeeds, its records are the decodings of the
    lines that are not blank, in the order of the lines. *)
Lemma decodeLines_ordered (ls : list bytes) :
  forall docs0 docs : list M,
    decodeLines UnmarshalExtJSON_doc ls docs0 = (docs, None) ->
    exists ms,
      docs = docs0 ++ ms
      /\ Forall2 (fun text m => UnmarshalExtJSON_doc text false = inr m)
                 (decodedTexts ls) ms.
Proof.
  induction ls as [|line ls IH]; intros docs0 docs H; cbn [decodeLines] in H.
  - injection H as <-. exists []. split; [symmetry; apply app_nil_r|].
    constructor.
  - destruct (Bufio.MaxScanTokenSize <=? len line); [discriminate|].
    unfold decodedTexts, blankLine. cbn [filter].
    destruct (len (lineText line) =? 0) eqn:Eb; cbn [negb].
    + apply IH. assumption.
    + destruct (UnmarshalExtJSON_doc (lineText line) false) as [e|m] eqn:Ed;
        [discriminate|].
      destruct (IH _ _ H) as [ms [-> HF]].
      exists (m :: ms). split; [rewrite <- app_assoc; reflexivity|].
      cbn [map]. constructor; assumption.
Qed.

(** C8. An input that is empty or all white space (every rune of it is a
    [unicode.IsSpace] rune) gives no record and no error. *)
Theorem parseExtendedJSON_blank (data : bytes) :
  AllSpace data -> parse data = Some ([], None).
Proof.
  intros Hall. rewrite ParserFacts.parseExtendedJSON_cases.
  rewrite TrimFacts.TrimSpace_AllSpace by assumption. reflexivity.
Qed.

(** C6. When the trimmed input is not empty, its first byte alone picks
    the branch, and this byte is the first of the input that is not white
    space: the input is white-space runes, then the trimmed content, which
    starts with a rune that is no white space, then white-space runes. With
    ['['] the result is that of decoding the whole trimmed content as one
    array, whatever the line decoder would do; with any other first byte it
    is that of decoding the lines of the trimmed content, whatever the
    array decoder would do. *)
Theorem parseExtendedJSON_dispatch (data : bytes) (c : byte) (t : bytes) :
  GoBytes.TrimSpace data = c :: t ->
  (exists P S : bytes,
     data = P ++ (c :: t) ++ S
     /\ WhiteSpace.SpaceRunes P /\ WhiteSpace.SpaceRunesRev S
     /\ Unicode.IsSpace (fst (Utf8.DecodeRune (c :: t))) = false)
  /\ (c = "["%byte ->
      forall doc' : bytes -> bool -> DecodeError + M,
        parseExtendedJSON UnmarshalExtJSON_array doc' data
        = Some match UnmarshalExtJSON_array (c :: t) false with
               | inl e => ([], Some (FailedArray e))
               | inr arr => (arr, None)
               end)
  /\ (c <> "["%byte ->
      forall array' : bytes -> bool -> DecodeError + list M,
        parseExtendedJSON array' UnmarshalExtJSON_doc data
        = Some (decodeLines UnmarshalExtJSON_doc (splitLines (c :: t)) [])).
Proof.
  intros Htrim. split; [|split].
  - destruct (WhiteSpaceFacts.TrimSpace_split data) as [P [S [Hd [HP HS]]]].
    rewrite Htrim in Hd. exists P, S. repeat split; try assumption.
    apply (WhiteSpaceFacts.TrimSpace_head data). assumption.
  - intros -> doc'. rewrite ParserFacts.parseExtendedJSON_cases, Htrim.
    cbn [Byte.eqb]. rewrite byte_eqb_refl, parseArray_result. reflexivity.
  - intros Hc array'. rewrite ParserFacts.parseExtendedJSON_cases, Htrim.
    rewrite byte_eqb_neq by assumption. reflexivity.
Qed.

(** C3. In the NDJSON branch (the first byte of the trimmed input is not
    ['[']), one line of the input that is not blank and that the decoder
    refuses fails the whole input: an error and no record, whatever the
    other lines hold. *)
Theorem parseExtendedJSON_bad_line (data : bytes) (c : byte) (t : bytes)
    (l : bytes) (e : DecodeError) :
  GoBytes.TrimSpace data = c :: t -> c <> "["%byte ->
  In l (splitLines data) ->
  blankLine l = false ->
  UnmarshalExtJSON_doc (lineText l) false = inl e ->
  exists err, parse data = Some ([], Some err).
Proof.
  intros Htrim Hc Hin Hnb He.
  destruct (WhiteSpaceFacts.splitLines_TrimSpace data l Hin Hnb)
    as [l' [Hin' [Hnb' E]]].
  rewrite Htrim in Hin'.
  rewrite ParserFacts.parseExtendedJSON_cases, Htrim.
  rewrite byte_eqb_neq by assumption.
  destruct (decodeLines_fails (splitLines (c :: t)) []) as [err Herr].
  - exists l'. split; [assumption|]. right. split; [assumption|].
    exists e. rewrite E. assumption.
  - exists err. rewrite Herr. reflexivity.
Qed.

(** C10, as amended. In the NDJSON branch, a line of the trimmed content
    that is longer than 65536 bytes (65536 bytes are already too many)
    fails the whole input: an error and no record. *)
Theorem parseExtendedJSON_long_line (data : bytes) (c : byte) (t : bytes)
    (l : bytes) :
  GoBytes.TrimSpace data = c :: t -> c <> "["%byte ->
  In l (splitLines (c :: t)) ->
  Bufio.MaxScanTokenSize <= len l ->
  exists err, parse data = Some ([], Some err).
Proof.
  intros Htrim Hc Hin Hbig.
  rewrite ParserFacts.parseExtendedJSON_cases, Htrim.
  rewrite byte_eqb_neq by assumption.
  destruct (decodeLines_fails (splitLines (c :: t)) []) as [err Herr].
  - exists l. split; [assumption|]. left. assumption.
  - exists err. rewrite Herr. reflexivity.
Qed.

(** The two records of the specification's example on two lines, with or
    without a blank line between them: whatever the decoder makes of each
    record, the result is these two documents in this order. *)
Lemma parseExtendedJSON_two_lines (m1 m2 : M) :
  UnmarshalExtJSON_doc Sample.recA false = inr m1 ->
  UnmarshalExtJSON_doc Sample.recB false = inr m2 ->
  parse Sample.twoLines = Some ([m1; m2], None)
  /\ parse Sample.twoLinesBlank = Some ([m1; m2], None).
Proof.
  intros H1 H2. vm_compute in H1, H2.
  split; rewrite ParserFacts.parseExtendedJSON_cases.
  - vm_compute. rewrite H1, H2. reflexivity.
  - vm_compute. rewrite H1, H2. reflexivity.
Qed.

(** C7. A successful parse returns the records in the order of the source:
    the array as the array decoder gave it, or the decodings of the lines
    of the input that are not blank, line after line, the blank lines
    giving no record. In particular the two objects of the example, on two
    lines, give exactly these two records in this order. *)
Theorem parseExtendedJSON_order (data : bytes) (docs : list M) :
  (parse data = Some (docs, None) ->
   match GoBytes.TrimSpace data with
   | [] => docs = []
   | c :: t =>
       if Byte.eqb c "["%byte
       then UnmarshalExtJSON_array (c :: t) false = inr docs
       else Forall2 (fun text m => UnmarshalExtJSON_doc text false = inr m)
                    (decodedTexts (splitLines data)) docs
   end)
  /\ (forall m1 m2 : M,
        UnmarshalExtJSON_doc Sample.recA false = inr m1 ->
        UnmarshalExtJSON_doc Sample.recB false = inr m2 ->
        parse Sample.twoLines = Some ([m1; m2], None)
        /\ parse Sample.twoLinesBlank = Some ([m1; m2], None)).
Proof.
  split; [|exact parseExtendedJSON_two_lines].
  rewrite ParserFacts.parseExtendedJSON_cases.
  intros H. injection H as H.
  rewrite <- (WhiteSpaceFacts.decodedTexts_TrimSpace data).
  destruct (GoBytes.TrimSpace data) as [|c t]; [congruence|].
  destruct (Byte.eqb c "["%byte).
  - rewrite parseArray_result in H.
    destruct (UnmarshalExtJSON_array (c :: t) false); congruence.
  - apply decodeLines_ordered in H. destruct H as [ms [-> HF]]. exact HF.
Qed.

End ParserClaims.

(** ** processFile and the loop of main *)

Section ImporterClaims.

Variable M : Type.
Variable DecodeError : Type.
Variable UnmarshalExtJSON_array : bytes -> bool -> DecodeError + list M.
Variable UnmarshalExtJSON_doc : bytes -> bool -> DecodeError + M.
Variable DB : Type.
Variable DBError : Type.
Variable ReadError : Type.
Variable DeleteMany : DB -> bytes -> DB * option DBError.
Variable InsertMany : DB -> bytes -> list M -> DB * option DBError.
Variable ReadFile : bytes -> ReadError + bytes.

#[local] Abbreviation world := (World M DecodeError DB DBError ReadError).
#[local] Abbreviation process :=
  (processFile UnmarshalExtJSON_array UnmarshalExtJSON_doc
               DeleteMany InsertMany ReadFile).
#[local] Abbreviation processAll :=
  (processFiles UnmarshalExtJSON_array UnmarshalExtJSON_doc
                DeleteMany InsertMany ReadFile).

(** What [processFile] does, by cases: it always returns; it stops before
    the driver with the database as it was; or its delete-all fails and
    nothing is inserted; or its delete-all succeeds and the insert runs
    next, on the database the delete-all left. *)
Lemma processFile_cases (w : world) (filePath : bytes) :
  exists w', process w filePath = Some w'
    /\ ((db w' = db w
         /\ exists evs, trace w' = trace w ++ evs
              /\ Forall (fun ev => isDriverCall ev = false) evs)
        \/ (exists coll e db1,
              DeleteMany (db w) coll = (db1, Some e)
              /\ db w' = db1
              /\ trace w'
                 = trace w ++ [PrintImporting (Filepath.Base filePath) coll;
                               CallDeleteMany coll (Some e);
                               LogClearFailed coll e])
        \/ (exists coll docs db1 db2 res tail,
              DeleteMany (db w) coll = (db1, None)
              /\ InsertMany db1 coll docs = (db2, res)
              /\ db w' = db2
              /\ trace w'
                 = trace w ++ [PrintImporting (Filepath.Base filePath) coll;
                               CallDeleteMany coll None;
                               CallInsertMany coll docs res] ++ tail
              /\ Forall (fun ev => isDriverCall ev = false) tail)).
Proof.
  unfold processFile.
  destruct (len (Main.extractCollectionName filePath) =? 0).
  { eexists. split; [reflexivity|]. left. split; [reflexivity|].
    eexists. split; [reflexivity|]. repeat constructor. }
  destruct (ReadFile filePath) as [e|data].
  { eexists. split; [reflexivity|]. left. split; [reflexivity|].
    exists [PrintImporting (Filepath.Base filePath)
              (Main.extractCollectionName filePath); LogReadFailed filePath e].
    split; [cbn; rewrite <- app_assoc; reflexivity|]. repeat constructor. }
  destruct (parseExtendedJSON_returns _ _ UnmarshalExtJSON_array
              UnmarshalExtJSON_doc data) as [[docs [e|]] ->].
  { eexists. split; [reflexivity|]. left. split; [reflexivity|].
    exists [PrintImporting (Filepath.Base filePath)
              (Main.extractCollectionName filePath); LogParseFailed filePath e].
    split; [cbn; rewrite <- app_assoc; reflexivity|]. repeat constructor. }
  cbn [db emit trace].
  destruct (DeleteMany (db w) (Main.extractCollectionName filePath))
    as [db1 [e|]] eqn:Edel.
  { eexists. split; [reflexivity|]. right. left.
    exists (Main.extractCollectionName filePath), e, db1.
    split; [assumption|]. split; [reflexivity|].
    cbn. rewrite <- app_assoc. reflexivity. }
  destruct (InsertMany db1 (Main.extractCollectionName filePath) docs)
    as [db2 [e|]] eqn:Eins.
  - eexists. split; [reflexivity|]. right. right.
    exists (Main.extractCollectionName filePath), docs, db1, db2, (Some e),
      [LogInsertFailed (Main.extractCollectionName filePath) e].
    split; [assumption|]. split; [assumption|]. split; [reflexivity|].
    split; [cbn; rewrite <- !app_assoc; reflexivity|]. repeat constructor.
  - eexists. split; [reflexivity|]. right. right.
    exists (Main.extractCollectionName filePath), docs, db1, db2, None,
      [PrintInserted (len docs) (Main.extractCollectionName filePath)].
    split; [assumption|]. split; [assumption|]. split; [reflexivity|].
    split; [cbn; rewrite <- !app_assoc; reflexivity|]. repeat constructor.
Qed.

Lemma processFile_returns (w : world) (filePath : bytes) :
  exists w', process w filePath = Some w'.
Proof.
  destruct (processFile_cases w filePath) as [w' [H _]]. exists w'. exact H.
Qed.

Lemma processFiles_returns (files : list bytes) :
  forall w : world, exists w', processAll w files = Some w'.
Proof.
  induction files as [|file files IH]; intros w; cbn [processFiles].
  - exists w. reflexivity.
  - destruct (processFile_returns w file) as [w1 ->]. apply IH.
Qed.

Lemma processFiles_app (before after : list bytes) :
  forall w : world,
    processAll w (before ++ after)
    = match processAll w before with
      | Some w1 => processAll w1 after
      | None => None
      end.
Proof.
  induction before as [|file before IH]; intros w; cbn [app processFiles].
  - reflexivity.
  - destruct (process w file); [apply IH|reflexivity].
Qed.

(** C4. When the content of a file does not parse, [processFile] makes
    no call of the driver, neither the delete-all nor the insert, and the
    database is left as it was. *)
Theorem processFile_parse_failure (w : world) (filePath data : bytes)
    (docs : list M) (e : parseError DecodeError) :
  ReadFile filePath = inr data ->
  parseExtendedJSON UnmarshalExtJSON_array UnmarshalExtJSON_doc data
    = Some (docs, Some e) ->
  exists w', process w filePath = Some w'
    /\ db w' = db w
    /\ exists evs, trace w' = trace w ++ evs
         /\ Forall (fun ev => isDriverCall ev = false) evs.
Proof.
  intros Hread Hparse. unfold processFile.
  destruct (len (Main.extractCollectionName filePath) =? 0).
  - eexists. split; [reflexivity|]. split; [reflexivity|].
    eexists. split; [reflexivity|]. repeat constructor.
  - rewrite Hread, Hparse.
    eexists. split; [reflexivity|]. split; [reflexivity|].
    exists [PrintImporting (Filepath.Base filePath)
              (Main.extractCollectionName filePath); LogParseFailed filePath e].
    split; [cbn; rewrite <- app_assoc; reflexivity|]. repeat constructor.
Qed.

(** C5. For a file that is processed (its name gives a collection, it is
    read and its content parses), [processFile] returns and calls the
    delete-all first, on the collection of that file and on the database as
    it was. If the delete-all fails, that is the only call: no insert is
    made. If it succeeds, the insert of the parsed records into the same
    collection is the next call, made on the database the delete-all left,
    and it is the last. Whatever the two calls return, the loop of [main]
    goes on: every file of the list is processed, each from the world the
    files before it left. *)
Theorem processFile_delete_then_insert (w : world) (filePath data : bytes)
    (docs : list M) :
  Main.extractCollectionName filePath <> [] ->
  ReadFile filePath = inr data ->
  parseExtendedJSON UnmarshalExtJSON_array UnmarshalExtJSON_doc data
    = Some (docs, None) ->
  let coll := Main.extractCollectionName filePath in
  (exists w', process w filePath = Some w'
     /\ match DeleteMany (db w) coll with
        | (db1, Some e) =>
            db w' = db1
            /\ trace w'
               = trace w ++ [PrintImporting (Filepath.Base filePath) coll;
                             CallDeleteMany coll (Some e);
                             LogClearFailed coll e]
        | (db1, None) =>
            match InsertMany db1 coll docs with
            | (db2, Some e) =>
                db w' = db2
                /\ trace w'
                   = trace w ++ [PrintImporting (Filepath.Base filePath) coll;
                                 CallDeleteMany coll None;
                                 CallInsertMany coll docs (Some e);
                                 LogInsertFailed coll e]
            | (db2, None) =>
                db w' = db2
                /\ trace w'
                   = trace w ++ [PrintImporting (Filepath.Base filePath) coll;
                                 CallDeleteMany coll None;
                                 CallInsertMany coll docs None;
                                 PrintInserted (len docs) coll]
            end
        end)
  /\ (forall before after : list bytes,
        exists w1 w2 w3,
          processAll w before = Some w1
          /\ process w1 filePath = Some w2
          /\ processAll w2 after = Some w3
          /\ processAll w (before ++ filePath :: after) = Some w3).
Proof.
  intros Hname Hread Hparse coll. split.
  - unfold processFile. fold coll.
    replace (len coll =? 0) with false
      by (symmetry; apply Z.eqb_neq; intros E; apply Hname;
          apply len_zero_nil; exact E).
    rewrite Hread, Hparse. cbn [db emit trace].
    destruct (DeleteMany (db w) coll) as [db1 [e|]].
    + eexists. split; [reflexivity|]. split; [reflexivity|].
      cbn. rewrite <- app_assoc. reflexivity.
    + destruct (InsertMany db1 coll docs) as [db2 [e|]].
      * eexists. split; [reflexivity|]. split; [reflexivity|].
        cbn. rewrite <- !app_assoc. reflexivity.
      * eexists. split; [reflexivity|]. split; [reflexivity|].
        cbn. rewrite <- !app_assoc. reflexivity.
  - intros before after.
    destruct (processFiles_returns before w) as [w1 H1].
    destruct (processFile_returns w1 filePath) as [w2 H2].
    destruct (processFiles_returns after w2) as [w3 H3].
    exists w1, w2, w3. repeat split; try assumption.
    rewrite processFiles_app, H1. cbn [processFiles]. rewrite H2. exact H3.
Qed.

End ImporterClaims.

(** ** The statements on concrete inputs *)

Lemma parseExtendedJSON_blank_witness :
  AllSpace Sample.blanks
  /\ parseExtendedJSON Sample.array Sample.doc Sample.blanks = Some ([], None).
Proof.
  assert (H : AllSpace Sample.blanks).
  { unfold Sample.blanks.
    repeat (eapply AllSpace_rune;
            [discriminate | vm_compute; reflexivity | reflexivity
            | cbn [Z.to_nat Pos.to_nat Pos.iter_op Nat.add skipn]]).
    apply AllSpace_nil. }
  split; [exact H|].
  exact (parseExtendedJSON_blank _ _ Sample.array Sample.doc Sample.blanks H).
Defined.

Lemma parseExtendedJSON_dispatch_witness :
  GoBytes.TrimSpace Sample.twoLines = Sample.recA ++ [x0a] ++ Sample.recB
  /\ parseExtendedJSON Sample.array Sample.doc Sample.twoLines
     = Some (decodeLines Sample.doc
               (splitLines (Sample.recA ++ [x0a] ++ Sample.recB)) []).
Proof.
  assert (H : GoBytes.TrimSpace Sample.twoLines
              = "{"%byte :: tl (Sample.recA ++ [x0a] ++ Sample.recB))
    by (vm_compute; reflexivity).
  split; [exact H|].
  refine (proj2 (proj2 (parseExtendedJSON_dispatch _ _ Sample.array
                          Sample.doc Sample.twoLines "{"%byte
                          (tl (Sample.recA ++ [x0a] ++ Sample.recB)) H))
                _ Sample.array).
  discriminate.
Defined.

Lemma parseExtendedJSON_bad_line_witness :
  In (bs "oops" ++ [" "%byte; x09]) (splitLines Sample.badLastLine)
  /\ Sample.doc (lineText (bs "oops" ++ [" "%byte; x09])) false = inl tt
  /\ exists err,
       parseExtendedJSON Sample.array Sample.doc Sample.badLastLine
       = Some ([], Some err).
Proof.
  assert (Hin : In (bs "oops" ++ [" "%byte; x09])
                   (splitLines Sample.badLastLine))
    by (vm_compute; right; right; left; reflexivity).
  split; [exact Hin|]. split; [reflexivity|].
  refine (parseExtendedJSON_bad_line _ _ Sample.array Sample.doc
            Sample.badLastLine "{"%byte
            (tl (Sample.recA ++ [x0a] ++ bs "oops"))
            (bs "oops" ++ [" "%byte; x09]) tt
            _ _ Hin _ _).
  - vm_compute. reflexivity.
  - discriminate.
  - vm_compute. reflexivity.
  - vm_compute. reflexivity.
Defined.

Lemma parseExtendedJSON_order_witness :
  parseExtendedJSON Sample.array Sample.doc Sample.twoLinesBlank
  = Some ([Sample.recA; Sample.recB], None)
  /\ Forall2 (fun text m => Sample.doc text false = inr m)
             (decodedTexts (splitLines Sample.twoLinesBlank))
             [Sample.recA; Sample.recB].
Proof.
  assert (H : parseExtendedJSON Sample.array Sample.doc Sample.twoLinesBlank
              = Some ([Sample.recA; Sample.recB], None))
    by (vm_compute; reflexivity).
  split; [exact H|].
  exact (proj1 (parseExtendedJSON_order _ _ Sample.array Sample.doc
                  Sample.twoLinesBlank [Sample.recA; Sample.recB]) H).
Defined.

Lemma longLine_no_newline : ~ In x0a Sample.longLine.
Proof.
  unfold Sample.longLine. intros H.
  apply in_app_or in H. destruct H as [H|H].
  - destruct H as [H|[]]. discriminate H.
  - apply in_app_or in H. destruct H as [H|H].
    + apply repeat_spec in H. discriminate H.
    + destruct H as [H|[]]. discriminate H.
Qed.

Lemma parseExtendedJSON_long_line_witness :
  In Sample.longLine (splitLines Sample.longLine)
  /\ Bufio.MaxScanTokenSize <= len Sample.longLine
  /\ exists err,
       parseExtendedJSON Sample.array Sample.doc Sample.longLine
       = Some ([], Some err).
Proof.
  assert (Hin : In Sample.longLine (splitLines Sample.longLine)).
  { rewrite ParserFacts.splitLines_single.
    - left. reflexivity.
    - discriminate.
    - exact longLine_no_newline. }
  assert (Hlen : Bufio.MaxScanTokenSize <= len Sample.longLine).
  { unfold Sample.longLine, Bufio.MaxScanTokenSize.
    rewrite !len_app. unfold len at 2. rewrite repeat_length.
    change (len (bs "{")) with 1. change (len (bs "}")) with 1. lia. }
  assert (Htrim : GoBytes.TrimSpace Sample.longLine
                  = "{"%byte :: tl Sample.longLine).
  { change Sample.longLine
      with ("{"%byte :: repeat " "%byte (Z.to_nat 65536) ++ ["}"%byte]).
    apply TrimFacts.TrimSpace_ascii_ends; reflexivity. }
  split; [exact Hin|]. split; [exact Hlen|].
  refine (parseExtendedJSON_long_line _ _ Sample.array Sample.doc
            Sample.longLine "{"%byte (tl Sample.longLine) Sample.longLine
            Htrim _ Hin Hlen).
  discriminate.
Defined.

(** C10 as stated fails. A file of one line of 65539 bytes, 65537 spaces
    and then an empty object, has a line longer than 65536 bytes and nothing
    but valid JSON on it; trimming takes the spaces away before the scanner
    sees the line, and the parse succeeds with one record: with the sample
    decoder, and with every decoder that accepts the empty object. *)
Lemma parseExtendedJSON_long_line_counterexample :
  In Sample.paddedLine (splitLines Sample.paddedLine)
  /\ Bufio.MaxScanTokenSize < len Sample.paddedLine
  /\ parseExtendedJSON Sample.array Sample.doc Sample.paddedLine
     = Some ([bs "{}"], None)
  /\ (forall (M DecodeError : Type)
             (array : bytes -> bool -> DecodeError + list M)
             (doc : bytes -> bool -> DecodeError + M) (m : M),
         doc (bs "{}") false = inr m ->
         parseExtendedJSON array doc Sample.paddedLine = Some ([m], None)).
Proof.
  assert (Htrim : GoBytes.TrimSpace Sample.paddedLine = bs "{}")
    by (vm_compute; reflexivity).
  assert (Hall : forall (M DecodeError : Type)
                        (array : bytes -> bool -> DecodeError + list M)
                        (doc : bytes -> bool -> DecodeError + M) (m : M),
             doc (bs "{}") false = inr m ->
             parseExtendedJSON array doc Sample.paddedLine = Some ([m], None)).
  { intros M DecodeError array doc m Hm.
    rewrite ParserFacts.parseExtendedJSON_cases, Htrim.
    change (lineText (bs "{}")) with (bs "{}") in *.
    vm_compute. vm_compute in Hm. rewrite Hm. reflexivity. }
  split; [|split; [|split]].
  - rewrite ParserFacts.splitLines_single.
    + left. reflexivity.
    + unfold Sample.paddedLine. destruct (repeat " "%byte (Z.to_nat 65537));
        discriminate.
    + unfold Sample.paddedLine. intros H.
      apply in_app_or in H. destruct H as [H|H].
      * apply repeat_spec in H. discriminate H.
      * destruct H as [H|[H|[]]]; discriminate H.
  - unfold Sample.paddedLine, Bufio.MaxScanTokenSize.
    rewrite len_app. unfold len at 1. rewrite repeat_length.
    change (len (bs "{}")) with 2. lia.
  - apply Hall. reflexivity.
  - exact Hall.
Qed.

Lemma processFile_parse_failure_witness :
  Sample.ReadFile (bs "data/bad.orders.json") = inr Sample.badLines
  /\ parseExtendedJSON Sample.array Sample.doc Sample.badLines
     = Some ([], Some (FailedLine tt))
  /\ exists w',
       processFile Sample.array Sample.doc Sample.DeleteMany
         Sample.InsertMany Sample.ReadFile (mkWorld Sample.db0 [])
         (bs "data/bad.orders.json") = Some w'
       /\ db w' = Sample.db0
       /\ exists evs, trace w' = [] ++ evs
            /\ Forall (fun ev => isDriverCall ev = false) evs.
Proof.
  assert (Hread : Sample.ReadFile (bs "data/bad.orders.json")
                  = inr Sample.badLines) by reflexivity.
  assert (Hparse : parseExtendedJSON Sample.array Sample.doc Sample.badLines
                   = Some ([], Some (FailedLine tt)))
    by (vm_compute; reflexivity).
  split; [exact Hread|]. split; [exact Hparse|].
  exact (processFile_parse_failure _ _ Sample.array Sample.doc _ _ _
           Sample.DeleteMany Sample.InsertMany Sample.ReadFile
           (mkWorld Sample.db0 [])
           (bs "data/bad.orders.json") Sample.badLines [] (FailedLine tt)
           Hread Hparse).
Defined.

Lemma processFile_delete_then_insert_witness :
  Main.extractCollectionName (bs "data/events.json") <> []
  /\ Sample.ReadFile (bs "data/events.json") = inr Sample.twoLines
  /\ parseExtendedJSON Sample.array Sample.doc Sample.twoLines
     = Some ([Sample.recA; Sample.recB], None)
  /\ exists w',
       processFile Sample.array Sample.doc Sample.DeleteMany
         Sample.InsertMany Sample.ReadFile (mkWorld Sample.db0 [])
         (bs "data/events.json") = Some w'
       /\ db w' = (bs "events", [Sample.recA; Sample.recB]) :: Sample.db0
       /\ trace w'
          = [] ++ [PrintImporting (bs "events.json") (bs "events");
                   CallDeleteMany (bs "events") None;
                   CallInsertMany (bs "events") [Sample.recA; Sample.recB]
                     None;
                   PrintInserted 2 (bs "events")].
Proof.
  assert (Hname : Main.extractCollectionName (bs "data/events.json") <> [])
    by (vm_compute; discriminate).
  assert (Hread : Sample.ReadFile (bs "data/events.json")
                  = inr Sample.twoLines) by reflexivity.
  assert (Hparse : parseExtendedJSON Sample.array Sample.doc Sample.twoLines
                   = Some ([Sample.recA; Sample.recB], None))
    by (vm_compute; reflexivity).
  split; [exact Hname|]. split; [exact Hread|]. split; [exact Hparse|].
  exact (proj1 (processFile_delete_then_insert _ _ Sample.array Sample.doc
                  _ _ _ Sample.DeleteMany Sample.InsertMany Sample.ReadFile
                  (mkWorld Sample.db0 []) (bs "data/events.json")
                  Sample.twoLines [Sample.recA; Sample.recB]
                  Hname Hread Hparse)).
Defined.

(** The importer run on the sample directory: the good file replaces its
    collection, the bad file leaves [orders] as it was, and both files are
    gone through. *)
Lemma importAll_sample_run :
  exists w',
    importAll Sample.array Sample.doc Sample.DeleteMany Sample.InsertMany
      Sample.ReadFile (mkWorld Sample.db0 []) (bs "data")
      (Directory [bs "data/bad.orders.json"; bs "data/events.json"])
    = Some w'
    /\ db w' = [(bs "events", [Sample.recA; Sample.recB]);
                (bs "orders", [bs "{old}"])]
    /\ trace w'
       = [PrintImporting (bs "bad.orders.json") (bs "orders");
          LogParseFailed (bs "data/bad.orders.json") (FailedLine tt);
          PrintImporting (bs "events.json") (bs "events");
          CallDeleteMany (bs "events") None;
          CallInsertMany (bs "events") [Sample.recA; Sample.recB] None;
          PrintInserted 2 (bs "events");
          PrintAllCompleted].
Proof. eexists. vm_compute. repeat split. Qed.

(** * More on the code *)

(** ** extractCollectionName: what the name is made of *)

Lemma lastElement_acc (r acc : bytes) :
  exists name, Filepath.lastElement r acc = name ++ acc
               /\ ~ In "/"%byte name.
Proof.
  revert acc. induction r as [|x t IH]; intros acc; cbn [Filepath.lastElement].
  - exists []. split; [reflexivity|intros []].
  - unfold Filepath.IsPathSeparator. destruct (Byte.eqb x "/"%byte) eqn:E.
    + exists []. split; [reflexivity|intros []].
    + apply Byte.eqb_false in E.
      destruct (IH (x :: acc)) as [name [-> Hn]].
      exists (name ++ [x]). split; [rewrite <- app_assoc; reflexivity|].
      intros H. apply in_app_or in H. destruct H as [H|[H|[]]];
        [now apply Hn|now apply E].
Qed.

(** [filepath.Base] returns ["/"], or a name that is not empty and holds
    no separator. *)
Lemma Base_cases (path : bytes) :
  Filepath.Base path = bs "/"
  \/ (Filepath.Base path <> [] /\ ~ In "/"%byte (Filepath.Base path)).
Proof.
  unfold Filepath.Base. destruct path as [|c t].
  - right. split; [discriminate|]. intros [H|[]]. discriminate H.
  - destruct (lastElement_acc
                (Filepath.stripSeparators (rev_append (c :: t) [])) [])
      as [name [-> Hn]].
    rewrite app_nil_r. destruct name as [|x name']; [now left|].
    right. split; [discriminate|assumption].
Qed.

Lemma Base_idempotent (path : bytes) :
  Filepath.Base (Filepath.Base path) = Filepath.Base path.
Proof.
  destruct (Base_cases path) as [->|[Hne Hn]]; [reflexivity|].
  apply (FilepathFacts.Base_segment []); assumption.
Qed.

(** A text ends with its last field: the text is [pre ++ name] where
    [name] holds no [c] and [pre] is empty or ends with [c], and [name] is
    the last of the fields. *)
Lemma fields_last (c : byte) (q : bytes) :
  exists (pre name : bytes) (init : list bytes),
    q = pre ++ name
    /\ ~ In c name
    /\ (pre = [] \/ exists pre', pre = pre' ++ [c])
    /\ fields c q = init ++ [name].
Proof.
  induction q as [|x q' IH] using rev_ind.
  - exists [], [], []. repeat split; [intros []|now left].
  - destruct (Byte.eqb x c) eqn:E.
    + apply Byte.byte_dec_bl in E. subst x.
      exists (q' ++ [c]), [], (fields c q').
      split; [symmetry; apply app_nil_r|]. split; [intros []|].
      split; [right; now exists q'|].
      apply (StringsFacts.fields_app c q' []).
    + apply Byte.eqb_false in E.
      destruct IH as [pre [name [init [Hq [Hn [Hpre Hf]]]]]].
      exists pre, (name ++ [x]).
      assert (Hn' : ~ In c (name ++ [x])).
      { intros H. apply in_app_or in H. destruct H as [H|[H|[]]];
          [now apply Hn|now apply E]. }
      destruct Hpre as [->|[pre' ->]].
      * exists []. split; [rewrite Hq; reflexivity|].
        split; [assumption|]. split; [now left|].
        cbn [app] in *. rewrite Hq.
        apply StringsFacts.fields_no_sep. assumption.
      * exists (fields c pre'). split; [rewrite Hq, app_assoc; reflexivity|].
        split; [assumption|]. split; [right; now exists pre'|].
        rewrite Hq, <- !app_assoc. cbn [app].
        rewrite StringsFacts.fields_app.
        rewrite (StringsFacts.fields_no_sep c (name ++ [x])) by assumption.
        reflexivity.
Qed.

(** The name extracted from a file name [q.json] is the last dot-free
    piece of [q]. *)
Lemma extractCollectionName_last_field (filePath q : bytes) :
  Filepath.Base filePath = q ++ bs ".json" ->
  exists pre name : bytes,
    q = pre ++ name
    /\ ~ In "."%byte name
    /\ (pre = [] \/ exists pre', pre = pre' ++ bs ".")
    /\ Main.extractCollectionName filePath = name.
Proof.
  intros Hb. rewrite extractCollectionName_fields, Hb.
  replace (Strings.HasSuffix (q ++ bs ".json") (bs ".json")) with true
    by (symmetry; apply StringsFacts.HasSuffix_iff; now exists q).
  destruct (fields_last "."%byte q) as [pre [name [init [Hq [Hn [Hpre Hf]]]]]].
  exists pre, name. repeat split; try assumption.
  change (bs ".json") with ("."%byte :: bs "json").
  rewrite StringsFacts.fields_app, Hf, <- app_assoc.
  apply index_from_end2_app.
Qed.

Lemma no_suffix_empty (filePath : bytes) :
  Strings.HasSuffix (Filepath.Base filePath) (bs ".json") = false ->
  Main.extractCollectionName filePath = [].
Proof.
  intros H. rewrite extractCollectionName_fields, H. reflexivity.
Qed.

(** X1. The guard [len(parts) < 2] of [extractCollectionName] never
    fires, and [parts[len(parts)-2]] is always within bounds: a file name
    that ends in [.json] splits at its dots into two parts at least. For
    every path with that base name, the function returns the last part but
    one. *)
Theorem extractCollectionName_guard_never_fires (name : bytes) :
  Strings.HasSuffix name (bs ".json") = true ->
  2 <= len (Strings.Split name (bs "."))
  /\ (len (Strings.Split name (bs ".")) <? 2) = false
  /\ (Z.to_nat (len (Strings.Split name (bs ".")) - 2)
      < List.length (Strings.Split name (bs ".")))%nat
  /\ forall filePath : bytes,
       Filepath.Base filePath = name ->
       Main.extractCollectionName filePath
       = nth (Z.to_nat (len (Strings.Split name (bs ".")) - 2))
             (Strings.Split name (bs ".")) [].
Proof.
  intros Hsuffix.
  assert (Hlen : 2 <= len (Strings.Split name (bs "."))).
  { change (bs ".") with ["."%byte]. rewrite StringsFacts.Split_fields.
    apply StringsFacts.HasSuffix_iff in Hsuffix. destruct Hsuffix as [p ->].
    change (bs ".json") with ("."%byte :: bs "json").
    rewrite StringsFacts.fields_app, len_app.
    change (len (fields "."%byte (bs "json"))) with 1.
    pose proof (StringsFacts.fields_not_nil "."%byte p) as Hne.
    destruct (fields "."%byte p) as [|f fs]; [contradiction|].
    rewrite len_cons. pose proof (len_nonneg fs). lia. }
  split; [exact Hlen|]. split; [apply Z.ltb_ge; exact Hlen|].
  split; [unfold len in *; lia|].
  intros filePath Hbase. unfold Main.extractCollectionName.
  rewrite Hbase, Hsuffix. cbn [negb].
  replace (len (Strings.Split name (bs ".")) <? 2) with false
    by (symmetry; apply Z.ltb_ge; exact Hlen).
  reflexivity.
Qed.

(** X2. The name [extractCollectionName] returns holds no dot and no path
    separator. *)
Theorem extractCollectionName_no_dot_no_separator (filePath : bytes) :
  ~ In "."%byte (Main.extractCollectionName filePath)
  /\ ~ In "/"%byte (Main.extractCollectionName filePath).
Proof.
  destruct (Strings.HasSuffix (Filepath.Base filePath) (bs ".json")) eqn:E.
  - apply StringsFacts.HasSuffix_iff in E. destruct E as [q Hb].
    destruct (extractCollectionName_last_field filePath q Hb)
      as [pre [name [Hq [Hn [_ ->]]]]].
    split; [assumption|]. intros Hin.
    destruct (Base_cases filePath) as [Hs|[_ Hns]].
    + rewrite Hs in Hb. apply (f_equal (@List.length byte)) in Hb.
      rewrite length_app in Hb. cbn in Hb. lia.
    + apply Hns. rewrite Hb, Hq. apply in_or_app. left.
      apply in_or_app. now right.
  - rewrite (no_suffix_empty _ E). split; intros [].
Qed.

Lemma app_last_eq {A : Type} (a b : list A) (x y : A) :
  a ++ [x] = b ++ [y] -> a = b /\ x = y.
Proof.
  intros H. apply app_inj_tail in H. exact H.
Qed.

(** X3. The files [processFile] skips: [extractCollectionName] returns the
    empty string exactly when the file name does not end in [.json], is
    [.json], or ends in [..json]. *)
Theorem extractCollectionName_empty_iff (filePath : bytes) :
  Main.extractCollectionName filePath = []
  <-> ((forall q, Filepath.Base filePath <> q ++ bs ".json")
       \/ Filepath.Base filePath = bs ".json"
       \/ exists q, Filepath.Base filePath = q ++ bs "..json").
Proof.
  split.
  - intros Hempty.
    destruct (Strings.HasSuffix (Filepath.Base filePath) (bs ".json")) eqn:E.
    + apply StringsFacts.HasSuffix_iff in E. destruct E as [q Hb].
      destruct (extractCollectionName_last_field filePath q Hb)
        as [pre [name [Hq [_ [Hpre Hname]]]]].
      rewrite Hempty in Hname. subst name. rewrite app_nil_r in Hq. subst q.
      right. destruct Hpre as [->|[pre' ->]]; [now left|].
      right. exists pre'. rewrite Hb, <- app_assoc. reflexivity.
    + left. intros q Hq.
      assert (H : Strings.HasSuffix (Filepath.Base filePath) (bs ".json")
                  = true)
        by (apply StringsFacts.HasSuffix_iff; now exists q).
      congruence.
  - intros [Hno|[Hb|[q Hb]]].
    + apply no_suffix_empty.
      destruct (Strings.HasSuffix (Filepath.Base filePath) (bs ".json"))
        eqn:E; [|reflexivity].
      apply StringsFacts.HasSuffix_iff in E. destruct E as [q Hq].
      exfalso. exact (Hno q Hq).
    + destruct (extractCollectionName_last_field filePath [] Hb)
        as [pre [name [Hq [_ [_ ->]]]]].
      destruct pre; [cbn in Hq; congruence|discriminate].
    + assert (Hb' : Filepath.Base filePath = (q ++ bs ".") ++ bs ".json")
        by (rewrite Hb, <- app_assoc; reflexivity).
      destruct (extractCollectionName_last_field filePath _ Hb')
        as [pre [name [Hq [Hn [_ ->]]]]].
      destruct name as [|x name'] using rev_ind; [reflexivity|].
      exfalso. rewrite app_assoc in Hq.
      apply app_last_eq in Hq. destruct Hq as [_ <-].
      apply Hn. apply in_or_app. right. now left.
Qed.

(** X4. Only the last element of the path counts: a path and its base name
    give the same collection name. *)
Theorem extractCollectionName_of_Base (filePath : bytes) :
  Main.extractCollectionName (Filepath.Base filePath)
  = Main.extractCollectionName filePath.
Proof.
  unfold Main.extractCollectionName. rewrite Base_idempotent. reflexivity.
Qed.

(** ** Lines: blank lines, lines that fit, what the decoder is handed *)

Module LinesFacts.

Import Utf8 Unicode GoBytes WhiteSpace WhiteSpaceFacts.

(** What [TrimFunc] keeps is empty or has a rune that is no white space at
    each end. *)
Lemma TrimFunc_ends (data : bytes) :
  TrimFunc data IsSpace = []
  \/ (IsSpace (fst (DecodeRune (TrimFunc data IsSpace))) = false
      /\ IsSpace (fst (DecodeLastRune (TrimFunc data IsSpace))) = false).
Proof.
  unfold TrimFunc.
  destruct (ws_prefix_split data) as [P [y' [Hd [HP Hy']]]].
  destruct (ws_suffix_split y') as [z' [S [Hy [HS Hz']]]].
  rewrite Hd, TrimLeftFunc_split by assumption.
  rewrite Hy at 1 2 3. rewrite TrimRightFunc_split by assumption.
  destruct z' as [|c t]; [now left|]. right.
  destruct Hz' as [Hz'|Hz']; [discriminate|]. split; [|assumption].
  destruct Hy' as [Hy'|Hy']; [rewrite Hy in Hy'; discriminate|].
  rewrite Hy, DecodeRune_decodeBytes in Hy'.
  rewrite decodeBytes_app_start in Hy';
    [|discriminate|apply SpaceRunesRev_head_start; assumption].
  rewrite DecodeRune_decodeBytes. assumption.
Qed.

(** Trimming twice is trimming once. *)
Lemma TrimFunc_idempotent (data : bytes) :
  TrimFunc (TrimFunc data IsSpace) IsSpace = TrimFunc data IsSpace.
Proof.
  destruct (TrimFunc_ends data) as [->|[Hhead Hlast]]; [reflexivity|].
  set (z := TrimFunc data IsSpace) in *. unfold TrimFunc at 1.
  assert (HL : TrimLeftFunc z IsSpace = z)
    by (apply (TrimLeftFunc_split [] z); [constructor|now right]).
  assert (HR : TrimRightFunc (z ++ []) IsSpace = z)
    by (apply (TrimRightFunc_split z []); [constructor|now right]).
  rewrite app_nil_r in HR. rewrite HL. exact HR.
Qed.

Lemma lineText_trimmed (l : bytes) :
  Strings.TrimSpace (lineText l) = lineText l.
Proof.
  rewrite strings_TrimSpace_TrimFunc, lineText_TrimFunc.
  apply TrimFunc_idempotent.
Qed.

(** What is kept of a line is a piece of the line. *)
Lemma lineText_piece (l : bytes) :
  exists P S, l = P ++ lineText l ++ S /\ SpaceRunes P /\ SpaceRunesRev S.
Proof.
  rewrite lineText_TrimFunc. apply TrimFunc_split.
Qed.

Lemma splitLines_no_newline (R l : bytes) :
  In l (splitLines R) -> ~ In x0a l.
Proof.
  revert l. induction R as [|x t IH]; intros l Hin; [destruct Hin|].
  cbn [splitLines] in Hin. destruct (Byte.eqb x x0a) eqn:E.
  - destruct Hin as [<-|Hin]; [intros []|apply IH; assumption].
  - apply Byte.eqb_false in E.
    destruct (splitLines t) as [|l0 ls].
    + destruct Hin as [<-|[]]. intros [H|[]]. now apply E.
    + destruct Hin as [<-|Hin].
      * intros [H|H]; [now apply E|]. revert H. apply IH. now left.
      * apply IH. now right.
Qed.

(** A line is blank exactly when it is made of white-space runes. *)
Lemma blankLine_SpaceRunes (l : bytes) :
  blankLine l = true <-> SpaceRunes l.
Proof.
  unfold blankLine. rewrite lineText_TrimFunc. split.
  - intros H. apply Z.eqb_eq, len_zero_nil in H.
    destruct (TrimFunc_split l) as [P [S [Hl [HP HS]]]].
    rewrite H in Hl. rewrite Hl. cbn [app].
    apply SpaceRunes_app; [assumption|].
    apply SpaceRunesRev_to_SpaceRunes. assumption.
  - intros H. rewrite <- (app_nil_r l), TrimFunc_left by assumption.
    reflexivity.
Qed.

(** *** Lines that fit the buffer *)

Lemma fitFrom_zero (ls : list bytes) : fitFrom 0 ls <-> Forall fits ls.
Proof.
  destruct ls as [|l ls]; cbn [fitFrom].
  - split; [constructor|trivial].
  - unfold fits. rewrite Z.add_0_r. split.
    + intros [H1 H2]. constructor; assumption.
    + intros H. inversion H; subst. split; assumption.
Qed.

(** Bytes taken from the front of a text leave lines that fit. *)
Lemma fits_drop_first (x : byte) (R : bytes) :
  Forall fits (splitLines (x :: R)) -> Forall fits (splitLines R).
Proof.
  cbn [splitLines]. destruct (Byte.eqb x x0a).
  - intros H. inversion H; assumption.
  - destruct (splitLines R) as [|l ls]; [constructor|].
    intros H. inversion H as [|? ? H1 H2]; subst. constructor; [|assumption].
    unfold fits in *. rewrite len_cons in H1. lia.
Qed.

Lemma fits_drop_prefix (W R : bytes) :
  Forall fits (splitLines (W ++ R)) -> Forall fits (splitLines R).
Proof.
  induction W as [|x W IH]; [trivial|].
  cbn [app]. intros H. apply IH. apply (fits_drop_first x). assumption.
Qed.

(** Bytes taken from the end of a text leave lines that fit. *)
Lemma fitFrom_drop_suffix (W R : bytes) :
  forall k : Z, 0 <= k ->
    fitFrom k (splitLines (R ++ W)) -> fitFrom k (splitLines R).
Proof.
  induction R as [|x R IH]; intros k Hk H; [exact I|].
  cbn [app splitLines] in *. destruct (Byte.eqb x x0a).
  - cbn [fitFrom] in *. destruct H as [H0 H]. split; [assumption|].
    apply fitFrom_zero. apply (IH 0); [lia|]. apply fitFrom_zero. assumption.
  - assert (H1 : fitFrom (k + 1) (splitLines (R ++ W))
                 /\ 1 + k < Bufio.MaxScanTokenSize).
    { destruct (splitLines (R ++ W)) as [|l ls]; cbn [fitFrom] in *.
      - split; [exact I|]. destruct H as [H _].
        change (len [x]) with 1 in H. lia.
      - destruct H as [H Hls]. rewrite len_cons in H.
        pose proof (len_nonneg l). split; [split; [lia|assumption]|lia]. }
    destruct H1 as [H1 Hx]. apply (IH (k + 1)) in H1; [|lia].
    destruct (splitLines R) as [|l' ls']; cbn [fitFrom] in *.
    + split; [|constructor]. change (len [x]) with 1. lia.
    + destruct H1 as [H1 Hls]. split; [|assumption].
      rewrite len_cons. lia.
Qed.

Lemma fits_drop_suffix (R W : bytes) :
  Forall fits (splitLines (R ++ W)) -> Forall fits (splitLines R).
Proof.
  intros H. apply fitFrom_zero. apply (fitFrom_drop_suffix W R 0); [lia|].
  apply fitFrom_zero. assumption.
Qed.

(** When the lines of a text fit, so do the lines of the trimmed text. *)
Lemma fits_TrimSpace (data : bytes) :
  Forall fits (splitLines data) ->
  Forall fits (splitLines (GoBytes.TrimSpace data)).
Proof.
  destruct (TrimSpace_split data) as [P [S [Hd _]]].
  intros H. rewrite Hd in H.
  apply fits_drop_prefix in H. apply fits_drop_suffix in H. assumption.
Qed.

(** The result depends on the input through the trimmed input only. *)
Lemma TrimSpace_surrounded (P data S : bytes) :
  SpaceRunes P -> SpaceRunesRev S ->
  GoBytes.TrimSpace (P ++ data ++ S) = GoBytes.TrimSpace data.
Proof.
  intros HP HS. rewrite !bytes_TrimSpace_TrimFunc.
  rewrite TrimFunc_left, TrimFunc_right by assumption. reflexivity.
Qed.

End LinesFacts.

(** ** parseExtendedJSON: errors, white space, the decoder's inputs *)

Section ParserMore.

Variable M : Type.
Variable DecodeError : Type.
Variable UnmarshalExtJSON_array : bytes -> bool -> DecodeError + list M.
Variable UnmarshalExtJSON_doc : bytes -> bool -> DecodeError + M.

#[local] Abbreviation parse :=
  (parseExtendedJSON UnmarshalExtJSON_array UnmarshalExtJSON_doc).
#[local] Abbreviation decodes :=
  (fun (text : bytes) (m : M) => UnmarshalExtJSON_doc text false = inr m).

Lemma decodeLines_error_nil (ls : list bytes) :
  forall (docs0 docs : list M) (e : parseError DecodeError),
    decodeLines UnmarshalExtJSON_doc ls docs0 = (docs, Some e) -> docs = [].
Proof.
  induction ls as [|l ls IH]; intros docs0 docs e H; cbn [decodeLines] in H.
  - discriminate.
  - destruct (Bufio.MaxScanTokenSize <=? len l); [congruence|].
    destruct (len (lineText l) =? 0); [eapply IH; eassumption|].
    destruct (UnmarshalExtJSON_doc (lineText l) false); [congruence|].
    eapply IH; eassumption.
Qed.

(** When every line fits, the lines count only through the texts handed to
    the decoder. *)
Lemma decodeLines_decodeTexts (ls : list bytes) :
  forall docs : list M,
    Forall fits ls ->
    decodeLines UnmarshalExtJSON_doc ls docs
    = decodeTexts UnmarshalExtJSON_doc (decodedTexts ls) docs.
Proof.
  induction ls as [|l ls IH]; intros docs Hfit; [reflexivity|].
  inversion Hfit as [|? ? Hl Hls]; subst. cbn [decodeLines].
  replace (Bufio.MaxScanTokenSize <=? len l) with false
    by (symmetry; apply Z.leb_gt; exact Hl).
  rewrite WhiteSpaceFacts.decodedTexts_cons. unfold blankLine.
  destruct (len (lineText l) =? 0); [apply IH; assumption|].
  cbn [decodeTexts].
  destruct (UnmarshalExtJSON_doc (lineText l) false); [reflexivity|].
  apply IH. assumption.
Qed.

Lemma decodeTexts_success (texts : list bytes) :
  forall (docs ms : list M),
    Forall2 decodes texts ms ->
    decodeTexts UnmarshalExtJSON_doc texts docs = (docs ++ ms, None).
Proof.
  induction texts as [|text texts IH]; intros docs ms HF;
    inversion HF as [|? m ? ms' Hm HF']; subst; cbn [decodeTexts].
  - rewrite app_nil_r. reflexivity.
  - rewrite Hm, (IH _ ms') by assumption.
    rewrite <- app_assoc. reflexivity.
Qed.

Lemma decodeTexts_first_failure (good : list bytes) :
  forall (docs ms : list M) (bad : bytes) (rest : list bytes)
         (e : DecodeError),
    Forall2 decodes good ms ->
    UnmarshalExtJSON_doc bad false = inl e ->
    decodeTexts UnmarshalExtJSON_doc (good ++ bad :: rest) docs
    = ([], Some (FailedLine e)).
Proof.
  induction good as [|text good IH]; intros docs ms bad rest e HF Hbad;
    inversion HF as [|? m ? ms' Hm HF']; subst; cbn [app decodeTexts].
  - rewrite Hbad. reflexivity.
  - rewrite Hm. eapply IH; eassumption.
Qed.

(** The NDJSON branch on an input whose lines all fit. *)
Lemma parseExtendedJSON_texts (data : bytes) (c : byte) (t : bytes) :
  GoBytes.TrimSpace data = c :: t -> c <> "["%byte ->
  Forall fits (splitLines data) ->
  parse data
  = Some (decodeTexts UnmarshalExtJSON_doc
            (decodedTexts (splitLines data)) []).
Proof.
  intros Htrim Hc Hfit.
  rewrite ParserFacts.parseExtendedJSON_cases, Htrim.
  rewrite byte_eqb_neq by assumption.
  rewrite decodeLines_decodeTexts
    by (rewrite <- Htrim; apply LinesFacts.fits_TrimSpace; assumption).
  rewrite <- Htrim, WhiteSpaceFacts.decodedTexts_TrimSpace. reflexivity.
Qed.

(** X5. [parseExtendedJSON] never returns records together with an error:
    an error comes with no record at all, in the array branch and in the
    NDJSON branch. *)
Theorem parseExtendedJSON_error_no_records (data : bytes) (docs : list M)
    (e : parseError DecodeError) :
  parse data = Some (docs, Some e) -> docs = [].
Proof.
  rewrite ParserFacts.parseExtendedJSON_cases. intros H. injection H as H.
  destruct (GoBytes.TrimSpace data) as [|c t]; [congruence|].
  destruct (Byte.eqb c "["%byte).
  - unfold parseArray in H.
    destruct (UnmarshalExtJSON_array (c :: t) false); congruence.
  - eapply decodeLines_error_nil. eassumption.
Qed.

(** X6. White space before and after the content changes nothing: an
    input between two runs of white-space runes parses as the input
    alone. *)
Theorem parseExtendedJSON_surrounding_space (P data S : bytes) :
  WhiteSpace.SpaceRunes P -> WhiteSpace.SpaceRunesRev S ->
  parse (P ++ data ++ S) = parse data.
Proof.
  intros HP HS. rewrite !ParserFacts.parseExtendedJSON_cases.
  rewrite LinesFacts.TrimSpace_surrounded by assumption. reflexivity.
Qed.

(** X7. The line the NDJSON loop skips: [strings.TrimSpace(scanner.Text())]
    is the empty string exactly when the line is made of white-space runes
    only (a carriage return before the newline included). *)
Theorem lineText_empty_iff (l : bytes) :
  Strings.TrimSpace (Bufio.dropCR l) = [] <-> WhiteSpace.SpaceRunes l.
Proof.
  rewrite <- LinesFacts.blankLine_SpaceRunes. unfold blankLine, lineText.
  split.
  - intros ->. reflexivity.
  - intros H. apply Z.eqb_eq, len_zero_nil in H. exact H.
Qed.

(** X8. In the NDJSON branch, when every line of the input fits the
    scanner, the first text the decoder refuses decides: the result is the
    error of that text and no record, whatever the lines after it hold. *)
Theorem parseExtendedJSON_first_bad_line (data : bytes) (c : byte)
    (t : bytes) (good : list bytes) (ms : list M) (bad : bytes)
    (rest : list bytes) (e : DecodeError) :
  GoBytes.TrimSpace data = c :: t -> c <> "["%byte ->
  Forall fits (splitLines data) ->
  decodedTexts (splitLines data) = good ++ bad :: rest ->
  Forall2 decodes good ms ->
  UnmarshalExtJSON_doc bad false = inl e ->
  parse data = Some ([], Some (FailedLine e)).
Proof.
  intros Htrim Hc Hfit Htexts Hgood Hbad.
  rewrite (parseExtendedJSON_texts data c t) by assumption.
  rewrite Htexts, (decodeTexts_first_failure good [] ms bad rest e)
    by assumption.
  reflexivity.
Qed.

(** X9. In the NDJSON branch, when every line of the input fits the
    scanner and the decoder accepts every line that is not blank, the parse
    succeeds, with the decoded records in the order of the lines. *)
Theorem parseExtendedJSON_succeeds (data : bytes) (c : byte) (t : bytes)
    (ms : list M) :
  GoBytes.TrimSpace data = c :: t -> c <> "["%byte ->
  Forall fits (splitLines data) ->
  Forall2 decodes (decodedTexts (splitLines data)) ms ->
  parse data = Some (ms, None).
Proof.
  intros Htrim Hc Hfit Hall.
  rewrite (parseExtendedJSON_texts data c t) by assumption.
  rewrite (decodeTexts_success _ [] ms) by assumption. reflexivity.
Qed.

(** X10. In the NDJSON branch, a line of the trimmed content that does not
    fit the scanner, after lines that fit and are blank or accepted by the
    decoder, gives the scanner's error [bufio.ErrTooLong] and no record. *)
Theorem parseExtendedJSON_too_long (data : bytes) (c : byte) (t : bytes)
    (before : list bytes) (l : bytes) (after : list bytes) :
  GoBytes.TrimSpace data = c :: t -> c <> "["%byte ->
  splitLines (c :: t) = before ++ l :: after ->
  Forall (fun l' => fits l'
                    /\ (blankLine l' = true
                        \/ exists m, decodes (lineText l') m)) before ->
  Bufio.MaxScanTokenSize <= len l ->
  parse data = Some ([], Some (ScannerError Bufio.ErrTooLong)).
Proof.
  intros Htrim Hc Hlines Hbefore Hlong.
  rewrite ParserFacts.parseExtendedJSON_cases, Htrim.
  rewrite byte_eqb_neq by assumption. rewrite Hlines. f_equal.
  clear Hlines.
  assert (H : forall docs : list M,
             decodeLines UnmarshalExtJSON_doc (before ++ l :: after) docs
             = ([], Some (ScannerError Bufio.ErrTooLong))); [|apply H].
  induction before as [|l' before IH]; intros docs; cbn [app decodeLines].
  - replace (Bufio.MaxScanTokenSize <=? len l) with true
      by (symmetry; apply Z.leb_le; assumption).
    reflexivity.
  - inversion Hbefore as [|? ? [Hfit Hok] Hrest]; subst.
    replace (Bufio.MaxScanTokenSize <=? len l') with false
      by (symmetry; apply Z.leb_gt; exact Hfit).
    destruct Hok as [Hblank|[m Hm]].
    + unfold blankLine in Hblank. rewrite Hblank. apply IH. assumption.
    + destruct (len (lineText l') =? 0); [apply IH; assumption|].
      rewrite Hm. apply IH. assumption.
Qed.

End ParserMore.

Section DecoderInputs.

Variable M : Type.
Variable DecodeError : Type.
Variable UnmarshalExtJSON_array : bytes -> bool -> DecodeError + list M.
Variable doc doc' : bytes -> bool -> DecodeError + M.

(** The texts on which two line decoders are compared: not empty, on one
    line, without white space at either end, decoded with the flag
    [false]. *)
Hypothesis agree :
  forall text : bytes,
    text <> [] -> ~ In x0a text -> Strings.TrimSpace text = text ->
    doc text false = doc' text false.

Lemma decodeLines_agree (ls : list bytes) :
  forall docs : list M,
    Forall (fun l => ~ In x0a l) ls ->
    decodeLines doc ls docs = decodeLines doc' ls docs.
Proof.
  induction ls as [|l ls IH]; intros docs Hnl; [reflexivity|].
  inversion Hnl as [|? ? Hl Hls]; subst. cbn [decodeLines].
  destruct (Bufio.MaxScanTokenSize <=? len l); [reflexivity|].
  destruct (len (lineText l) =? 0) eqn:Eb; [apply IH; assumption|].
  rewrite <- agree.
  - destruct (doc (lineText l) false); [reflexivity|]. apply IH. assumption.
  - intros E. rewrite E in Eb. discriminate.
  - destruct (LinesFacts.lineText_piece l) as [P [S [Hpiece _]]].
    intros Hin. apply Hl. rewrite Hpiece. apply in_or_app. right.
    apply in_or_app. now left.
  - apply LinesFacts.lineText_trimmed.
Qed.

(** X11. [parseExtendedJSON] hands the line decoder only texts that are not
    empty, hold no newline and have no white space at either end, and
    always with the flag [false]: two decoders that agree on these give
    the same result on every input. *)
Theorem parseExtendedJSON_decoder_inputs (data : bytes) :
  parseExtendedJSON UnmarshalExtJSON_array doc data
  = parseExtendedJSON UnmarshalExtJSON_array doc' data.
Proof.
  rewrite !ParserFacts.parseExtendedJSON_cases.
  destruct (GoBytes.TrimSpace data) as [|c t]; [reflexivity|].
  destruct (Byte.eqb c "["%byte); [reflexivity|].
  rewrite decodeLines_agree; [reflexivity|].
  apply Forall_forall. intros l. apply LinesFacts.splitLines_no_newline.
Qed.

End DecoderInputs.

(** ** processFile and main: the driver calls of a run *)

Section ImporterMore.

Variable M : Type.
Variable DecodeError : Type.
Variable UnmarshalExtJSON_array : bytes -> bool -> DecodeError + list M.
Variable UnmarshalExtJSON_doc : bytes -> bool -> DecodeError + M.
Variable DB : Type.
Variable DBError : Type.
Variable ReadError : Type.
Variable DeleteMany : DB -> bytes -> DB * option DBError.
Variable InsertMany : DB -> bytes -> list M -> DB * option DBError.
Variable ReadFile : bytes -> ReadError + bytes.

#[local] Abbreviation world := (World M DecodeError DB DBError ReadError).
#[local] Abbreviation ev := (event M DecodeError DBError ReadError).
#[local] Abbreviation process :=
  (processFile UnmarshalExtJSON_array UnmarshalExtJSON_doc
               DeleteMany InsertMany ReadFile).
#[local] Abbreviation processAll :=
  (processFiles UnmarshalExtJSON_array UnmarshalExtJSON_doc
                DeleteMany InsertMany ReadFile).
#[local] Abbreviation callsOf :=
  (fun evs : list ev => filter isDriverCall evs).

(** The driver calls of one file. *)
Lemma processFile_calls (w : world) (filePath : bytes) :
  exists w' evs,
    process w filePath = Some w'
    /\ trace w' = trace w ++ evs
    /\ fileCalls (Event := ev) CallDeleteMany CallInsertMany
         (Main.extractCollectionName filePath) (callsOf evs).
Proof.
  unfold processFile.
  destruct (len (Main.extractCollectionName filePath) =? 0) eqn:Ename.
  { do 2 eexists. split; [reflexivity|]. split; [reflexivity|]. constructor. }
  assert (Hne : Main.extractCollectionName filePath <> [])
    by (intros E; rewrite E in Ename; discriminate).
  destruct (ReadFile filePath) as [e|data].
  { do 2 eexists. split; [reflexivity|].
    split; [cbn; rewrite <- app_assoc; reflexivity|]. constructor. }
  destruct (parseExtendedJSON_returns _ _ UnmarshalExtJSON_array
              UnmarshalExtJSON_doc data) as [[docs [e|]] ->].
  { do 2 eexists. split; [reflexivity|].
    split; [cbn; rewrite <- app_assoc; reflexivity|]. constructor. }
  cbn [db emit trace].
  destruct (DeleteMany (db w) (Main.extractCollectionName filePath))
    as [db1 [e|]].
  { do 2 eexists. split; [reflexivity|].
    split; [cbn; rewrite <- app_assoc; reflexivity|].
    constructor. assumption. }
  destruct (InsertMany db1 (Main.extractCollectionName filePath) docs)
    as [db2 [e|]].
  - do 2 eexists. split; [reflexivity|].
    split; [cbn; rewrite <- !app_assoc; reflexivity|].
    constructor. assumption.
  - do 2 eexists. split; [reflexivity|].
    split; [cbn; rewrite <- !app_assoc; reflexivity|].
    constructor. assumption.
Qed.

(** X12. The driver calls of a whole run, in the order they are made, are
    those of the files one after the other: for each file nothing, or a
    delete-all that fails, or a delete-all that succeeds followed at once
    by an insert, always on the collection named after that file, and
    never on an empty name. *)
Theorem processFiles_driver_calls (files : list bytes) (w : world) :
  exists w' evs,
    processAll w files = Some w'
    /\ trace w' = trace w ++ evs
    /\ runCalls (Event := ev) CallDeleteMany CallInsertMany
         Main.extractCollectionName files (callsOf evs).
Proof.
  revert w. induction files as [|file files IH]; intros w;
    cbn [processFiles].
  - exists w, []. split; [reflexivity|].
    split; [symmetry; apply app_nil_r|]. constructor.
  - destruct (processFile_calls w file) as [w1 [evs1 [-> [Ht1 Hc1]]]].
    destruct (IH w1) as [w' [evs [Hrun [Ht Hc]]]].
    exists w', (evs1 ++ evs). split; [assumption|].
    split; [rewrite Ht, Ht1, app_assoc; reflexivity|].
    rewrite filter_app. constructor; assumption.
Qed.

(** X13. A file with a recognised name whose content is empty or white
    space only empties its collection: the delete-all is called, and when
    it succeeds the insert is called with no document. *)
Theorem processFile_blank_file (w : world) (filePath data : bytes) :
  Main.extractCollectionName filePath <> [] ->
  ReadFile filePath = inr data ->
  WhiteSpace.SpaceRunes data ->
  let coll := Main.extractCollectionName filePath in
  exists w', process w filePath = Some w'
    /\ match DeleteMany (db w) coll with
       | (db1, Some e) =>
           db w' = db1
           /\ trace w'
              = trace w ++ [PrintImporting (Filepath.Base filePath) coll;
                            CallDeleteMany coll (Some e);
                            LogClearFailed coll e]
       | (db1, None) =>
           db w' = fst (InsertMany db1 coll [])
           /\ exists last,
                trace w'
                = trace w ++ [PrintImporting (Filepath.Base filePath) coll;
                              CallDeleteMany coll None;
                              CallInsertMany coll []
                                (snd (InsertMany db1 coll []));
                              last]
       end.
Proof.
  intros Hname Hread Hspace coll. unfold processFile. fold coll.
  replace (len coll =? 0) with false
    by (symmetry; apply Z.eqb_neq; intros E; apply Hname;
        apply len_zero_nil; exact E).
  rewrite Hread, ParserFacts.parseExtendedJSON_cases.
  replace (GoBytes.TrimSpace data) with (@nil byte).
  2: { rewrite WhiteSpaceFacts.bytes_TrimSpace_TrimFunc.
       rewrite <- (app_nil_r data), WhiteSpaceFacts.TrimFunc_left
         by assumption.
       reflexivity. }
  cbn [db emit trace].
  destruct (DeleteMany (db w) coll) as [db1 [e|]].
  - eexists. split; [reflexivity|]. split; [reflexivity|].
    cbn. rewrite <- app_assoc. reflexivity.
  - destruct (InsertMany db1 coll []) as [db2 [e|]].
    + eexists. split; [reflexivity|]. split; [reflexivity|].
      eexists. cbn. rewrite <- !app_assoc. reflexivity.
    + eexists. split; [reflexivity|]. split; [reflexivity|].
      eexists. cbn. rewrite <- !app_assoc. reflexivity.
Qed.

Variable LoadError : Type.
Variable ConnectError : Type.
Variable StatError : Type.
Variable GlobError : Type.
Variable Client : Type.
Variable godotenv_Load : option LoadError.
Variable Getenv : bytes -> bytes.
Variable Connect : bytes -> ConnectError + Client.
Variable Database : Client -> bytes -> DB.
Variable Stat : bytes -> StatError + bool.
Variable Join : bytes -> bytes -> bytes.
Variable Glob : bytes -> GlobError + list bytes.

#[local] Abbreviation run :=
  (main UnmarshalExtJSON_array UnmarshalExtJSON_doc DeleteMany InsertMany
        ReadFile godotenv_Load Getenv Connect Database Stat Join Glob).

Lemma importAll_returns (w : world) (jsonPath : bytes) (t : target) :
  exists w' evs,
    importAll UnmarshalExtJSON_array UnmarshalExtJSON_doc DeleteMany
      InsertMany ReadFile w jsonPath t = Some w'
    /\ trace w' = evs ++ [PrintAllCompleted].
Proof.
  unfold importAll. destruct t as [files|].
  - destruct (processFiles_returns _ _ UnmarshalExtJSON_array
                UnmarshalExtJSON_doc _ _ _ DeleteMany InsertMany ReadFile
                files w) as [w1 ->].
    do 2 eexists. split; reflexivity.
  - destruct (processFile_returns _ _ UnmarshalExtJSON_array
                UnmarshalExtJSON_doc _ _ _ DeleteMany InsertMany ReadFile
                w jsonPath) as [w1 ->].
    do 2 eexists. split; reflexivity.
Qed.

(** X14. [main] always ends, and its exit status is decided before the
    first file is touched: it is 0 exactly when the [.env] file loads, the
    connection is made, [JSON_PATH] exists and, for a directory, the glob
    succeeds. No failure to read, parse, clear or insert changes it, and
    the last line printed is then "All imports completed". *)
Theorem main_exit_status :
  exists e : ending M DecodeError DB DBError ReadError ConnectError
               StatError GlobError,
    run = Some e
    /\ (exitStatus e = 0
        <-> godotenv_Load = None
            /\ exists client, Connect (Getenv (bs "MONGO_URI")) = inr client
            /\ exists isDir, Stat (Getenv (bs "JSON_PATH")) = inr isDir
            /\ (isDir = true ->
                exists files,
                  Glob (Join (Getenv (bs "JSON_PATH")) (bs "*.json"))
                  = inr files))
    /\ (forall w, e = Returned w ->
        exists evs, trace w = evs ++ [PrintAllCompleted]).
Proof.
  unfold main, loadEnv.
  destruct godotenv_Load as [le|].
  { eexists. split; [reflexivity|]. split.
    - cbn. split; [discriminate|]. intros [H _]. discriminate H.
    - intros w H. discriminate H. }
  destruct (Connect (Getenv (bs "MONGO_URI"))) as [ce|client].
  { eexists. split; [reflexivity|]. split.
    - cbn. split; [discriminate|]. intros [_ [c [H _]]]. discriminate H.
    - intros w H. discriminate H. }
  destruct (Stat (Getenv (bs "JSON_PATH"))) as [se|isDir].
  { eexists. split; [reflexivity|]. split.
    - cbn. split; [discriminate|].
      intros [_ [c [_ [d [H _]]]]]. discriminate H.
    - intros w H. discriminate H. }
  destruct isDir.
  - destruct (Glob (Join (Getenv (bs "JSON_PATH")) (bs "*.json")))
      as [ge|files].
    { eexists. split; [reflexivity|]. split.
      - cbn. split; [discriminate|].
        intros [_ [c [_ [d [Hd H]]]]]. injection Hd as <-.
        destruct (H eq_refl) as [fs Hfs]. discriminate Hfs.
      - intros w H. discriminate H. }
    destruct (importAll_returns
                (mkWorld (Database client (Getenv (bs "MONGO_DB"))) [])
                (Getenv (bs "JSON_PATH")) (Directory files))
      as [w' [evs [-> Ht]]].
    eexists. split; [reflexivity|]. split.
    + cbn. split; [|reflexivity]. intros _. split; [reflexivity|].
      exists client. split; [reflexivity|]. exists true.
      split; [reflexivity|]. intros _. exists files. reflexivity.
    + intros w H. injection H as <-. exists evs. assumption.
  - destruct (importAll_returns
                (mkWorld (Database client (Getenv (bs "MONGO_DB"))) [])
                (Getenv (bs "JSON_PATH")) SingleFile)
      as [w' [evs [-> Ht]]].
    eexists. split; [reflexivity|]. split.
    + cbn. split; [|reflexivity]. intros _. split; [reflexivity|].
      exists client. split; [reflexivity|]. exists false.
      split; [reflexivity|]. intros H. discriminate H.
    + intros w H. injection H as <-. exists evs. assumption.
Qed.

End ImporterMore.

(** ** The importer of src/unnamed/part_000 *)

Section Part000More.

Variable float64 : Type.
Variable JSONError : Type.
Variable DB : Type.
Variable DBError : Type.
Variable ReadError : Type.
Variable Unmarshal : bytes -> JSONError + Part000Importer.value float64.
Variable DeleteMany : DB -> bytes -> DB * option DBError.
Variable InsertMany :
  DB -> bytes -> list (Part000Importer.value float64) -> DB * option DBError.
Variable ReadFile : bytes -> ReadError + bytes.

#[local] Abbreviation world :=
  (Part000Importer.World float64 DB DBError ReadError).
#[local] Abbreviation ev := (Part000Importer.event float64 DBError ReadError).
#[local] Abbreviation process :=
  (Part000Importer.processFile Unmarshal DeleteMany InsertMany ReadFile).
#[local] Abbreviation processAll :=
  (Part000Importer.processFiles Unmarshal DeleteMany InsertMany ReadFile).
#[local] Abbreviation callsOf :=
  (fun evs : list ev => filter Part000Importer.isDriverCall evs).

(** The driver calls of one file. *)
Lemma part000_processFile_calls (w : world) (filePath : bytes) :
  exists evs,
    Part000Importer.trace (process w filePath)
    = Part000Importer.trace w ++ evs
    /\ fileCalls (Event := ev) Part000Importer.CallDeleteMany
         Part000Importer.CallInsertMany
         (Part000.extractCollectionName filePath) (callsOf evs).
Proof.
  unfold Part000Importer.processFile.
  destruct (len (Part000.extractCollectionName filePath) =? 0) eqn:Ename.
  { eexists. split; [reflexivity|]. constructor. }
  assert (Hne : Part000.extractCollectionName filePath <> [])
    by (intros E; rewrite E in Ename; discriminate).
  destruct (ReadFile filePath) as [e|data].
  { eexists. split; [cbn; rewrite <- app_assoc; reflexivity|]. constructor. }
  destruct (Unmarshal data) as [e|raw].
  { eexists. split; [cbn; rewrite <- app_assoc; reflexivity|]. constructor. }
  destruct (Part000Importer.docsOf raw) as [docs|].
  2: { eexists. split; [cbn; rewrite <- app_assoc; reflexivity|].
       constructor. }
  cbn [Part000Importer.db Part000Importer.emit Part000Importer.trace].
  destruct (DeleteMany (Part000Importer.db w)
              (Part000.extractCollectionName filePath)) as [db1 [e|]].
  { eexists. split; [cbn; rewrite <- app_assoc; reflexivity|].
    constructor. assumption. }
  destruct (InsertMany db1 (Part000.extractCollectionName filePath) docs)
    as [db2 [e|]].
  - eexists. split; [cbn; rewrite <- !app_assoc; reflexivity|].
    constructor. assumption.
  - eexists. split; [cbn; rewrite <- !app_assoc; reflexivity|].
    constructor. assumption.
Qed.

(** X15. In the earlier importer, a file whose content [json.Unmarshal]
    refuses, or whose top level is neither an array nor an object (a number,
    a string, a boolean, [null]), is never written to the database: no call
    of the driver is made and the database is left as it was. *)
Theorem part000_processFile_not_imported (w : world) (filePath data : bytes) :
  ReadFile filePath = inr data ->
  match Unmarshal data with
  | inr (Part000Importer.Slice _) | inr (Part000Importer.Map _) => False
  | _ => True
  end ->
  Part000Importer.db (process w filePath) = Part000Importer.db w
  /\ exists evs,
       Part000Importer.trace (process w filePath)
       = Part000Importer.trace w ++ evs
       /\ Forall (fun e => Part000Importer.isDriverCall e = false) evs.
Proof.
  intros Hread Hshape. unfold Part000Importer.processFile.
  destruct (len (Part000.extractCollectionName filePath) =? 0).
  { split; [reflexivity|]. eexists. split; [reflexivity|].
    repeat constructor. }
  rewrite Hread.
  destruct (Unmarshal data) as [e|raw].
  { split; [reflexivity|]. eexists.
    split; [cbn; rewrite <- app_assoc; reflexivity|]. repeat constructor. }
  destruct raw; try contradiction;
    (split; [reflexivity|]; eexists;
     split; [cbn; rewrite <- app_assoc; reflexivity|]; repeat constructor).
Qed.

(** X16. In the earlier importer, a top-level array is written as its
    elements, in their order and whatever they are, and a top-level object
    as one document: once the delete-all has succeeded, the insert is
    called with exactly these documents. *)
Theorem part000_processFile_documents (w : world) (filePath data : bytes)
    (raw : Part000Importer.value float64)
    (docs : list (Part000Importer.value float64)) (db1 : DB) :
  Part000.extractCollectionName filePath <> [] ->
  ReadFile filePath = inr data ->
  Unmarshal data = inr raw ->
  raw = Part000Importer.Slice docs
  \/ (exists m, raw = Part000Importer.Map m) /\ docs = [raw] ->
  DeleteMany (Part000Importer.db w) (Part000.extractCollectionName filePath)
  = (db1, None) ->
  let coll := Part000.extractCollectionName filePath in
  Part000Importer.db (process w filePath) = fst (InsertMany db1 coll docs)
  /\ exists last,
       Part000Importer.trace (process w filePath)
       = Part000Importer.trace w
         ++ [Part000Importer.PrintImporting (Filepath.Base filePath) coll;
             Part000Importer.CallDeleteMany coll None;
             Part000Importer.CallInsertMany coll docs
               (snd (InsertMany db1 coll docs));
             last].
Proof.
  intros Hname Hread Hraw Hshape Hdel coll.
  unfold Part000Importer.processFile. fold coll.
  replace (len coll =? 0) with false
    by (symmetry; apply Z.eqb_neq; intros E; apply Hname;
        apply len_zero_nil; exact E).
  rewrite Hread, Hraw.
  assert (Hdocs : Part000Importer.docsOf raw = Some docs).
  { destruct Hshape as [->|[[m ->] ->]]; reflexivity. }
  rewrite Hdocs.
  cbn [Part000Importer.db Part000Importer.emit Part000Importer.trace].
  fold coll in Hdel. rewrite Hdel.
  destruct (InsertMany db1 coll docs) as [db2 [e|]].
  - split; [reflexivity|]. eexists. cbn. rewrite <- !app_assoc. reflexivity.
  - split; [reflexivity|]. eexists. cbn. rewrite <- !app_assoc. reflexivity.
Qed.

(** X17. The driver calls of a whole run of the earlier importer, in the
    order they are made, are those of the files one after the other: for
    each file nothing, or a delete-all that fails, or a delete-all that
    succeeds followed at once by an insert, always on the collection named
    after that file, and never on an empty name. *)
Theorem part000_processFiles_driver_calls (files : list bytes) (w : world) :
  exists evs,
    Part000Importer.trace (processAll w files)
    = Part000Importer.trace w ++ evs
    /\ runCalls (Event := ev) Part000Importer.CallDeleteMany
         Part000Importer.CallInsertMany Part000.extractCollectionName
         files (callsOf evs).
Proof.
  revert w. induction files as [|file files IH]; intros w;
    cbn [Part000Importer.processFiles].
  - exists []. split; [symmetry; apply app_nil_r|]. constructor.
  - destruct (part000_processFile_calls w file) as [evs1 [Ht1 Hc1]].
    destruct (IH (process w file)) as [evs [Ht Hc]].
    exists (evs1 ++ evs).
    split; [rewrite Ht, Ht1, app_assoc; reflexivity|].
    rewrite filter_app. constructor; assumption.
Qed.

End Part000More.

(** ** The further statements on concrete inputs *)

Lemma extractCollectionName_guard_never_fires_witness :
  Strings.HasSuffix (bs "orders.v2.json") (bs ".json") = true
  /\ 2 <= len (Strings.Split (bs "orders.v2.json") (bs "."))
  /\ Main.extractCollectionName (bs "data/orders.v2.json")
     = nth (Z.to_nat (len (Strings.Split (bs "orders.v2.json") (bs ".")) - 2))
           (Strings.Split (bs "orders.v2.json") (bs ".")) [].
Proof.
  assert (H : Strings.HasSuffix (bs "orders.v2.json") (bs ".json") = true)
    by reflexivity.
  pose proof (extractCollectionName_guard_never_fires
                (bs "orders.v2.json") H) as [H1 [_ [_ H2]]].
  split; [exact H|]. split; [exact H1|].
  apply H2. reflexivity.
Defined.

Lemma parseExtendedJSON_error_no_records_witness :
  parseExtendedJSON Sample.array Sample.doc Sample.badLines
  = Some ([], Some (FailedLine tt))
  /\ @nil bytes = [].
Proof.
  assert (H : parseExtendedJSON Sample.array Sample.doc Sample.badLines
              = Some ([], Some (FailedLine tt)))
    by (vm_compute; reflexivity).
  split; [exact H|].
  exact (parseExtendedJSON_error_no_records _ _ Sample.array Sample.doc
           Sample.badLines [] (FailedLine tt) H).
Defined.

Lemma parseExtendedJSON_surrounding_space_witness :
  WhiteSpace.SpaceRunes [x0a; " "%byte]
  /\ WhiteSpace.SpaceRunesRev [x0d; x0a]
  /\ parseExtendedJSON Sample.array Sample.doc
       ([x0a; " "%byte] ++ Sample.twoLines ++ [x0d; x0a])
     = parseExtendedJSON Sample.array Sample.doc Sample.twoLines.
Proof.
  assert (HP : WhiteSpace.SpaceRunes [x0a; " "%byte])
    by (apply WhiteSpaceFacts.SpaceRunes_ascii; repeat constructor).
  assert (HS : WhiteSpace.SpaceRunesRev [x0d; x0a])
    by (apply WhiteSpaceFacts.SpaceRunesRev_ascii; repeat constructor).
  split; [exact HP|]. split; [exact HS|].
  exact (parseExtendedJSON_surrounding_space _ _ Sample.array Sample.doc
           _ Sample.twoLines _ HP HS).
Defined.

Lemma badLastLine_fits : Forall fits (splitLines Sample.badLastLine).
Proof.
  assert (E : splitLines Sample.badLastLine
              = [[x0d]; Sample.recA; bs "oops" ++ [" "%byte; x09]])
    by (vm_compute; reflexivity).
  rewrite E. repeat (constructor; [reflexivity|]). constructor.
Qed.

Lemma parseExtendedJSON_first_bad_line_witness :
  Forall fits (splitLines Sample.badLastLine)
  /\ decodedTexts (splitLines Sample.badLastLine)
     = [Sample.recA] ++ bs "oops" :: []
  /\ Sample.doc (bs "oops") false = inl tt
  /\ parseExtendedJSON Sample.array Sample.doc Sample.badLastLine
     = Some ([], Some (FailedLine tt)).
Proof.
  assert (Htexts : decodedTexts (splitLines Sample.badLastLine)
                   = [Sample.recA] ++ bs "oops" :: [])
    by (vm_compute; reflexivity).
  split; [exact badLastLine_fits|]. split; [exact Htexts|].
  split; [reflexivity|].
  refine (parseExtendedJSON_first_bad_line _ _ Sample.array Sample.doc
            Sample.badLastLine "{"%byte
            (tl (Sample.recA ++ [x0a] ++ bs "oops"))
            [Sample.recA] [Sample.recA] (bs "oops") [] tt
            _ _ badLastLine_fits Htexts _ _).
  - vm_compute. reflexivity.
  - discriminate.
  - repeat constructor.
  - reflexivity.
Defined.

Lemma twoLinesBlank_fits : Forall fits (splitLines Sample.twoLinesBlank).
Proof.
  assert (E : splitLines Sample.twoLinesBlank
              = [Sample.recA; bs "  " ++ [x0d]; Sample.recB])
    by (vm_compute; reflexivity).
  rewrite E. repeat (constructor; [reflexivity|]). constructor.
Qed.

Lemma parseExtendedJSON_succeeds_witness :
  Forall fits (splitLines Sample.twoLinesBlank)
  /\ Forall2 (fun text m => Sample.doc text false = inr m)
       (decodedTexts (splitLines Sample.twoLinesBlank))
       [Sample.recA; Sample.recB]
  /\ parseExtendedJSON Sample.array Sample.doc Sample.twoLinesBlank
     = Some ([Sample.recA; Sample.recB], None).
Proof.
  assert (Hall : Forall2 (fun text m => Sample.doc text false = inr m)
                   (decodedTexts (splitLines Sample.twoLinesBlank))
                   [Sample.recA; Sample.recB]).
  { replace (decodedTexts (splitLines Sample.twoLinesBlank))
      with [Sample.recA; Sample.recB] by (vm_compute; reflexivity).
    repeat constructor. }
  split; [exact twoLinesBlank_fits|]. split; [exact Hall|].
  refine (parseExtendedJSON_succeeds _ _ Sample.array Sample.doc
            Sample.twoLinesBlank "{"%byte
            (tl (Sample.recA ++ [x0a] ++ bs "  " ++ [x0d; x0a] ++ Sample.recB))
            [Sample.recA; Sample.recB] _ _ twoLinesBlank_fits Hall).
  - vm_compute. reflexivity.
  - discriminate.
Defined.

Lemma parseExtendedJSON_too_long_witness :
  splitLines Sample.longLine = [] ++ Sample.longLine :: []
  /\ Bufio.MaxScanTokenSize <= len Sample.longLine
  /\ parseExtendedJSON Sample.array Sample.doc Sample.longLine
     = Some ([], Some (ScannerError Bufio.ErrTooLong)).
Proof.
  assert (Hlines : splitLines Sample.longLine = [] ++ Sample.longLine :: []).
  { apply ParserFacts.splitLines_single.
    - discriminate.
    - exact longLine_no_newline. }
  assert (Hlen : Bufio.MaxScanTokenSize <= len Sample.longLine).
  { unfold Sample.longLine, Bufio.MaxScanTokenSize.
    rewrite !len_app. unfold len at 2. rewrite repeat_length.
    change (len (bs "{")) with 1. change (len (bs "}")) with 1. lia. }
  assert (Htrim : GoBytes.TrimSpace Sample.longLine
                  = "{"%byte :: tl Sample.longLine).
  { change Sample.longLine
      with ("{"%byte :: repeat " "%byte (Z.to_nat 65536) ++ ["}"%byte]).
    apply TrimFacts.TrimSpace_ascii_ends; reflexivity. }
  split; [exact Hlines|]. split; [exact Hlen|].
  refine (parseExtendedJSON_too_long _ _ Sample.array Sample.doc
            Sample.longLine "{"%byte (tl Sample.longLine)
            [] Sample.longLine [] Htrim _ Hlines _ Hlen).
  - discriminate.
  - constructor.
Defined.

Lemma parseExtendedJSON_decoder_inputs_witness :
  (forall text : bytes,
      text <> [] -> ~ In x0a text -> Strings.TrimSpace text = text ->
      Sample.doc text false = otherDoc text false)
  /\ parseExtendedJSON Sample.array Sample.doc Sample.twoLinesBlank
     = parseExtendedJSON Sample.array otherDoc Sample.twoLinesBlank.
Proof.
  assert (H : forall text : bytes,
             text <> [] -> ~ In x0a text -> Strings.TrimSpace text = text ->
             Sample.doc text false = otherDoc text false).
  { intros text Hne _ _. destruct text; [contradiction|reflexivity]. }
  split; [exact H|].
  exact (parseExtendedJSON_decoder_inputs _ _ Sample.array Sample.doc
           otherDoc H Sample.twoLinesBlank).
Defined.

Lemma processFile_blank_file_witness :
  Main.extractCollectionName (bs "data/empty.json") <> []
  /\ Sample.ReadFile (bs "data/empty.json") = inr (bs "  ")
  /\ WhiteSpace.SpaceRunes (bs "  ")
  /\ exists w',
       processFile Sample.array Sample.doc Sample.DeleteMany
         Sample.InsertMany Sample.ReadFile (mkWorld Sample.db0 [])
         (bs "data/empty.json") = Some w'
       /\ db w' = Sample.db0
       /\ exists last,
            trace w'
            = [] ++ [PrintImporting (bs "empty.json") (bs "empty");
                     CallDeleteMany (bs "empty") None;
                     CallInsertMany (bs "empty") [] (Some tt);
                     last].
Proof.
  assert (Hname : Main.extractCollectionName (bs "data/empty.json") <> [])
    by (vm_compute; discriminate).
  assert (Hread : Sample.ReadFile (bs "data/empty.json") = inr (bs "  "))
    by reflexivity.
  assert (Hspace : WhiteSpace.SpaceRunes (bs "  "))
    by (apply WhiteSpaceFacts.SpaceRunes_ascii; repeat constructor).
  split; [exact Hname|]. split; [exact Hread|]. split; [exact Hspace|].
  exact (processFile_blank_file _ _ Sample.array Sample.doc _ _ _
           Sample.DeleteMany Sample.InsertMany Sample.ReadFile
           (mkWorld Sample.db0 []) (bs "data/empty.json") (bs "  ")
           Hname Hread Hspace).
Defined.

Lemma part000_processFile_not_imported_witness :
  Sample000.ReadFile (bs "data/seven.json") = inr (bs "7")
  /\ Sample000.Unmarshal (bs "7") = inr (Part000Importer.Float64 7)
  /\ Part000Importer.db
       (Part000Importer.processFile Sample000.Unmarshal Sample000.DeleteMany
          Sample000.InsertMany Sample000.ReadFile
          (Part000Importer.mkWorld Sample000.db0 [])
          (bs "data/seven.json"))
     = Sample000.db0.
Proof.
  assert (Hread : Sample000.ReadFile (bs "data/seven.json") = inr (bs "7"))
    by reflexivity.
  split; [exact Hread|]. split; [reflexivity|].
  exact (proj1 (part000_processFile_not_imported _ _ _ _ _
                  Sample000.Unmarshal Sample000.DeleteMany
                  Sample000.InsertMany Sample000.ReadFile
                  (Part000Importer.mkWorld Sample000.db0 [])
                  (bs "data/seven.json") (bs "7") Hread I)).
Defined.

Lemma part000_processFile_documents_witness :
  Sample000.ReadFile (bs "data/pairs.json") = inr (bs "[1,2]")
  /\ Sample000.Unmarshal (bs "[1,2]")
     = inr (Part000Importer.Slice
              [Part000Importer.Float64 1; Part000Importer.Float64 2])
  /\ Part000Importer.db
       (Part000Importer.processFile Sample000.Unmarshal Sample000.DeleteMany
          Sample000.InsertMany Sample000.ReadFile
          (Part000Importer.mkWorld Sample000.db0 [])
          (bs "data/pairs.json"))
     = (bs "pairs", [Part000Importer.Float64 1; Part000Importer.Float64 2])
       :: Sample000.db0.
Proof.
  assert (Hname : Part000.extractCollectionName (bs "data/pairs.json") <> [])
    by (vm_compute; discriminate).
  assert (Hread : Sample000.ReadFile (bs "data/pairs.json")
                  = inr (bs "[1,2]")) by reflexivity.
  assert (Hraw : Sample000.Unmarshal (bs "[1,2]")
                 = inr (Part000Importer.Slice
                          [Part000Importer.Float64 1;
                           Part000Importer.Float64 2])) by reflexivity.
  assert (Hdel : Sample000.DeleteMany Sample000.db0
                   (Part000.extractCollectionName (bs "data/pairs.json"))
                 = (Sample000.db0, None)) by (vm_compute; reflexivity).
  split; [exact Hread|]. split; [exact Hraw|].
  exact (proj1 (part000_processFile_documents _ _ _ _ _
                  Sample000.Unmarshal Sample000.DeleteMany
                  Sample000.InsertMany Sample000.ReadFile
                  (Part000Importer.mkWorld Sample000.db0 [])
                  (bs "data/pairs.json") (bs "[1,2]") _ _ Sample000.db0
                  Hname Hread Hraw (or_introl eq_refl) Hdel)).
Defined.
